(** * Living Canvas: drawing-to-object pipeline and interaction rules

    A shallow embedding of the TypeScript sources of the Living Canvas
    game: the client stage ([LivingCanvasStage]: property resolution, the
    drawing pipeline, frame polling, the collision rules and the command
    surface) and two server pieces (the [/checkFrames/:hash] route and
    [parsePropertiesFromString]).

    JavaScript values are an inductive type, objects used as bags of
    properties are finite maps from property names, exceptions are an
    explicit outcome, and the scene (display list, emitters, textures,
    loader) is a record threaded through a state-and-exception monad. *)

From Stdlib Require Import ZArith QArith Qround Ascii String.
From stdpp Require Import gmap strings list fin_maps pretty.

Set Warnings "-register-all,-clear-no-such-hyp".
Local Open Scope string_scope.
Local Open Scope Z_scope.
Local Open Scope list_scope.
Local Open Scope stdpp_scope.

(** ** JavaScript values *)

(** A value as JSON parsing or the client code produces it.  Numbers are
    kept as integers: no rule of the pipeline computes with them. *)
Inductive jsval :=
| JUndefined
| JNull
| JBool (b : bool)
| JNum (n : Z)
| JStr (s : string)
| JArr (l : list jsval)
| JObj (m : gmap string jsval).

(** A property bag: a JS object read and written by property name. *)
Abbreviation propbag := (gmap string jsval).

(** What a [throw] carries. *)
Inductive exn :=
| TypeError (msg : string)
| SyntaxError (msg : string)
| Error (msg : string).

(** The result of running code that may throw. *)
Inductive outcome (A : Type) :=
| Ret (a : A)
| Throw (e : exn).
Arguments Ret {A} a.
Arguments Throw {A} e.

Definition obind {A B} (m : outcome A) (k : A -> outcome B) : outcome B :=
  match m with
  | Ret a => k a
  | Throw e => Throw e
  end.

Notation "'try!' x := m 'in' k" := (obind m (fun x => k))
  (at level 10, x name, m at level 100, k at level 200).

(** ToBoolean. *)
Definition truthy (v : jsval) : bool :=
  match v with
  | JUndefined | JNull => false
  | JBool b => b
  | JNum n => negb (n =? 0)
  | JStr s => negb (String.eqb s "")
  | JArr _ | JObj _ => true
  end.

(** [v == undefined]. *)
Definition is_nullish (v : jsval) : bool :=
  match v with
  | JUndefined | JNull => true
  | _ => false
  end.

(** [typeof v === 'object']. *)
Definition typeof_object (v : jsval) : bool :=
  match v with
  | JNull | JArr _ | JObj _ => true
  | _ => false
  end.

(** [Array.isArray(v)]. *)
Definition isArray (v : jsval) : bool :=
  match v with
  | JArr _ => true
  | _ => false
  end.

(** [v.k] for the named fields the code reads ([properties], [attributes],
    [shouldRemove], [type], [ready], [error], [hash], ...).  None of these
    is an own or inherited property of an array, a string, a number or a
    boolean, so those give [undefined]; reading a field of [undefined] or
    [null] throws. *)
Definition get_field (v : jsval) (k : string) : outcome jsval :=
  match v with
  | JUndefined => Throw (TypeError ("Cannot read properties of undefined (reading '" +:+ k +:+ "')"))
  | JNull => Throw (TypeError ("Cannot read properties of null (reading '" +:+ k +:+ "')"))
  | JObj m => Ret (default JUndefined (m !! k))
  | _ => Ret JUndefined
  end.

(** [v?.k]. *)
Definition get_field_opt (v : jsval) (k : string) : jsval :=
  match v with
  | JObj m => default JUndefined (m !! k)
  | _ => JUndefined
  end.

(** The own enumerable properties an object spread [{...v}] copies: the
    fields of an object, the elements of an array under their indices. *)
Fixpoint index_from (i : nat) (l : list jsval) : propbag :=
  match l with
  | [] => ∅
  | x :: l' => <[pretty i := x]> (index_from (S i) l')
  end.

Definition own_props (v : jsval) : propbag :=
  match v with
  | JObj m => m
  | JArr l => index_from 0 l
  | _ => ∅
  end.

(** [{...a, ...b}]: the fields of [b] win. *)
Definition spread (a b : propbag) : propbag := b ∪ a.

(** [arr.indexOf(key) != -1] for a string [key]: strict equality, so only
    string elements can match. *)
Definition is_str (k : string) (v : jsval) : bool :=
  match v with
  | JStr s => String.eqb s k
  | _ => false
  end.

Definition indexOf_found (l : list jsval) (k : string) : bool :=
  existsb (is_str k) l.

(** ** State and exceptions

    Code that mutates a store and may throw: an exception keeps the
    store reached when it was thrown, as a [catch] block sees it. *)

Definition ST (S A : Type) : Type := S -> outcome A * S.

Definition ret {S A} (a : A) : ST S A := fun s => (Ret a, s).
Definition throw {S A} (e : exn) : ST S A := fun s => (Throw e, s).
Definition bind {S A B} (m : ST S A) (k : A -> ST S B) : ST S B :=
  fun s => match m s with
           | (Ret a, s') => k a s'
           | (Throw e, s') => (Throw e, s')
           end.
Definition try_catch {S A} (body : ST S A) (handler : exn -> ST S A) : ST S A :=
  fun s => match body s with
           | (Ret a, s') => (Ret a, s')
           | (Throw e, s') => handler e s'
           end.
Definition lift {S A} (o : outcome A) : ST S A := fun s => (o, s).
Definition modify {S} (f : S -> S) : ST S unit := fun s => (Ret tt, f s).
Definition gets {S A} (f : S -> A) : ST S A := fun s => (Ret (f s), s).

Notation "'do!' x := m 'in' k" := (bind m (fun x => k))
  (at level 10, x name, m at level 100, k at level 200).
Notation "m ;; k" := (bind m (fun _ => k))
  (at level 100, k at level 200, right associativity).

(** [for (const x of l) body(x)]. *)
Fixpoint for_each {S A} (l : list A) (body : A -> ST S unit) : ST S unit :=
  match l with
  | [] => ret tt
  | x :: l' => body x ;; for_each l' body
  end.

(** ** Strings *)

Module Str.

Definition lower_ascii (c : ascii) : ascii :=
  let n := Ascii.nat_of_ascii c in
  if (Nat.leb 65 n && Nat.leb n 90)%bool then Ascii.ascii_of_nat (n + 32) else c.

(** [s.toLowerCase()] on the ASCII letters. *)
Fixpoint toLowerCase (s : string) : string :=
  match s with
  | EmptyString => EmptyString
  | String c s' => String (lower_ascii c) (toLowerCase s')
  end.

Definition is_space (c : ascii) : bool :=
  let n := Ascii.nat_of_ascii c in
  (Nat.eqb n 32 || (Nat.leb 9 n && Nat.leb n 13))%bool.

Fixpoint trimStart (s : string) : string :=
  match s with
  | EmptyString => EmptyString
  | String c s' => if is_space c then trimStart s' else s
  end.

(** Drops the trailing white space: a character stays when something
    that is not white space follows it or it is itself not white space. *)
Fixpoint trimEnd (s : string) : string :=
  match s with
  | EmptyString => EmptyString
  | String c s' =>
      match trimEnd s' with
      | EmptyString => if is_space c then EmptyString else String c EmptyString
      | r => String c r
      end
  end.

(** [s.trim()]. *)
Definition trim (s : string) : string := trimEnd (trimStart s).

(** [s.split(",")]: never empty, [""] splits to [[""]]. *)
Fixpoint split_comma (s : string) : list string :=
  match s with
  | EmptyString => [EmptyString]
  | String c s' =>
      if Ascii.eqb c ","%char then EmptyString :: split_comma s'
      else match split_comma s' with
           | w :: ws => String c w :: ws
           | [] => [String c EmptyString]
           end
  end.

(** [s.startsWith(p)]. *)
Fixpoint startsWith (p s : string) : bool :=
  match p, s with
  | EmptyString, _ => true
  | String a p', String b s' => (Ascii.eqb a b && startsWith p' s')%bool
  | String _ _, EmptyString => false
  end.

(** [s.substring(n)]. *)
Fixpoint substring_from (n : nat) (s : string) : string :=
  match n, s with
  | O, _ => s
  | S n', String _ s' => substring_from n' s'
  | S _, EmptyString => EmptyString
  end.

End Str.

(** ** Server: [parsePropertiesFromString] (ai-config-helper.ts) *)

Module Server.

Definition jtrue : jsval := JBool true.
Definition jfalse : jsval := JBool false.

(** The object literal the function starts from. *)
Definition initial_properties : propbag :=
  <["floats" := jfalse]> (<["hovers" := jfalse]> (<["falls" := jtrue]>
  (<["drips" := jfalse]> (<["douses" := jfalse]> (<["solid" := jtrue]>
  (<["heavy" := jfalse]> (<["burns" := jfalse]> (<["explodes" := jfalse]>
  (<["flies" := jfalse]> (<["wooden" := jfalse]> (<["metal" := jfalse]>
  (<["ice" := jfalse]> (<["blows" := jfalse]> ∅))))))))))))).

(** The names of the fourteen traits. *)
Definition trait_names : list string :=
  ["floats"; "hovers"; "falls"; "drips"; "douses"; "solid"; "heavy";
   "burns"; "explodes"; "flies"; "wooden"; "metal"; "ice"; "blows"].

Definition trait_set : gset string := list_to_set trait_names.

Definition one_of (w : string) (l : list string) : bool :=
  existsb (String.eqb w) l.

(** The [switch (word)] of the [forEach]: one step of the loop. *)
Definition apply_word (properties : propbag) (word : string) : propbag :=
  if one_of word ["hot"; "fire"; "burn"; "flammable"] then
    <["burns" := jtrue]> properties
  else if one_of word ["cold"; "frozen"; "ice"] then
    <["ice" := jtrue]> properties
  else if one_of word ["heavy"; "dense"] then
    <["heavy" := jtrue]> properties
  else if one_of word ["light"; "floats"; "buoyant"] then
    <["falls" := jfalse]> (<["heavy" := jfalse]> (<["floats" := jtrue]> properties))
  else if one_of word ["fluid"; "flows"; "water"] then
    <["douses" := jtrue]> (<["drips" := jtrue]> properties)
  else if one_of word ["metal"; "metallic"] then
    <["heavy" := jtrue]> (<["metal" := jtrue]> properties)
  else if one_of word ["wood"; "wooden"] then
    <["wooden" := jtrue]> properties
  else if one_of word ["wind"; "air"; "blows"] then
    <["solid" := jfalse]> (<["blows" := jtrue]> properties)
  else if one_of word ["explosion"; "explosive"] then
    <["explodes" := jtrue]> properties
  else if one_of word ["flying"; "flies"] then
    <["falls" := jfalse]> (<["flies" := jtrue]> properties)
  else properties.

(** The type-specific overrides that close the function. *)
Definition apply_overrides (objectType : string) (properties : propbag) : propbag :=
  if String.eqb objectType "fire" then
    <["falls" := jtrue]> (<["solid" := jtrue]> (<["burns" := jtrue]> properties))
  else if String.eqb objectType "candle" then
    <["falls" := jtrue]> (<["solid" := jtrue]> (<["burns" := jtrue]> properties))
  else if String.eqb objectType "flame" then
    <["falls" := jtrue]> (<["solid" := jtrue]> (<["burns" := jtrue]> properties))
  else if String.eqb objectType "ice" then
    <["ice" := jtrue]> properties
  else if String.eqb objectType "water" then
    <["falls" := jtrue]> (<["douses" := jtrue]> (<["drips" := jtrue]> properties))
  else if String.eqb objectType "wind" then
    <["falls" := jfalse]> (<["solid" := jfalse]> (<["blows" := jtrue]> properties))
  else properties.

Definition words_of (propertiesStr : string) : list string :=
  map Str.trim (Str.split_comma (Str.toLowerCase propertiesStr)).

Definition parsePropertiesFromString
    (objectType propertiesStr : string) (confidence : Q) : propbag :=
  let words := words_of propertiesStr in
  apply_overrides objectType (foldl apply_word initial_properties words).

(** *** The [/checkFrames/:hash] route (server index)

    [path.join] and [fs.existsSync] belong to Node: the route is stated
    over any path joiner and any state of the file system.  The handler
    returns its response together with the paths it probed, in order. *)

Record response := mkResponse { res_status : nat; res_body : jsval }.

Section CheckFrames.

Variable join : list string -> string.
Variable existsSync : string -> bool.

Definition frame_file (hash : string) (i : nat) : string :=
  "output_" +:+ hash +:+ "_frame" +:+ pretty i +:+ ".png".

(** The [for (let i = 0; i < totalFrames; i++)] loop, [n] iterations left. *)
Fixpoint count_frames (framesDir hash : string) (n i readyFrames : nat)
    (probed : list string) : nat * list string :=
  match n with
  | O => (readyFrames, probed)
  | S n' =>
      let framePath := join [framesDir; frame_file hash i] in
      let readyFrames' := if existsSync framePath then S readyFrames else readyFrames in
      count_frames framesDir hash n' (S i) readyFrames' (probed ++ [framePath])
  end.

Definition checkFrames (hash : option string) : response * list string :=
  match hash with
  | None | Some EmptyString =>
      (mkResponse 400 (JObj {[ "error" := JStr "Hash parameter is required" ]}), [])
  | Some hash =>
      let framesDir := join ["generated"] in
      let totalFrames := 4%nat in
      let '(readyFrames, probed) := count_frames framesDir hash totalFrames 0 0 [] in
      (mkResponse 200
         (JObj (<["ready" := JBool (Nat.eqb readyFrames totalFrames)]>
               (<["progress" := JNum (Z.of_nat readyFrames)]>
               (<["total" := JNum (Z.of_nat totalFrames)]> ∅)))),
       probed)
  end.

End CheckFrames.

End Server.


(** ** Client: the stage (LivingCanvasStage) *)

Module Stage.

(** *** Entities and the scene *)

(** The class of a game object, as the [instanceof] tests of the stage
    see it.  [ForeignObject] is a game object that is not a
    [WorldObject]. *)
Inductive objkind := RustedKey | IceCube | IceWall | PlainWorldObject | ForeignObject.

Definition instanceof_WorldObject (k : objkind) : bool :=
  match k with
  | ForeignObject => false
  | _ => true
  end.

Definition instanceof_RustedKey (k : objkind) : bool :=
  match k with
  | RustedKey => true
  | _ => false
  end.

(** A particle emitter. *)
Record Emitter := mkEmitter {
  em_texture : string;
  em_emitting : bool;
  em_destroyed : bool;
  em_follow : option nat
}.

(** A game object.  [prop] is absent on objects that carry no property
    bag; [emitters] holds the effects stored on the object ([fire],
    [flare], [explosion], [drips], [steam]) and [tweens] its tweens
    ([blinkTween], [tween]), [true] while playing. *)
Record Entity := mkEntity {
  kind : objkind;
  name : string;
  prop : option propbag;
  texture : option string;
  alpha : Q;
  life : Z;
  emitters : gmap string Emitter;
  tweens : gmap string bool;
  anim : option string
}.

Definition with_name (n : string) (e : Entity) : Entity :=
  mkEntity (kind e) n (prop e) (texture e) (alpha e) (life e) (emitters e) (tweens e) (anim e).
Definition with_prop (p : option propbag) (e : Entity) : Entity :=
  mkEntity (kind e) (name e) p (texture e) (alpha e) (life e) (emitters e) (tweens e) (anim e).
Definition with_texture (t : option string) (e : Entity) : Entity :=
  mkEntity (kind e) (name e) (prop e) t (alpha e) (life e) (emitters e) (tweens e) (anim e).
Definition with_alpha (a : Q) (e : Entity) : Entity :=
  mkEntity (kind e) (name e) (prop e) (texture e) a (life e) (emitters e) (tweens e) (anim e).
Definition with_life (l : Z) (e : Entity) : Entity :=
  mkEntity (kind e) (name e) (prop e) (texture e) (alpha e) l (emitters e) (tweens e) (anim e).
Definition with_emitters (m : gmap string Emitter) (e : Entity) : Entity :=
  mkEntity (kind e) (name e) (prop e) (texture e) (alpha e) (life e) m (tweens e) (anim e).
Definition with_tweens (m : gmap string bool) (e : Entity) : Entity :=
  mkEntity (kind e) (name e) (prop e) (texture e) (alpha e) (life e) (emitters e) m (anim e).
Definition with_anim (a : option string) (e : Entity) : Entity :=
  mkEntity (kind e) (name e) (prop e) (texture e) (alpha e) (life e) (emitters e) (tweens e) a.

(** [e.prop?.k], as a condition. *)
Definition prop_truthy (e : Entity) (k : string) : bool :=
  match prop e with
  | Some p => truthy (default JUndefined (p !! k))
  | None => false
  end.

(** [e.prop.k = v]: throws when the object has no property bag. *)
Definition assign_prop (k : string) (v : jsval) (e : Entity) : outcome Entity :=
  match prop e with
  | Some p => Ret (with_prop (Some (<[k := v]> p)) e)
  | None => Throw (TypeError ("Cannot set properties of undefined (setting '" +:+ k +:+ "')"))
  end.

(** [e.setTexture(key)]. *)
Definition setTexture (key : string) (e : Entity) : Entity := with_texture (Some key) e.

(** [e.setAlpha(a)]. *)
Definition setAlpha (a : Q) (e : Entity) : Entity := with_alpha a e.

(** [e.<tween>.stop()] for the tween stored under [k]. *)
Definition stop_tween (k : string) (e : Entity) : Entity :=
  with_tweens (<[k := false]> (tweens e)) e.

(** [if (e.<k> && !e.<k>.destroyed) e.<k>.stop()]. *)
Definition stop_live_emitter (k : string) (e : Entity) : Entity :=
  match emitters e !! k with
  | Some em =>
      if em_destroyed em then e
      else with_emitters
             (<[k := mkEmitter (em_texture em) false (em_destroyed em) (em_follow em)]> (emitters e)) e
  | None => e
  end.

(** What a deferred callback does once its event fires. *)
Inductive callback :=
| CbUpdateObject (target : nat) (key : string) (props : propbag)
| CbUpdateIfAlive (target : nat) (key : string)
| CbOnloadUpdate (imageKey : string) (target : nat) (props : propbag)
| CbPlayAnimation (animationKey : string) (placeholder : nat) (original : option nat)
| CbRetireOriginal (original : nat).

(** The scene: the display list in its order, the objects behind it, the
    scene's particle emitters, the texture manager, the loader with the
    files queued and the listeners waiting for its [complete] event, the
    listeners of the texture manager's [onload] event with the base64
    images still decoding, the timers set, the objects noted as last
    created, the two drawing flags, what [console.error] printed, and
    the next fresh identifier. *)
Record Scene := mkScene {
  children : list nat;
  objs : gmap nat Entity;
  particles : gmap nat Emitter;
  textures : gset string;
  loadQueue : list (string * string);
  onceComplete : list callback;
  onloadListeners : list callback;
  pendingBase64 : list (string * string);
  timers : list callback;
  lastCreatedList : list nat;
  drawingInProgress : bool;
  mouseDown : bool;
  consoleErrors : list string;
  nextId : nat
}.

Definition with_children (c : list nat) (s : Scene) : Scene :=
  mkScene c (objs s) (particles s) (textures s) (loadQueue s) (onceComplete s)
    (onloadListeners s) (pendingBase64 s) (timers s) (lastCreatedList s)
    (drawingInProgress s) (mouseDown s) (consoleErrors s) (nextId s).
Definition with_objs (o : gmap nat Entity) (s : Scene) : Scene :=
  mkScene (children s) o (particles s) (textures s) (loadQueue s) (onceComplete s)
    (onloadListeners s) (pendingBase64 s) (timers s) (lastCreatedList s)
    (drawingInProgress s) (mouseDown s) (consoleErrors s) (nextId s).
Definition with_particles (p : gmap nat Emitter) (s : Scene) : Scene :=
  mkScene (children s) (objs s) p (textures s) (loadQueue s) (onceComplete s)
    (onloadListeners s) (pendingBase64 s) (timers s) (lastCreatedList s)
    (drawingInProgress s) (mouseDown s) (consoleErrors s) (nextId s).
Definition with_textures (t : gset string) (s : Scene) : Scene :=
  mkScene (children s) (objs s) (particles s) t (loadQueue s) (onceComplete s)
    (onloadListeners s) (pendingBase64 s) (timers s) (lastCreatedList s)
    (drawingInProgress s) (mouseDown s) (consoleErrors s) (nextId s).
Definition with_loadQueue (q : list (string * string)) (s : Scene) : Scene :=
  mkScene (children s) (objs s) (particles s) (textures s) q (onceComplete s)
    (onloadListeners s) (pendingBase64 s) (timers s) (lastCreatedList s)
    (drawingInProgress s) (mouseDown s) (consoleErrors s) (nextId s).
Definition with_onceComplete (l : list callback) (s : Scene) : Scene :=
  mkScene (children s) (objs s) (particles s) (textures s) (loadQueue s) l
    (onloadListeners s) (pendingBase64 s) (timers s) (lastCreatedList s)
    (drawingInProgress s) (mouseDown s) (consoleErrors s) (nextId s).
Definition with_onloadListeners (l : list callback) (s : Scene) : Scene :=
  mkScene (children s) (objs s) (particles s) (textures s) (loadQueue s) (onceComplete s)
    l (pendingBase64 s) (timers s) (lastCreatedList s)
    (drawingInProgress s) (mouseDown s) (consoleErrors s) (nextId s).
Definition with_pendingBase64 (l : list (string * string)) (s : Scene) : Scene :=
  mkScene (children s) (objs s) (particles s) (textures s) (loadQueue s) (onceComplete s)
    (onloadListeners s) l (timers s) (lastCreatedList s)
    (drawingInProgress s) (mouseDown s) (consoleErrors s) (nextId s).
Definition with_lastCreatedList (l : list nat) (s : Scene) : Scene :=
  mkScene (children s) (objs s) (particles s) (textures s) (loadQueue s) (onceComplete s)
    (onloadListeners s) (pendingBase64 s) (timers s) l
    (drawingInProgress s) (mouseDown s) (consoleErrors s) (nextId s).
Definition with_timers (l : list callback) (s : Scene) : Scene :=
  mkScene (children s) (objs s) (particles s) (textures s) (loadQueue s) (onceComplete s)
    (onloadListeners s) (pendingBase64 s) l (lastCreatedList s)
    (drawingInProgress s) (mouseDown s) (consoleErrors s) (nextId s).
Definition with_flags (d m : bool) (s : Scene) : Scene :=
  mkScene (children s) (objs s) (particles s) (textures s) (loadQueue s) (onceComplete s)
    (onloadListeners s) (pendingBase64 s) (timers s) (lastCreatedList s)
    d m (consoleErrors s) (nextId s).
Definition with_consoleErrors (l : list string) (s : Scene) : Scene :=
  mkScene (children s) (objs s) (particles s) (textures s) (loadQueue s) (onceComplete s)
    (onloadListeners s) (pendingBase64 s) (timers s) (lastCreatedList s)
    (drawingInProgress s) (mouseDown s) l (nextId s).
Definition with_nextId (n : nat) (s : Scene) : Scene :=
  mkScene (children s) (objs s) (particles s) (textures s) (loadQueue s) (onceComplete s)
    (onloadListeners s) (pendingBase64 s) (timers s) (lastCreatedList s)
    (drawingInProgress s) (mouseDown s) (consoleErrors s) n.

(** Scene code runs in the state-and-exception monad over the scene. *)
Definition M (A : Type) : Type := ST Scene A.

(** [console.error(msg, ...)]. *)
Definition console_error (msg : string) : M unit :=
  modify (fun s => with_consoleErrors (consoleErrors s ++ [msg]) s).

(** A method call on the object [id]: nothing happens to an object that
    has left the scene. *)
Definition update_entity (id : nat) (f : Entity -> Entity) : M unit :=
  modify (fun s => with_objs (alter f id (objs s)) s).

(** [obj.destroy()]: the object leaves the display list and the scene. *)
Definition destroy_entity (id : nat) : M unit :=
  modify (fun s =>
    with_children (filter (fun i => i ≠ id) (children s))
      (with_objs (delete id (objs s)) s)).

(** Adds a game object to the display list and returns its handle. *)
Definition add_entity (e : Entity) : M nat :=
  fun s =>
    let id := nextId s in
    (Ret id, with_nextId (S id)
               (with_children (children s ++ [id])
                  (with_objs (<[id := e]> (objs s)) s))).

(** [this.add.particles(0, 0, texture, config)]. *)
Definition add_particles (tex : string) : M nat :=
  fun s =>
    let id := nextId s in
    (Ret id, with_nextId (S id)
               (with_particles (<[id := mkEmitter tex true false None]> (particles s)) s)).

Definition particles_startFollow (p target : nat) : M unit :=
  modify (fun s => with_particles
    (alter (fun em => mkEmitter (em_texture em) (em_emitting em) (em_destroyed em) (Some target)) p
       (particles s)) s).

Definition particles_stop (p : nat) : M unit :=
  modify (fun s => with_particles
    (alter (fun em => mkEmitter (em_texture em) false (em_destroyed em) (em_follow em)) p
       (particles s)) s).

Definition particles_destroy (p : nat) : M unit :=
  modify (fun s => with_particles
    (alter (fun em => mkEmitter (em_texture em) (em_emitting em) true (em_follow em)) p
       (particles s)) s).

(** [this.textures.exists(key)]. *)
Definition textures_exists (key : string) : M bool :=
  gets (fun s => bool_decide (key ∈ textures s)).

(** [this.textures.remove(key)]. *)
Definition textures_remove (key : string) : M unit :=
  modify (fun s => with_textures (textures s ∖ {[key]}) s).

(** [this.load.image(key, url)]. *)
Definition load_image (key url : string) : M unit :=
  modify (fun s => with_loadQueue (loadQueue s ++ [(key, url)]) s).

(** [this.load.once('complete', cb)]. *)
Definition load_once_complete (cb : callback) : M unit :=
  modify (fun s => with_onceComplete (onceComplete s ++ [cb]) s).

(** [String(v)], as a template literal converts a value. *)
Fixpoint to_string (v : jsval) : string :=
  match v with
  | JUndefined => "undefined"
  | JNull => "null"
  | JBool true => "true"
  | JBool false => "false"
  | JNum n => pretty n
  | JStr s => s
  | JArr l =>
      (fix join (l : list jsval) : string :=
         match l with
         | [] => ""
         | [x] => if is_nullish x then "" else to_string x
         | x :: l' => (if is_nullish x then "" else to_string x) +:+ "," +:+ join l'
         end) l
  | JObj _ => "[object Object]"
  end.

(** *** What the network answers *)

(** A response of [fetch]: [resp_json] is what [response.json()] gives,
    a [SyntaxError] when the body is not JSON. *)
Record http_response := mkHttp {
  resp_ok : bool;
  resp_status : nat;
  resp_has_body : bool;
  resp_text : string;
  resp_json : outcome jsval
}.

(** One round of the frame polling: the loads that complete while the
    round waits (if the loader finishes then, with the keys that load),
    the answers of the two status requests, and the keys that load when
    the round loads the frames. *)
Record PollRound := mkRound {
  loaderEvent : option (string -> bool);
  errorFetch : outcome http_response;
  framesFetch : outcome http_response;
  frameLoads : string -> bool
}.

(** One drawing: the settings and the pointer, the captured drawing, and
    what the three backends and the polling rounds answer. *)
Record CanvasRun := mkRun {
  imageGenerator : string;
  lastPointerX : Z;
  lastPointerY : Z;
  drawing : string;
  ollamaFetch : outcome http_response;
  analysisFetch : outcome http_response;
  generationFetch : outcome http_response;
  pollRounds : nat -> PollRound
}.

Section WithWorldObject.

(** The [WorldObject] class, its factory and the helpers of the page are
    not part of the stage: the stage is stated over any of them. *)
Variable getZeroWorldObjProp : propbag.
Variable getDefaultWorldObjProp : propbag.
Variable userobject : Z -> Z -> string -> propbag -> Entity.
Variable newWorldObject : Z -> Z -> string -> propbag -> Entity.
Variable updateObject : option string -> option propbag -> Entity -> Entity.
Variable md5 : string -> string.
Variable constructServerUrl : string -> string.

(** *** Property resolution *)

(** The [for (const key in config)] loop of the attribute format: one
    step per key of [config]. *)
Definition mark_attribute (attributes : list jsval) (config : propbag) (key : string) : propbag :=
  if indexOf_found attributes key then <[key := JBool true]> config else config.

Definition extractPropertiesFromGeminiData (rawData : jsval) : outcome propbag :=
  let config := getZeroWorldObjProp in
  if is_nullish rawData then Ret getDefaultWorldObjProp
  else
    try! properties := get_field rawData "properties" in
    if (truthy properties && typeof_object properties)%bool then
      Ret (spread config (own_props properties))
    else
      try! attributes := get_field rawData "attributes" in
      match attributes with
      | JArr l => Ret (foldl (mark_attribute l) config (map fst (map_to_list config)))
      | _ => Ret getDefaultWorldObjProp
      end.

(** *** The three backends, seen from the client *)

Definition analyzeDrawingWithOllama (fetched : outcome http_response) : M jsval :=
  try_catch
    (do! response := lift fetched in
     if negb (resp_ok response) then
       do! errorData := lift (resp_json response) in
       console_error "Ollama analysis error:" ;;
       ret JNull
     else
       do! result := lift (resp_json response) in
       do! success := lift (get_field result "success") in
       if truthy success then
         do! objectType := lift (get_field result "objectType") in
         do! confidence := lift (get_field result "confidence") in
         do! description := lift (get_field result "description") in
         do! properties := lift (get_field result "properties") in
         ret (JObj (<["type" := objectType]> (<["confidence" := confidence]>
                   (<["description" := description]> (<["properties" := properties]> ∅)))))
       else ret JNull)
    (fun error =>
       console_error "Error calling Ollama analysis endpoint:" ;;
       ret JNull).

Definition sendImageDataToServerForAnalysis (fetched : outcome http_response) : M jsval :=
  do! response := lift fetched in
  if negb (resp_ok response) then ret JNull
  else if resp_has_body response then lift (resp_json response)
  else ret JUndefined.

Definition sendToImageGenerationBackend (generatorType : string)
    (fetched : outcome http_response) : M jsval :=
  try_catch
    (do! response := lift fetched in
     if negb (resp_ok response) then
       console_error "Image generation HTTP error:" ;;
       throw (Error ("HTTP " +:+ pretty (resp_status response) +:+ ": " +:+ resp_text response))
     else if String.eqb generatorType "veo" then
       do! result := lift (resp_json response) in
       do! err := lift (get_field result "error") in
       if truthy err then throw (Error (to_string err))
       else lift (get_field result "hash")
     else
       let b64 := resp_text response in
       if Str.startsWith "Error:" b64 then
         console_error "Error in image generation:" ;;
         throw (Error (Str.substring_from 6 b64))
       else if String.eqb b64 "" then throw (Error "Received empty image data")
       else ret (JStr b64))
    (fun error =>
       console_error "Error in image generation:" ;;
       throw error).

(** *** The loader *)

(** The callbacks the stage leaves with the loader, the texture manager
    and the clock. *)
Definition run_callback (cb : callback) : M unit :=
  match cb with
  | CbUpdateObject target key props =>
      update_entity target (updateObject (Some key) (Some props))
  | CbUpdateIfAlive target key =>
      update_entity target (fun e => updateObject (Some key) (prop e) e)
  | CbOnloadUpdate imageKey target props =>
      update_entity target (updateObject (Some imageKey) (Some props))
  | CbPlayAnimation animationKey placeholder original =>
      update_entity placeholder (with_anim (Some animationKey)) ;;
      match original with
      | Some id => modify (fun s => with_timers (timers s ++ [CbRetireOriginal id]) s)
      | None => ret tt
      end
  | CbRetireOriginal original =>
      destroy_entity original
  end.

Fixpoint run_callbacks (cbs : list callback) : M unit :=
  match cbs with
  | [] => ret tt
  | cb :: cbs' => run_callback cb ;; run_callbacks cbs'
  end.

(** The loader works through its queue: a file whose key the texture
    manager already holds is skipped, a file that loads adds its
    texture, a file that fails raises [loaderror]; then [complete] fires
    and its one-shot listeners run.  The result tells whether every file
    loaded. *)
Definition loader_run (loads : string -> bool) : M bool :=
  do! queue := gets loadQueue in
  do! before := gets textures in
  let fresh := filter (fun f => fst f ∉ before) queue in
  let loaded := filter (fun f => loads (fst f) = true) fresh in
  modify (fun s => with_loadQueue []
                     (with_textures (list_to_set (map fst loaded) ∪ textures s) s)) ;;
  do! listeners := gets onceComplete in
  modify (with_onceComplete []) ;;
  run_callbacks listeners ;;
  ret (forallb (fun f => loads (fst f)) fresh).

(** *** Frame polling *)

Definition frameKey (hash : string) (i : nat) : string :=
  "genframe_" +:+ hash +:+ "_" +:+ pretty i.

Definition frameKeys (hash : string) : list string :=
  map (frameKey hash) (seq 0 4).

Definition checkFrameStatus (r : PollRound) : M jsval :=
  try_catch
    (do! errorResponse := lift (errorFetch r) in
     if resp_ok errorResponse then
       do! errorData := lift (resp_json errorResponse) in
       do! err := lift (get_field errorData "error") in
       throw (Error (if truthy err then to_string err else "Failed to generate video"))
     else if negb (Nat.eqb (resp_status errorResponse) 404) then
       throw (Error ("Unexpected error checking status: " +:+ pretty (resp_status errorResponse)))
     else
       do! response := lift (framesFetch r) in
       if negb (resp_ok response) then
         throw (Error ("HTTP error! status: " +:+ pretty (resp_status response)))
       else lift (resp_json response))
    (fun error =>
       console_error "Error checking frame status:" ;;
       throw error).

Definition tryLoadFrames (hash : string) (r : PollRound) : M bool :=
  (fix queue (i n : nat) : M unit :=
     match n with
     | O => ret tt
     | S n' =>
         load_image (frameKey hash i)
           (constructServerUrl ("generated/output_" +:+ hash +:+ "_frame" +:+ pretty i +:+ ".png")) ;;
         queue (S i) n'
     end) 0%nat 4%nat ;;
  loader_run (frameLoads r).

(** [createAndPlayAnimation]: the replacement object is built from the
    first frame and the original's property bag, named, made opaque and
    noted as last created; the animation starts once the frames are
    there, and the original, if there is one, is retired on a timer.
    Positions and sizes are not part of [Entity]; the transfer of the
    physical parameters and of the effects, which happens on that
    timer, is left out, and a failed load of the frames is not told
    apart from a completed one. *)
Definition createAndPlayAnimation (hash : string) (keys : list string)
    (phaserObj : option nat) : M nat :=
  let animationKey := "bounceLoop_" +:+ hash in
  do! original := gets (fun s => match phaserObj with
                                 | Some id => objs s !! id
                                 | None => None
                                 end) in
  let props := match original with
               | Some e => default ∅ (prop e)
               | None => ∅
               end in
  let nm := match original with
            | Some e => if String.eqb (name e) "" then "veoAnim_" +:+ hash else name e
            | None => "veoAnim_" +:+ hash
            end in
  do! placeholder := add_entity
        (setAlpha 1 (with_name nm (newWorldObject 0 0 (default "" (head keys)) props))) in
  modify (fun s => with_lastCreatedList (lastCreatedList s ++ [placeholder]) s) ;;
  do! known := gets textures in
  let unloadedFrames := filter (fun k => k ∉ known) keys in
  let onReady := CbPlayAnimation animationKey placeholder phaserObj in
  match unloadedFrames with
  | [] => run_callback onReady
  | _ =>
      (fix queue (l : list string) : M unit :=
         match l with
         | [] => ret tt
         | frame :: l' =>
             load_image frame
               (constructServerUrl ("generated/output_" +:+ hash +:+ "_frame" +:+ frame +:+ ".png")) ;;
             queue l'
         end) unloadedFrames ;;
      load_once_complete onReady
  end ;;
  ret placeholder.

(** The first loop of [handleVeoFailure]: the frame textures that are
    there are removed, [n] of them left to look at from the [i]-th on. *)
Fixpoint remove_frame_textures (hash : string) (i n : nat) : M unit :=
  match n with
  | O => ret tt
  | S n' =>
      do! present := textures_exists (frameKey hash i) in
      (if present then textures_remove (frameKey hash i) else ret tt) ;;
      remove_frame_textures hash (S i) n'
  end.

(** [if (phaserObj.blinkTween) { phaserObj.blinkTween.stop();
    phaserObj.setAlpha(1); }]. *)
Definition stop_blinking (id : nat) : M unit :=
  do! obj := gets (fun s => objs s !! id) in
  match obj with
  | Some e =>
      if bool_decide (is_Some (tweens e !! "blinkTween")) then
        update_entity id (fun e => setAlpha 1 (stop_tween "blinkTween" e))
      else ret tt
  | None => ret tt
  end.

(** The object takes the static image: at once when its texture is
    there, else once the image, queued now, has loaded. *)
Definition show_static_image (hash : string) (id : nat) : M unit :=
  let staticImageUrl := constructServerUrl ("generated/output_" +:+ hash +:+ ".png") in
  do! present := textures_exists hash in
  if present then
    update_entity id (fun e => updateObject (Some hash) (prop e) e)
  else
    load_image hash staticImageUrl ;;
    load_once_complete (CbUpdateIfAlive id hash).

Definition handleVeoFailure (hash : string) (phaserObj : option nat) : M unit :=
  remove_frame_textures hash 0 4 ;;
  match phaserObj with
  | None => ret tt
  | Some id =>
      stop_blinking id ;;
      show_static_image hash id
  end.

Definition maxRetries : nat := 30.

(** The loads that complete while a round waits for its answers. *)
Definition loader_tick (r : PollRound) : M unit :=
  match loaderEvent r with
  | Some loads => do! _ := loader_run loads in ret tt
  | None => ret tt
  end.

(** The body of the loop, up to the count: [true] when the loop is to
    go on, [false] when the function has returned. *)
Definition poll_round (hash : string) (phaserObj : option nat) (r : PollRound) : M bool :=
  try_catch
    (do! status := checkFrameStatus r in
     do! ready := lift (get_field status "ready") in
     if truthy ready then
       do! success := tryLoadFrames hash r in
       if success then
         do! _ := createAndPlayAnimation hash (frameKeys hash) phaserObj in
         ret false
       else ret true
     else ret true)
    (fun error =>
       console_error "Error during frame check:" ;;
       handleVeoFailure hash phaserObj ;;
       ret false).

(** The [while (retryCount < maxRetries)] loop, [fuel] rounds left. *)
Fixpoint poll_loop (hash : string) (phaserObj : option nat)
    (rounds : nat -> PollRound) (fuel retryCount : nat) : M unit :=
  match fuel with
  | O =>
      console_error "Failed to load animation frames after" ;;
      handleVeoFailure hash phaserObj
  | S fuel' =>
      let r := rounds retryCount in
      loader_tick r ;;
      do! again := poll_round hash phaserObj r in
      if again then poll_loop hash phaserObj rounds fuel' (S retryCount)
      else ret tt
  end.

Definition pollForFramesAndShowAnimation (hash : string) (phaserObj : option nat)
    (rounds : nat -> PollRound) : M unit :=
  try_catch
    (poll_loop hash phaserObj rounds maxRetries 0)
    (fun error =>
       console_error "Unexpected error during animation loading:" ;;
       handleVeoFailure hash phaserObj).

(** *** The drawing pipeline *)

(** [this.textures.on('onload', cb)]. *)
Definition textures_on_onload (cb : callback) : M unit :=
  modify (fun s => with_onloadListeners (onloadListeners s ++ [cb]) s).

(** [this.textures.addBase64(key, data)]: the image decodes later. *)
Definition textures_addBase64 (key data : string) : M unit :=
  modify (fun s => with_pendingBase64 (pendingBase64 s ++ [(key, data)]) s).

Definition waits_for (key : string) (cb : callback) : bool :=
  match cb with
  | CbOnloadUpdate imageKey _ _ => String.eqb imageKey key
  | _ => false
  end.

(** A base64 image has decoded: its texture is there and the [onload]
    listeners that wait for its key run. *)
Definition base64_loaded (key : string) : M unit :=
  modify (fun s => with_pendingBase64 (filter (fun f => fst f ≠ key) (pendingBase64 s))
                     (with_textures ({[key]} ∪ textures s) s)) ;;
  do! listeners := gets onloadListeners in
  run_callbacks (filter (fun cb => waits_for key cb = true) listeners).

Definition createLoadingParticles (generator : string) : M nat :=
  let sparkleTexture :=
    if String.eqb generator "gemini" then "gemini_sparkle"
    else if String.eqb generator "imagen" then "imagen_sparkle"
    else if String.eqb generator "veo" then "imagen_sparkle"
    else "gemini_sparkle" in
  add_particles sparkleTexture.

(** [v.toLowerCase()] on a value read from a response. *)
Definition call_toLowerCase (v : jsval) : outcome string :=
  match v with
  | JStr s => Ret (Str.toLowerCase s)
  | JUndefined => Throw (TypeError "Cannot read properties of undefined (reading 'toLowerCase')")
  | JNull => Throw (TypeError "Cannot read properties of null (reading 'toLowerCase')")
  | _ => Throw (TypeError "toLowerCase is not a function")
  end.

(** The removal both moderation checks perform. *)
Definition remove_drawing (loadingParticles phaserObj : nat) : M unit :=
  particles_stop loadingParticles ;;
  particles_destroy loadingParticles ;;
  destroy_entity phaserObj ;;
  modify (with_flags false false).

(** The [catch] block of [processCanvas]. *)
Definition processCanvas_catch (loadingParticles phaserObj : nat) (error : exn) : M unit :=
  console_error "Error in processCanvas:" ;;
  particles_stop loadingParticles ;;
  particles_destroy loadingParticles ;;
  update_entity phaserObj (fun e =>
    if bool_decide (is_Some (tweens e !! "blinkTween"))
    then setAlpha 1 (stop_tween "blinkTween" e) else e) ;;
  update_entity phaserObj (stop_live_emitter "fire") ;;
  update_entity phaserObj (stop_live_emitter "flare") ;;
  update_entity phaserObj (stop_live_emitter "explosion") ;;
  update_entity phaserObj (stop_live_emitter "drips") ;;
  update_entity phaserObj (stop_live_emitter "steam") ;;
  update_entity phaserObj (fun e =>
    if bool_decide (is_Some (tweens e !! "tween")) then stop_tween "tween" e else e) ;;
  destroy_entity phaserObj ;;
  modify (with_flags false false).

(** The [veo] branch: static image first, blinking, then the polling. *)
Definition show_veo (run : CanvasRun) (phaserObj : nat) (generatedImageData : jsval)
    (additionalProperties : propbag) : M unit :=
  let hash := to_string generatedImageData in
  let staticImageUrl := constructServerUrl ("generated/output_" +:+ hash +:+ ".png") in
  load_image hash staticImageUrl ;;
  load_once_complete (CbUpdateObject phaserObj hash additionalProperties) ;;
  update_entity phaserObj (fun e => with_tweens (<["blinkTween" := true]> (tweens e)) e) ;;
  do! veoParticles := add_particles "veo_sparkle" in
  particles_startFollow veoParticles phaserObj ;;
  pollForFramesAndShowAnimation hash (Some phaserObj) (pollRounds run) ;;
  particles_stop veoParticles ;;
  particles_destroy veoParticles ;;
  update_entity phaserObj (fun e =>
    if bool_decide (is_Some (tweens e !! "blinkTween"))
    then setAlpha 1 (stop_tween "blinkTween" e) else e).

(** The branch of the static generators. *)
Definition show_static (phaserObj : nat) (generatedImageData : jsval)
    (finalProperties : propbag) : M unit :=
  let imageKey := md5 (to_string generatedImageData) in
  do! present := textures_exists imageKey in
  if present then
    update_entity phaserObj (updateObject (Some imageKey) (Some finalProperties))
  else
    update_entity phaserObj (updateObject None (Some finalProperties)) ;;
    textures_on_onload (CbOnloadUpdate imageKey phaserObj finalProperties) ;;
    textures_addBase64 imageKey ("data:image/png;base64," +:+ to_string generatedImageData).

(** The properties the finished object gets: the defaults, overlaid with
    the extracted ones, marked as drawn by the user. *)
Definition merge_final (additionalProperties : propbag) : propbag :=
  <["user_generated_obj" := JBool true]> (spread getDefaultWorldObjProp additionalProperties).

(** The head of [processCanvas]: the placeholder, created from the
    default properties made non-solid and [generating], and the loading
    particles that follow it.  Gives the two handles. *)
Definition place_drawing (run : CanvasRun) : M (nat * nat) :=
  let initialProperties :=
    <["generating" := JBool true]> (<["solid" := JBool false]> getDefaultWorldObjProp) in
  do! phaserObj := add_entity
        (userobject (lastPointerX run) (lastPointerY run) (drawing run) initialProperties) in
  do! loadingParticles := createLoadingParticles (imageGenerator run) in
  particles_startFollow loadingParticles phaserObj ;;
  ret (phaserObj, loadingParticles).

(** The two classification backends, the second when the first gives
    nothing. *)
Definition classify (run : CanvasRun) : M jsval :=
  do! first := analyzeDrawingWithOllama (ollamaFetch run) in
  if negb (truthy first) then sendImageDataToServerForAnalysis (analysisFetch run)
  else ret first.

(** From the resolved properties to the finished object. *)
Definition generate_from (run : CanvasRun) (loadingParticles phaserObj : nat)
    (additionalProperties : propbag) : M unit :=
  let generatorType := imageGenerator run in
  let finalProperties := merge_final additionalProperties in
  do! generatedImageData :=
    sendToImageGenerationBackend generatorType (generationFetch run) in
  do! rejected :=
    (match generatedImageData with
     | JNull => ret false
     | _ => do! flag := lift (get_field generatedImageData "shouldRemove") in
            ret (truthy flag)
     end) in
  if rejected then remove_drawing loadingParticles phaserObj
  else
    particles_stop loadingParticles ;;
    particles_destroy loadingParticles ;;
    if String.eqb generatorType "veo"
    then show_veo run phaserObj generatedImageData additionalProperties
    else show_static phaserObj generatedImageData finalProperties.

(** From the classified response to the finished object: the name, the
    properties, then the generation. *)
Definition generate_and_show (run : CanvasRun) (loadingParticles phaserObj : nat)
    (geminiResponse : jsval) : M unit :=
  do! type := lift (get_field geminiResponse "type") in
  do! lowered := lift (call_toLowerCase type) in
  update_entity phaserObj (with_name (Str.toLowerCase lowered)) ;;
  do! additionalProperties := lift (extractPropertiesFromGeminiData geminiResponse) in
  generate_from run loadingParticles phaserObj additionalProperties.

(** The [try] block of [processCanvas]. *)
Definition processCanvas_try (run : CanvasRun) (loadingParticles phaserObj : nat) : M unit :=
  do! analysisResponse := classify run in
  let geminiResponse := analysisResponse in
  if negb (truthy geminiResponse) then throw (Error "No response from server")
  else
    do! shouldRemove := lift (get_field geminiResponse "shouldRemove") in
    if truthy shouldRemove then remove_drawing loadingParticles phaserObj
    else generate_and_show run loadingParticles phaserObj geminiResponse.

Definition processCanvas (run : CanvasRun) : M unit :=
  do! handles := place_drawing run in
  let phaserObj := fst handles in
  let loadingParticles := snd handles in
  try_catch
    (processCanvas_try run loadingParticles phaserObj)
    (processCanvas_catch loadingParticles phaserObj).

(** *** The command surface *)

Section Methods.

(** Methods of [WorldObject] the rules call. *)
Variable canSetFire : Entity -> bool.
Variable addFire : jsval -> Entity -> Entity.
Variable clearEffects : Entity -> Entity.
Variable addWet : Entity -> Entity.
Variable createMagneticForce : Entity -> Entity.
Variable updateMagneticField : Entity -> Entity.

(** A method or an assignment on the object [id] of a store of objects. *)
Definition on_object {S} (get : S -> gmap nat Entity) (set : gmap nat Entity -> S -> S)
    (id : nat) (f : Entity -> outcome Entity) : ST S unit :=
  do! obj := gets (fun s => get s !! id) in
  match obj with
  | Some e => do! e' := lift (f e) in modify (fun s => set (<[id := e']> (get s)) s)
  | None => throw (TypeError "Cannot read properties of undefined")
  end.

Definition on_scene_object (id : nat) (f : Entity -> outcome Entity) : M unit :=
  on_object objs with_objs id f.

(** [matches(object.prop, filter)] for the filter [{ [key]: true }]. *)
Definition matches_filter (key : string) (e : Entity) : outcome bool :=
  match prop e with
  | Some p => Ret (match p !! key with
                   | Some (JBool true) => true
                   | _ => false
                   end)
  | None => Throw (TypeError "Cannot read properties of undefined (reading 'hasOwnProperty')")
  end.

(** The world objects of the display list, in its order. *)
Definition world_objects (s : Scene) : list (nat * Entity) :=
  omap (fun id => match objs s !! id with
                  | Some e => if instanceof_WorldObject (kind e) then Some (id, e) else None
                  | None => None
                  end) (children s).

(** [getWorldObjectList(filter)], [None] for no filter. *)
Fixpoint filter_matching (key : string) (l : list (nat * Entity)) : outcome (list nat) :=
  match l with
  | [] => Ret []
  | (id, e) :: l' =>
      try! hit := matches_filter key e in
      try! rest := filter_matching key l' in
      Ret (if hit then id :: rest else rest)
  end.

Definition getWorldObjectList (filter : option string) : M (list nat) :=
  do! all := gets world_objects in
  match filter with
  | None => ret (map fst all)
  | Some key => lift (filter_matching key all)
  end.

(** [getLastCreatedObject()]: the last world object of the display list
    marked as drawn by the user. *)
Fixpoint last_user_object (l : list (nat * Entity)) (last : option nat) : outcome (option nat) :=
  match l with
  | [] => Ret last
  | (id, e) :: l' =>
      match prop e with
      | Some p =>
          last_user_object l'
            (if truthy (default JUndefined (p !! "user_generated_obj")) then Some id else last)
      | None => Throw (TypeError "Cannot read properties of undefined (reading 'user_generated_obj')")
      end
  end.

Definition getLastCreatedObject : M (option nat) :=
  do! all := gets world_objects in
  lift (last_user_object all None).

(** The targets a command names. [None]: the command returns at once. *)
Definition resolve_targets (target : string) : M (option (list nat)) :=
  if String.eqb target "" then ret None
  else if String.eqb target "all" then
    do! l := getWorldObjectList None in ret (Some l)
  else if (String.eqb target "last_created" || String.eqb target "last_object")%bool then
    do! last := getLastCreatedObject in
    match last with
    | Some _ => do! again := getLastCreatedObject in
                ret (Some (match again with Some id => [id] | None => [] end))
    | None => ret (Some [])
    end
  else
    do! all := gets world_objects in
    let byName := map fst (filter (fun o =>
                    String.eqb (Str.toLowerCase (name (snd o))) (Str.toLowerCase target) = true) all) in
    do! byProp := getWorldObjectList (Some target) in
    ret (Some (byName ++ byProp)).

(** The body of the [electrify] loop. *)
Definition electrify (e : Entity) : outcome Entity :=
  if prop_truthy e "rusted" then
    try! e1 := assign_prop "rusted" (JBool false) e in
    Ret (if instanceof_RustedKey (kind e1) then setTexture "key" e1 else e1)
  else Ret e.

(** The bodies of the other loops. *)
Definition destroy_target (lifeValue : Z) (e : Entity) : outcome Entity :=
  try! e1 := assign_prop "explodes" (JBool true) (addFire (JBool true) (clearEffects e)) in
  Ret (with_life lifeValue e1).

Definition magnetize (e : Entity) : outcome Entity :=
  try! e1 := assign_prop "metal" (JBool true) e in
  try! e2 := assign_prop "magnetic" (JBool true) e1 in
  Ret (updateMagneticField (createMagneticForce e2)).

(** [processCommand]: [between] is what [Phaser.Math.Between(100, 300)]
    gives at each call. *)
Definition processCommand (verb0 target0 : string) (between : nat -> Z) : M unit :=
  let verb := Str.toLowerCase verb0 in
  let target := Str.toLowerCase target0 in
  do! resolved := resolve_targets target in
  match resolved with
  | None => ret tt
  | Some targets =>
      if String.eqb verb "destroy" then
        for_each targets (fun id => on_scene_object id (destroy_target 0))
      else if String.eqb verb "setfire" then
        for_each (imap (fun i id => (i, id)) targets)
          (fun t => on_scene_object (snd t) (destroy_target (between (fst t))))
      else if String.eqb verb "douse" then
        for_each targets (fun id => on_scene_object id (fun e => Ret (addWet e)))
      else if String.eqb verb "magnetize" then
        for_each targets (fun id => on_scene_object id magnetize)
      else if String.eqb verb "electrify" then
        for_each targets (fun id => on_scene_object id electrify)
      else ret tt
  end.

(** *** The collision rules *)

(** A physics body and the game object it belongs to, if any. *)
Record Body := mkBody { body_id : nat; gameObject : option nat }.

(** The objects in contact, and the water: the bodies it keeps afloat
    and the splashes it made, each with the friction it set. *)
Record World := mkWorld {
  w_objs : gmap nat Entity;
  floating : gset nat;
  splashes : list (nat * Q)
}.

Definition with_w_objs (o : gmap nat Entity) (w : World) : World :=
  mkWorld o (floating w) (splashes w).

(** Modelled from the spec: the [Water] class is not among the sources.
    Its specification is "a fluid volume applies splash/float effects to
    bodies entering/exiting its sensor region": [createSplash] makes a
    splash on the body with the friction given, [addFloating] and
    [removeFloating] give and take the floating status of a body. *)
Definition createSplash (body : Body) (friction : Q) : ST World unit :=
  modify (fun w => mkWorld (w_objs w) (floating w) (splashes w ++ [(body_id body, friction)])).

(** Modelled from the spec: see [createSplash]. *)
Definition addFloating (body : Body) : ST World unit :=
  modify (fun w => mkWorld (w_objs w) ({[body_id body]} ∪ floating w) (splashes w)).

(** Modelled from the spec: see [createSplash]. *)
Definition removeFloating (body : Body) : ST World unit :=
  modify (fun w => mkWorld (w_objs w) (floating w ∖ {[body_id body]}) (splashes w)).

Definition on_world_object (id : nat) (f : Entity -> outcome Entity) : ST World unit :=
  on_object w_objs with_w_objs id f.

(** [obj.prop?.k] on the object [id]. *)
Definition object_prop_truthy (id : nat) (k : string) : ST World bool :=
  gets (fun w => match w_objs w !! id with
                 | Some e => prop_truthy e k
                 | None => false
                 end).

(** [body.gameObject?.addWet()]. *)
Definition wet_game_object (body : Body) : ST World unit :=
  match gameObject body with
  | Some id => modify (fun w => with_w_objs (alter addWet id (w_objs w)) w)
  | None => ret tt
  end.

(** [registerCollision(water)], the [collisionstart] listener: one pair. *)
Definition collisionstart_pair (sensor : nat) (frictionWater : Q)
    (pair : Body * Body) : ST World unit :=
  let bodyA := fst pair in
  let bodyB := snd pair in
  (if Nat.eqb (body_id bodyA) sensor then
     createSplash bodyB frictionWater ;; addFloating bodyB ;; wet_game_object bodyB
   else ret tt) ;;
  (if Nat.eqb (body_id bodyB) sensor then
     createSplash bodyA frictionWater ;; addFloating bodyA ;; wet_game_object bodyA
   else ret tt) ;;
  match gameObject bodyA, gameObject bodyB with
  | Some gameObjectA, Some gameObjectB =>
      do! heavyA := object_prop_truthy gameObjectA "heavy" in
      (if heavyA then
         removeFloating bodyB ;;
         on_world_object gameObjectB (assign_prop "floats" (JBool false))
       else ret tt) ;;
      do! heavyB := object_prop_truthy gameObjectB "heavy" in
      (if heavyB then
         removeFloating bodyA ;;
         on_world_object gameObjectA (assign_prop "floats" (JBool false))
       else ret tt)
  | _, _ => ret tt
  end.

Definition collisionstart (sensor : nat) (frictionWater : Q)
    (pairs : list (Body * Body)) : ST World unit :=
  for_each pairs (collisionstart_pair sensor frictionWater).

(** The [collisionend] listener: one pair. *)
Definition collisionend_pair (sensor : nat) (frictionAir : Q)
    (pair : Body * Body) : ST World unit :=
  let bodyA := fst pair in
  let bodyB := snd pair in
  (if Nat.eqb (body_id bodyA) sensor then
     createSplash bodyB frictionAir ;; removeFloating bodyB
   else ret tt) ;;
  (if Nat.eqb (body_id bodyB) sensor then
     createSplash bodyA frictionAir ;; removeFloating bodyA
   else ret tt).

Definition collisionend (sensor : nat) (frictionAir : Q)
    (pairs : list (Body * Body)) : ST World unit :=
  for_each pairs (collisionend_pair sensor frictionAir).

(** The ignition block of [registerCollisionActive]: [source] may set
    [target] alight. *)
Definition ignite (source target : nat) : ST World unit :=
  do! src := gets (fun w => w_objs w !! source) in
  match src with
  | Some s =>
      if canSetFire s then
        do! wooden := object_prop_truthy target "wooden" in
        do! ice := object_prop_truthy target "ice" in
        if (wooden || ice)%bool then
          modify (fun w => with_w_objs (alter (addFire JUndefined) target (w_objs w)) w)
        else ret tt
      else ret tt
  | None => ret tt
  end.

(** What the conduction block does to the rusted object. *)
Definition derust (e : Entity) : outcome Entity :=
  try! e1 := assign_prop "rusted" (JBool false) e in
  Ret (setTexture "key" e1).

(** The conduction block: [source] is the lightning, [target] the rust. *)
Definition conduct (source target : nat) : ST World unit :=
  do! lightning := object_prop_truthy source "lightning" in
  if lightning then
    do! rusted := object_prop_truthy target "rusted" in
    if rusted then on_world_object target derust else ret tt
  else ret tt.

(** [registerCollisionActive], the [collisionactive] listener: one pair. *)
Definition collisionactive_pair (pair : Body * Body) : ST World unit :=
  match gameObject (fst pair), gameObject (snd pair) with
  | Some gameObjectA, Some gameObjectB =>
      ignite gameObjectA gameObjectB ;;
      conduct gameObjectA gameObjectB ;;
      ignite gameObjectB gameObjectA ;;
      conduct gameObjectB gameObjectA
  | _, _ => ret tt
  end.

Definition collisionactive (pairs : list (Body * Body)) : ST World unit :=
  for_each pairs collisionactive_pair.

End Methods.

End WithWorldObject.

(** A one-shot listener of the loader's [complete] event that updates
    an object, as both listeners [processCanvas] and the polling leave
    there do. *)
Definition is_update (cb : callback) : Prop :=
  match cb with
  | CbUpdateObject _ _ _ | CbUpdateIfAlive _ _ => True
  | _ => False
  end.

(** A polling round that does not report the frames ready: whenever its
    status check returns a status, the [ready] field of that status is
    not truthy. *)
Definition not_ready (r : PollRound) : Prop :=
  forall s status s', checkFrameStatus r s = (Ret status, s') ->
    forall v, get_field status "ready" = Ret v -> truthy v = false.

(** What the fallback of the polling leaves of the object [e0]: fully
    opaque, the blinking stopped, and as animated as it was. *)
Definition settled (e0 e : Entity) : Prop :=
  alpha e = 1%Q /\ tweens e !! "blinkTween" = Some false /\ anim e = anim e0.

(** What the conduction rule reads and writes of the object [id]. *)
Definition rusted_of (w : World) (id : nat) : bool :=
  match w_objs w !! id with
  | Some e => prop_truthy e "rusted"
  | None => false
  end.

Definition lightning_of (w : World) (id : nat) : bool :=
  match w_objs w !! id with
  | Some e => prop_truthy e "lightning"
  | None => false
  end.

Definition texture_of (w : World) (id : nat) : option (option string) :=
  texture <$> w_objs w !! id.

(** Two states of the world that the conduction rule cannot tell
    apart. *)
Definition same_view (w w' : World) : Prop :=
  forall id, rusted_of w' id = rusted_of w id
             /\ lightning_of w' id = lightning_of w id
             /\ texture_of w' id = texture_of w id.

(** ** What the proofs track *)

(** Code that leaves the view of the conduction rule as it is, whether
    it returns or throws. *)
Definition keeps_view {A} (m : ST World A) : Prop := forall w, same_view w (snd (m w)).

(** What [remove_drawing] and the [catch] block leave behind. *)
Definition cleaned_up (loadingParticles phaserObj : nat) (before after : Scene) : Prop :=
  particles after
    = alter (fun em => mkEmitter (em_texture em) false true (em_follow em)) loadingParticles
        (particles before)
  /\ objs after = delete phaserObj (objs before)
  /\ children after = filter (fun i => i ≠ phaserObj) (children before)
  /\ drawingInProgress after = false /\ mouseDown after = false.

(** What the polling keeps of the object while it waits. *)
Definition waiting (id : nat) (e0 : Entity) (kids : list nat) (s : Scene) : Prop :=
  (exists e, objs s !! id = Some e /\ is_Some (tweens e !! "blinkTween") /\ anim e = anim e0)
  /\ Forall is_update (onceComplete s)
  /\ children s = kids.

(** What a chain of updates does to the object. *)
Definition gentle (hash : string) (id : nat) (cbs : list callback)
    (f : gmap nat Entity -> gmap nat Entity) : Prop :=
  forall m e, m !! id = Some e ->
    exists e', f m !! id = Some e'
          /\ alpha e' = alpha e /\ tweens e' = tweens e /\ anim e' = anim e
          /\ (cbs = [] -> e' = e)
          /\ (forall pre, cbs = pre ++ [CbUpdateIfAlive id hash] -> texture e' = Some hash).

(** Where the fallback of the polling leaves the scene: no frame texture
    is left, no object was added, and the object is settled and shows
    the static image, at once or as soon as the image, which is queued
    with its listener last in line, has loaded. *)
Definition fallen_back (updateObject : option string -> option propbag -> Entity -> Entity)
    (constructServerUrl : string -> string) (hash : string) (id : nat)
    (e0 : Entity) (kids : list nat) (after : Scene) : Prop :=
  (forall i, (i < 4)%nat -> frameKey hash i ∉ textures after)
  /\ children after = kids
  /\ exists e, objs after !! id = Some e
         /\ settled e0 e
         /\ (texture e = Some hash
            \/ ((hash ∉ textures after)
               /\ (exists q, loadQueue after
                       = q ++ [(hash, constructServerUrl ("generated/output_" +:+ hash +:+ ".png"))])
               /\ (exists cbs, onceComplete after = cbs ++ [CbUpdateIfAlive id hash]
                         /\ Forall is_update cbs)
               /\ forall loads, exists e',
                   objs (snd (loader_run updateObject loads after)) !! id = Some e'
                   /\ settled e0 e' /\ texture e' = Some hash)).

End Stage.

(** ** A concrete world object

    An instance of what the stage is stated over, for the examples. *)

Module Sample.

Import Stage.

(** Modelled from the spec: [WorldObject.getZeroWorldObjProp] is not
    among the sources.  The traits are those of the README's table of
    object properties, all false ("a zero baseline (all traits false)"). *)
Definition zeroProp : propbag :=
  list_to_map (map (fun k => (k, JBool false))
    ["walks"; "drives"; "flies"; "hovers"; "propelled";
     "falls"; "floats"; "heavy"; "solid"; "drips"; "douses";
     "burns"; "explodes"; "blows"; "lightning"; "heal";
     "wooden"; "metal"; "ice"; "magnetic";
     "user_generated_obj"; "generating"]).

(** Modelled from the spec: [WorldObject.getDefaultWorldObjProp] is not
    among the sources.  The same traits, a solid object that falls. *)
Definition defaultProp : propbag :=
  <["solid" := JBool true]> (<["falls" := JBool true]> zeroProp).

(** Modelled from the spec: the factory behind [this.add.userobject] is
    not among the sources: "a transient placeholder entity" carrying the
    properties given, opaque, with no effect attached. *)
Definition userobject (x y : Z) (image : string) (props : propbag) : Entity :=
  mkEntity PlainWorldObject "" (Some props) None 1 0 ∅ ∅ None.

(** Modelled from the spec: [WorldObject.updateObject] is not among the
    sources: it "attaches the final asset and the resolved Property Set
    to the entity". *)
Definition updateObject (key : option string) (props : option propbag) (e : Entity) : Entity :=
  with_prop props (match key with
                   | Some k => with_texture (Some k) e
                   | None => e
                   end).

Definition md5 (s : string) : string := "md5:" +:+ s.

Definition constructServerUrl (path : string) : string := "http://localhost:3000/" +:+ path.

(** Modelled from the spec: [WorldObject.canSetFire] is not among the
    sources: an object sets things alight when it is "actively burning
    or a lightning source". *)
Definition canSetFire (e : Entity) : bool :=
  (bool_decide (is_Some (emitters e !! "fire")) || prop_truthy e "lightning")%bool.

(** Modelled from the spec: [WorldObject.addFire] is not among the
    sources: it "begins the burn effect" of the object. *)
Definition addFire (force : jsval) (e : Entity) : Entity :=
  with_emitters (<["fire" := mkEmitter "fire" true false None]> (emitters e)) e.

Definition clearEffects (e : Entity) : Entity := with_emitters ∅ e.

Definition addWet (e : Entity) : Entity :=
  with_emitters (<["drips" := mkEmitter "droplet" true false None]> (emitters e)) e.

Definition createMagneticForce (e : Entity) : Entity := e.

Definition updateMagneticField (e : Entity) : Entity := e.

(** The scene before anything is drawn. *)
Definition emptyScene : Scene :=
  mkScene [] ∅ ∅ ∅ [] [] [] [] [] [] true true [] 0.

(** A successful answer carrying [body], read as [parsed]. *)
Definition ok_response (body : string) (parsed : outcome jsval) : http_response :=
  mkHttp true 200 true body parsed.

(** An answer with a status that is not a success. *)
Definition failed_response (status : nat) : http_response :=
  mkHttp false status true "{}" (Ret (JObj ∅)).

(** The double quote, for the bodies of responses. *)
Definition dq : string := String (Ascii.ascii_of_nat 34) EmptyString.

(** What the run needs of the world object, in one place. *)
Definition processCanvas : CanvasRun -> M unit :=
  Stage.processCanvas zeroProp defaultProp userobject userobject updateObject md5
    constructServerUrl.

(** No polling round ever finds the frames. *)
Definition never_ready (i : nat) : PollRound :=
  mkRound None (Ret (failed_response 404))
    (Ret (ok_response "{}" (Ret (JObj (<["ready" := JBool false]>
                                      (<["progress" := JNum 0]> (<["total" := JNum 4]> ∅)))))))
    (fun _ => false).

(** The first backend recognises a cat, in the property-map format. *)
Definition cat_recognised : outcome http_response :=
  Ret (ok_response "{}"
         (Ret (JObj (<["success" := JBool true]> (<["objectType" := JStr "cat"]>
                    (<["confidence" := JNum 1]> (<["description" := JStr "a cat"]>
                    (<["properties" := JObj (<["solid" := JBool true]> ∅)]> ∅)))))))).

(** The body [/generateImage] answers with when it finds the prompt
    inappropriate: [config.getSafetySettingsResponse()] as JSON. *)
Definition blocked_text : string :=
  "{" +:+ dq +:+ "type" +:+ dq +:+ ":" +:+ dq +:+ "__BLOCKED__" +:+ dq +:+ ","
  +:+ dq +:+ "attributes" +:+ dq +:+ ":[],"
  +:+ dq +:+ "shouldRemove" +:+ dq +:+ ":true}".

Definition blocked_json : jsval :=
  JObj (<["type" := JStr "__BLOCKED__"]> (<["attributes" := JArr []]>
       (<["shouldRemove" := JBool true]> ∅))).

Definition blocked_response : outcome http_response :=
  Ret (ok_response blocked_text (Ret blocked_json)).

(** A drawing whose generation the backend rejects, per generator. *)
Definition rejected_run (generator : string) : CanvasRun :=
  mkRun generator 100 100 "drawing" cat_recognised (Ret (failed_response 500))
    blocked_response never_ready.

(** A drawing no classification backend answers. *)
Definition unclassified_run : CanvasRun :=
  mkRun "imagen" 100 100 "drawing" (Ret (failed_response 503)) (Ret (failed_response 500))
    (Ret (failed_response 500)) never_ready.

End Sample.

(** ** More string operations *)

Module Text.

(** [s.includes(sub)]. *)
Fixpoint includes (sub s : string) : bool :=
  (Str.startsWith sub s
   || match s with
      | EmptyString => false
      | String _ s' => includes sub s'
      end)%bool.

(** A capital letter of the ASCII range. *)
Definition is_upper (c : ascii) : bool :=
  let n := Ascii.nat_of_ascii c in (Nat.leb 65 n && Nat.leb n 90)%bool.

Fixpoint has_upper (s : string) : bool :=
  match s with
  | EmptyString => false
  | String c s' => (is_upper c || has_upper s')%bool
  end.

(** The line feed. *)
Definition nl : string := String (Ascii.ascii_of_nat 10) EmptyString.

(** [`${error}`] for a caught error: its name and its message. *)
Definition error_text (e : exn) : string :=
  let show name msg := if String.eqb msg "" then name else name +:+ ": " +:+ msg in
  match e with
  | TypeError msg => show "TypeError" msg
  | SyntaxError msg => show "SyntaxError" msg
  | Error msg => show "Error" msg
  end.

(** [l.join(sep)] on strings. *)
Fixpoint join_with (sep : string) (l : list string) : string :=
  match l with
  | [] => ""
  | [x] => x
  | x :: l' => x +:+ sep +:+ join_with sep l'
  end.

End Text.

(** ** Server: the image cache (cache-manager.ts) *)

Module Cache.

(** What a cache operation hands back as [data]. *)
Inductive CacheData :=
| Image (base64 : string)
| FrameList (frames : list string).

Record CacheResult := mkCacheResult {
  success : bool;
  data : option CacheData;
  error : option string
}.

Definition failed (msg : string) : CacheResult := mkCacheResult false None (Some msg).

(** [`${variation}`]: the parameter is a number, and [undefined] when
    the caller read it past the end of an array. *)
Definition variation_text (variation : option nat) : string :=
  match variation with
  | Some i => pretty i
  | None => "undefined"
  end.

Definition getCacheKey (objectType visualStyle : string) (variation : option nat)
    (generationType : string) : string :=
  let normalizedObjectType := Str.toLowerCase objectType in
  let normalizedVisualStyle := Str.toLowerCase visualStyle in
  generationType +:+ "_" +:+ normalizedObjectType +:+ "_" +:+ normalizedVisualStyle
    +:+ "_" +:+ variation_text variation.

Definition frame_name (i : nat) : string := "frame" +:+ pretty i +:+ ".png".

(** [Math.floor(rnd * n)] for the value [rnd] of [Math.random()]. *)
Definition floor_mul (rnd : Q) (n : nat) : nat :=
  Z.to_nat (Qfloor (rnd * inject_Z (Z.of_nat n))).

Section Manager.

(** Node's [path.join], [process.cwd()], the file system ([fs]) and the
    base64 conversions of [Buffer] are not the repository's: the cache is
    stated over any of them.  A file system is a state [FS]; a read or a
    write may throw. *)
Variable join : list string -> string.
Variable cwd : string.
Variable FS : Type.
Variable existsSync : string -> FS -> bool.
Variable readFileSync : string -> FS -> outcome string.
Variable writeFileSync : string -> string -> ST FS unit.
Variable mkdirSync : string -> ST FS unit.
Variable fromBase64 : string -> string.
Variable toBase64 : string -> string.

(** [config.getCacheConfig()]: the pool size is a count, as its default
    (4) is. *)
Variable enabled : bool.
Variable poolSize : nat.

Definition getCachePath (cacheDir cacheKey : string) : string :=
  join [cacheDir; cacheKey +:+ ".png"].

Definition getFramesCachePath (framesCacheDir objectType visualStyle : string) : string :=
  let normalizedObjectType := Str.toLowerCase objectType in
  let normalizedVisualStyle := Str.toLowerCase visualStyle in
  join [framesCacheDir; normalizedObjectType +:+ "_" +:+ normalizedVisualStyle].

(** [cacheManager.paths]. *)
Definition cacheDir : string := join [cwd; "generated"; "cache"].
Definition framesCacheDir : string := join [cwd; "generated"; "cache"; "frames"].

Definition read (path : string) : ST FS string :=
  fun fs => (readFileSync path fs, fs).

Definition initializeCache : ST FS unit :=
  for_each [cacheDir; framesCacheDir] (fun dir =>
    do! there := gets (existsSync dir) in
    if negb there then mkdirSync dir else ret tt).

Definition initialize : ST FS unit :=
  if negb enabled then ret tt else initializeCache.

(** The path of the [i]-th image of a pool. *)
Definition variation_path (objectType visualStyle generationType : string)
    (variation : option nat) : string :=
  getCachePath cacheDir (getCacheKey objectType visualStyle variation generationType).

(** The loop both image operations open with: the variations below the
    pool size whose file is there, in increasing order. *)
Definition variations (objectType visualStyle generationType : string) (fs : FS) : list nat :=
  filter (fun i => existsSync (variation_path objectType visualStyle generationType (Some i)) fs = true)
    (seq 0 poolSize).

(** [getCachedImage]; [generationType] is ["local"] when the caller
    leaves it out. *)
Definition getCachedImage (rnd : Q) (objectType visualStyle generationType : string)
    : ST FS CacheResult :=
  if negb enabled then ret (failed "Cache is disabled")
  else
    try_catch
      (do! availableVariations := gets (variations objectType visualStyle generationType) in
       if Nat.eqb (length availableVariations) poolSize then
         let randomIndex := floor_mul rnd (length availableVariations) in
         let selectedVariation := availableVariations !! randomIndex in
         let cachePath := variation_path objectType visualStyle generationType selectedVariation in
         do! imageBuffer := read cachePath in
         ret (mkCacheResult true (Some (Image (toBase64 imageBuffer))) None)
       else ret (failed "No cached images found"))
      (fun error => ret (failed ("Error getting cached image: " +:+ Text.error_text error))).

(** The [while (variation < poolSize)] loop of [cacheImage], [fuel]
    iterations left. *)
Fixpoint next_variation (existingVariations : list nat) (fuel variation : nat) : nat :=
  match fuel with
  | O => variation
  | S fuel' =>
      if negb (bool_decide (variation ∈ existingVariations)) then variation
      else next_variation existingVariations fuel' (S variation)
  end.

Definition cacheImage (rnd : Q) (objectType visualStyle base64Image generationType : string)
    : ST FS CacheResult :=
  if negb enabled then ret (failed "Cache is disabled")
  else
    try_catch
      (do! existingVariations := gets (variations objectType visualStyle generationType) in
       let variation := next_variation existingVariations poolSize 0 in
       let variation := if Nat.leb poolSize variation then floor_mul rnd poolSize else variation in
       let cachePath := variation_path objectType visualStyle generationType (Some variation) in
       writeFileSync cachePath (fromBase64 base64Image) ;;
       ret (mkCacheResult true None None))
      (fun error => ret (failed ("Error caching image: " +:+ Text.error_text error))).

(** The loop of [getCachedFrames], [n] frames left to read from the
    [i]-th on. *)
Fixpoint read_frames (framesDir : string) (n i : nat) (frames : list string)
    : ST FS CacheResult :=
  match n with
  | O => ret (mkCacheResult true (Some (FrameList frames)) None)
  | S n' =>
      let framePath := join [framesDir; frame_name i] in
      do! there := gets (existsSync framePath) in
      if negb there then ret (failed ("Missing frame " +:+ pretty i))
      else
        do! frameBuffer := read framePath in
        read_frames framesDir n' (S i) (frames ++ [toBase64 frameBuffer])
  end.

Definition getCachedFrames (objectType visualStyle : string) : ST FS CacheResult :=
  if negb enabled then ret (failed "Cache is disabled")
  else
    try_catch
      (let framesDir := getFramesCachePath framesCacheDir objectType visualStyle in
       do! there := gets (existsSync framesDir) in
       if negb there then ret (failed "No cached frames found")
       else read_frames framesDir 4 0 [])
      (fun error => ret (failed ("Error reading cached frames: " +:+ Text.error_text error))).

(** The loop of [cacheFrames]: the frames left, the first of them the
    [i]-th. *)
Fixpoint write_frames (framesDir : string) (frames : list string) (i : nat) : ST FS unit :=
  match frames with
  | [] => ret tt
  | frame :: frames' =>
      let framePath := join [framesDir; frame_name i] in
      writeFileSync framePath (fromBase64 frame) ;;
      write_frames framesDir frames' (S i)
  end.

Definition cacheFrames (objectType visualStyle : string) (frames : list string)
    : ST FS CacheResult :=
  if negb enabled then ret (failed "Cache is disabled")
  else
    try_catch
      (let framesDir := getFramesCachePath framesCacheDir objectType visualStyle in
       do! there := gets (existsSync framesDir) in
       (if negb there then mkdirSync framesDir else ret tt) ;;
       write_frames framesDir frames 0 ;;
       ret (mkCacheResult true None None))
      (fun error => ret (failed ("Error caching frames: " +:+ Text.error_text error))).

(** Images cached one after the other, each with the value of
    [Math.random()] its call draws; the results, in order. *)
Fixpoint cacheImages (objectType visualStyle generationType : string)
    (images : list (Q * string)) : ST FS (list CacheResult) :=
  match images with
  | [] => ret []
  | (rnd, base64Image) :: images' =>
      do! r := cacheImage rnd objectType visualStyle base64Image generationType in
      do! rs := cacheImages objectType visualStyle generationType images' in
      ret (r :: rs)
  end.

(** A pool whose first [k] variations, and no other, have their file. *)
Definition filled (objectType visualStyle generationType : string) (k : nat) (fs : FS) : Prop :=
  forall i, (i < poolSize)%nat ->
    existsSync (variation_path objectType visualStyle generationType (Some i)) fs
    = bool_decide (i < k)%nat.

End Manager.

End Cache.

(** ** A file system for the examples

    An instance of what the cache is stated over: files by path with
    their contents, and the directories; no operation fails but the read
    of a file that is not there. *)

Module SampleDisk.

Record Disk := mkDisk { files : gmap string string; dirs : gset string }.

Definition existsSync (p : string) (d : Disk) : bool :=
  bool_decide (is_Some (files d !! p) \/ p ∈ dirs d).

Definition readFileSync (p : string) (d : Disk) : outcome string :=
  match files d !! p with
  | Some content => Ret content
  | None => Throw (Error ("ENOENT: no such file or directory, open '" +:+ p +:+ "'"))
  end.

Definition writeFileSync (p content : string) : ST Disk unit :=
  modify (fun d => mkDisk (<[p := content]> (files d)) (dirs d)).

Definition mkdirSync (p : string) : ST Disk unit :=
  modify (fun d => mkDisk (files d) ({[p]} ∪ dirs d)).

Definition join (l : list string) : string := Text.join_with "/" l.

(** Base64 is left as it is. *)
Definition base64 (s : string) : string := s.

Definition blank : Disk := mkDisk ∅ ∅.

(** A cache of two variations, on, under [/srv]. *)
Definition getCachedImage : Q -> string -> string -> string -> ST Disk Cache.CacheResult :=
  Cache.getCachedImage join "/srv" Disk existsSync readFileSync base64 true 2.

Definition cacheImage : Q -> string -> string -> string -> string -> ST Disk Cache.CacheResult :=
  Cache.cacheImage join "/srv" Disk existsSync writeFileSync base64 true 2.

Definition cacheImages : string -> string -> string -> list (Q * string)
    -> ST Disk (list Cache.CacheResult) :=
  Cache.cacheImages join "/srv" Disk existsSync writeFileSync base64 true 2.

Definition getCachedFrames : string -> string -> ST Disk Cache.CacheResult :=
  Cache.getCachedFrames join "/srv" Disk existsSync readFileSync base64 true.

Definition cacheFrames : string -> string -> list string -> ST Disk Cache.CacheResult :=
  Cache.cacheFrames join "/srv" Disk existsSync writeFileSync mkdirSync base64 true.

(** The disk after two images were cached for a realistic fire, after
    two frames were, and after four frames were. *)
Definition two_cached : Disk :=
  snd (cacheImages "Fire" "Realistic" "local" [(0%Q, "one"); ((1#2)%Q, "two")] blank).

Definition two_frames : Disk :=
  snd (cacheFrames "Fire" "Realistic" ["a"; "b"] blank).

Definition four_frames : Disk :=
  snd (cacheFrames "Fire" "Realistic" ["a"; "b"; "c"; "d"] blank).

End SampleDisk.

(** ** Server: configuration (config.ts) *)

Module Config.

Record GoogleCloudConfig := mkGoogleCloud {
  projectId : string;
  location : string;
  apiKey : string;
  enabled : bool
}.

(** [port] is what [parseInt] gives, [None] for [NaN]. *)
Record ServerConfig := mkServerConfig {
  port : option Z;
  useLocalBackend : bool;
  localModelsServiceUrl : string
}.

Record Config := mkConfig {
  googleCloud : GoogleCloudConfig;
  server : ServerConfig
}.

(** A variable of the environment, as a condition: set and not empty. *)
Definition is_set (v : option string) : bool :=
  match v with
  | Some s => negb (String.eqb s "")
  | None => false
  end.

(** Which of its two lines [validateConfig] logs. *)
Inductive backend := LocalModels | GoogleCloud.

Section Env.

(** [parseInt(s, 10)] is JavaScript's; [env] is [process.env] once
    [dotenv] has loaded the two files. *)
Variable parseInt : string -> option Z.
Variable env : gmap string string.

Definition config : Config :=
  mkConfig
    (mkGoogleCloud
       (default "" (env !! "GOOGLE_CLOUD_PROJECT_ID"))
       (default "" (env !! "GOOGLE_CLOUD_LOCATION"))
       (default "" (env !! "GOOGLE_API_KEY"))
       (is_set (env !! "GOOGLE_CLOUD_PROJECT_ID")
        && is_set (env !! "GOOGLE_CLOUD_LOCATION")
        && is_set (env !! "GOOGLE_API_KEY")))
    (mkServerConfig
       (parseInt (default "3000" (env !! "PORT")))
       (negb (bool_decide (env !! "USE_LOCAL_BACKEND" = Some "false")))
       (default "http://localhost:8000" (env !! "LOCAL_MODELS_SERVICE_URL"))).

End Env.

Definition requiredVars (config : Config) : list (string * string) :=
  [("GOOGLE_CLOUD_PROJECT_ID", projectId (googleCloud config));
   ("GOOGLE_CLOUD_LOCATION", location (googleCloud config));
   ("GOOGLE_API_KEY", apiKey (googleCloud config))].

Definition missing_message (names : list string) : string :=
  "Missing required environment variables for Google Cloud backend: "
  +:+ Text.join_with ", " names +:+ Text.nl +:+ Text.nl
  +:+ "Either provide Google Cloud credentials or set USE_LOCAL_BACKEND=true to use local models.".

Definition validateConfig (config : Config) : outcome backend :=
  if useLocalBackend (server config) then Ret LocalModels
  else
    let missingVars := filter (fun v => snd v = "") (requiredVars config) in
    if Nat.ltb 0 (length missingVars) then Throw (Error (missing_message (map fst missingVars)))
    else Ret GoogleCloud.

Definition isLocalBackendEnabled (config : Config) : bool := useLocalBackend (server config).

End Config.

(** ** Server: the AI configuration (ai-config-helper.ts) *)

Module AIConfig.

(** *** Templates *)

(** A character a placeholder's name may hold: no brace, no white
    space. *)
Definition is_name_char (c : ascii) : bool :=
  negb (Ascii.eqb c "{"%char || Ascii.eqb c "}"%char || Str.is_space c).

(** The longest run of name characters [s] begins with, and the rest. *)
Fixpoint take_name (s : string) : string * string :=
  match s with
  | EmptyString => (EmptyString, EmptyString)
  | String c s' =>
      if is_name_char c then
        let '(name, rest) := take_name s' in (String c name, rest)
      else (EmptyString, s)
  end.

(** At most one white space. *)
Definition skip_space (s : string) : string :=
  match s with
  | String c s' => if Str.is_space c then s' else s
  | EmptyString => EmptyString
  end.

(** A match of [templateMatcher] where [s] begins: two opening braces,
    at most one white space, the name, at most one white space, two
    closing braces.  Gives the name captured and what follows the
    match. *)
Definition match_placeholder (s : string) : option (string * string) :=
  match s with
  | String "{"%char (String "{"%char s1) =>
      let '(name, s3) := take_name (skip_space s1) in
      match skip_space s3 with
      | String "}"%char (String "}"%char rest) => Some (name, rest)
      | _ => None
      end
  | _ => None
  end.

(** What the replacer returns for a name, as text: the value, and
    ["undefined"] for a name the object does not have. *)
Definition value_text (v : option string) : string := default "undefined" v.

(** [expression.replace(templateMatcher, ...)], left to right: [skip] is
    the number of characters still to pass over of the match in
    progress. *)
Fixpoint replace_placeholders (valueObj : gmap string string) (s : string) (skip : nat)
    : string :=
  match s with
  | EmptyString => EmptyString
  | String c s' =>
      match skip with
      | S skip' => replace_placeholders valueObj s' skip'
      | O =>
          match match_placeholder s with
          | Some (name, rest) =>
              value_text (valueObj !! name)
              +:+ replace_placeholders valueObj s' (String.length s' - String.length rest)
          | None => String c (replace_placeholders valueObj s' 0)
          end
      end
  end.

(** A text without an opening brace; a placeholder's name; at most one
    white space. *)
Fixpoint plain (s : string) : bool :=
  match s with
  | EmptyString => true
  | String c s' => (negb (Ascii.eqb c "{"%char) && plain s')%bool
  end.

Fixpoint is_name (s : string) : bool :=
  match s with
  | EmptyString => true
  | String c s' => (is_name_char c && is_name s')%bool
  end.

Definition opt_space (s : string) : bool :=
  match s with
  | EmptyString => true
  | String c EmptyString => Str.is_space c
  | _ => false
  end.

Definition stringTemplateParser (expression : string) (valueObj : gmap string string) : string :=
  replace_placeholders valueObj expression 0.

Section AIConfig.

(** What [ai-config.json] gives, or the defaults. *)
Variable prompts : gmap string string.
Variable inappropriateKeywords : list string.
Variable safetySettingsResponse : jsval.

Definition buildPrompt (promptKey : string) (valueObj : gmap string string) : string :=
  match prompts !! promptKey with
  | Some prompt =>
      if (negb (String.eqb promptKey "") && Nat.ltb 0 (String.length promptKey)
          && negb (String.eqb prompt ""))%bool
      then stringTemplateParser prompt valueObj
      else ""
  | None => ""
  end.

Definition getInappropriateKeywords : list string := inappropriateKeywords.

Definition getSafetySettingsResponse : jsval := safetySettingsResponse.

Definition isInappropriateContent (type : string) : bool :=
  existsb (fun keyword => Text.includes keyword (Str.toLowerCase type)) inappropriateKeywords.

End AIConfig.

(** [defaultAIConfig], as far as it is used here. *)
Definition default_prompts : gmap string string := ∅.
Definition default_inappropriateKeywords : list string := ["violence"; "adult"; "explicit"].
Definition default_safetySettingsResponse : jsval :=
  JObj (<["type" := JStr "__BLOCKED__"]> (<["attributes" := JArr []]>
       (<["shouldRemove" := JBool true]> ∅))).

End AIConfig.

(** ** Server: drawing and command analysis (ai-analysis.ts) *)

Module Analysis.

(** The double quote. *)
Definition dq : string := String (Ascii.ascii_of_nat 34) EmptyString.

(** A request to the generative model: the text, the image if there is
    one, the kind of response schema asked for, and the model. *)
Record request := mkRequest {
  req_text : string;
  req_image : option jsval;
  req_schema : string;
  req_model : string
}.

(** What the model gives back: a response, with the finish reason and
    the text of its first candidate when they are there, or an error
    with its code. *)
Inductive ai_answer :=
| Answered (finishReason : option string) (text : option string)
| Refused (code : option Z) (message : string).

(** The message of a caught error. *)
Definition message_of (e : exn) : string :=
  match e with
  | TypeError msg | SyntaxError msg | Error msg => msg
  end.

(** [l.join(sep)] on values: [null] and [undefined] give the empty
    text. *)
Definition join_values (sep : string) (l : list jsval) : string :=
  Text.join_with sep (map (fun v => if is_nullish v then "" else Stage.to_string v) l).

(** A match of the fence pattern of [textToCommand] where [s] begins,
    by its length: the opening fence with its language and at most one
    line feed, else at most one line feed and a fence. *)
Definition match_fence (s : string) : option nat :=
  if Str.startsWith "```json" s then
    Some (if Str.startsWith ("```json" +:+ Text.nl) s then 8 else 7)%nat
  else if Str.startsWith (Text.nl +:+ "```") s then Some 4%nat
  else if Str.startsWith "```" s then Some 3%nat
  else None.

(** The global replacement of the fences by nothing; [skip] is the
    number of characters still to drop of the match in progress. *)
Fixpoint strip_fences (s : string) (skip : nat) : string :=
  match s with
  | EmptyString => EmptyString
  | String c s' =>
      match skip with
      | S skip' => strip_fences s' skip'
      | O =>
          match match_fence s with
          | Some n => strip_fences s' (n - 1)
          | None => String c (strip_fences s' 0)
          end
      end
  end.

(** [[...(v || [])]]: the elements of an array, the characters of a
    text, nothing for a falsy value; any other value is not iterable. *)
Definition spread_or_empty (v : jsval) : outcome (list jsval) :=
  if negb (truthy v) then Ret []
  else match v with
       | JArr l => Ret l
       | JStr s => Ret (map (fun c => JStr (String c EmptyString)) (list_ascii_of_string s))
       | _ => Throw (TypeError "currentTargets is not iterable")
       end.

(** [k in v]: for the two fields of a command, which no array has. *)
Definition has_field (k : string) (v : jsval) : outcome bool :=
  match v with
  | JObj m => Ret (bool_decide (is_Some (m !! k)))
  | JArr _ => Ret false
  | _ => Throw (TypeError ("Cannot use 'in' operator to search for '" +:+ k +:+ "'"))
  end.

(** [v.includes(s)] for a text [s]: on a text, on an array; no other
    value has the method. *)
Definition value_includes (v : jsval) (s : string) : outcome bool :=
  match v with
  | JStr t => Ret (Text.includes s t)
  | JArr l => Ret (indexOf_found l s)
  | JUndefined => Throw (TypeError "Cannot read properties of undefined (reading 'includes')")
  | JNull => Throw (TypeError "Cannot read properties of null (reading 'includes')")
  | _ => Throw (TypeError "includes is not a function")
  end.

Section Analysis.

(** The model and [JSON.parse] are not the repository's; [model] tells
    what the model answers to a request, given the requests made so far.
    [member] is the reading [v[k]] of a property whose name comes from
    the configuration.  The rest is [ai-config.json]. *)
Variable model : list request -> request -> ai_answer.
Variable JSON_parse : string -> outcome jsval.
Variable member : jsval -> string -> outcome jsval.
Variable prompts : gmap string string.
Variable types : list (string * list string).
Variable attributes : list (string * option string).
Variable verbs : list string.
Variable inappropriateKeywords : list string.
Variable safetySettingsResponse : jsval.

(** Code that talks to the model: the state is the list of the requests
    made. *)
Definition AI (A : Type) : Type := ST (list request) A.

Definition getAttributes : string :=
  Text.join_with "," (map (fun a => " '" +:+ fst a +:+ "'") attributes).

Definition getTypes : string :=
  Text.join_with "," (map (fun t => " '" +:+ fst t +:+ "'") types).

Definition getVerbs : string :=
  Text.join_with "," (map (fun v => dq +:+ v +:+ dq) verbs).

Definition getTargetList (currentTargets : jsval) : string :=
  (match currentTargets with
   | JArr l => Text.join_with "," (map (fun t => dq +:+ Stage.to_string t +:+ dq) l)
   | _ => ""
   end)
  +:+ "," +:+ dq +:+ "LAST_OBJECT" +:+ dq +:+ "," +:+ dq +:+ "LAST_CREATED" +:+ dq
  +:+ "," +:+ dq +:+ "ALL" +:+ dq.

(** [sendMultimodalRequest]: the schema sent along is a function of
    [schemaType] and of the configuration. *)
Definition sendMultimodalRequest (textPrompt : string) (base64Image : option jsval)
    (schemaType : string) : AI string :=
  if String.eqb textPrompt "" then throw (Error "No text prompt provided")
  else
    fun log =>
      let request := mkRequest textPrompt base64Image schemaType "gemini-2.0-flash-exp" in
      let log' := log ++ [request] in
      match model log request with
      | Answered finishReason text =>
          if bool_decide (finishReason = Some "SAFETY") then (Ret "__BLOCKED__", log')
          else if String.eqb (default "" text) "" then
            (Throw (Error "Invalid response format from AI model"), log')
          else (Ret (default "" text), log')
      | Refused code message =>
          (Throw (Error
             (if bool_decide (code = Some 429) then "Rate limit exceeded. Please try again later."
              else if bool_decide (code = Some 400) then "Invalid request parameters"
              else if bool_decide (code = Some 401 \/ code = Some 403)
                   then "Authentication failed. Please check your credentials."
              else message)), log')
      end.

(** [JSON.parse] inside its [try], the error reworded. *)
Definition parse_or (what text : string) : outcome jsval :=
  match JSON_parse text with
  | Ret v => Ret v
  | Throw e => Throw (Error (what +:+ message_of e))
  end.

(** [aiConfig.isInappropriateContent(v)] on a value read from a
    response: the first keyword already calls [v.toLowerCase()]. *)
Definition moderate (v : jsval) : outcome bool :=
  match inappropriateKeywords with
  | [] => Ret false
  | _ =>
      try! lowered := Stage.call_toLowerCase v in
      Ret (existsb (fun keyword => Text.includes keyword lowered) inappropriateKeywords)
  end.

(** The loop over the configured types, up to its [break]. *)
Fixpoint first_type (type : jsval) (l : list (string * list string))
    : outcome (option (string * list string)) :=
  match l with
  | [] => Ret None
  | t :: l' =>
      try! hit := value_includes type (fst t) in
      if hit then Ret (Some t) else first_type type l'
  end.

(** The loop over the configured attributes: the names of those the
    answer holds for true, in order. *)
Fixpoint true_attributes (attributesGuess : jsval) (l : list (string * option string))
    : outcome (list string) :=
  match l with
  | [] => Ret []
  | a :: l' =>
      try! nested := has_field "attributes" attributesGuess in
      try! attributesDict :=
        (if nested then get_field attributesGuess "attributes" else Ret attributesGuess) in
      try! attributeValue := member attributesDict (fst a) in
      try! rest := true_attributes attributesGuess l' in
      Ret (if truthy attributeValue then default (fst a) (snd a) :: rest else rest)
  end.

(** [finalResult.type = ...; finalResult.attributes = ...]. *)
Definition with_type (finalResult : jsval) (t : string * list string) : jsval :=
  match finalResult with
  | JObj m => JObj (<["attributes" := JArr (map JStr (snd t))]> (<["type" := JStr (fst t)]> m))
  | v => v
  end.

(** The second half of [imageToConfig]: no configured type matched. *)
Definition genericAnalysis (base64Image : jsval) : AI jsval :=
  do! genericGuessText :=
    sendMultimodalRequest (default "" (prompts !! "analysis_genericGuess"))
      (Some base64Image) "imageToConfig" in
  if String.eqb genericGuessText "__BLOCKED__" then ret safetySettingsResponse
  else if String.eqb genericGuessText "" then
    throw (Error "No response received for generic analysis")
  else
    do! genericGuess :=
      lift (parse_or "Failed to parse generic analysis response: " genericGuessText) in
    do! type := lift (get_field genericGuess "type") in
    do! flagged := lift (moderate type) in
    if flagged then ret safetySettingsResponse
    else
      let attributesText := getAttributes in
      do! attributesGuessText :=
        sendMultimodalRequest
          (AIConfig.buildPrompt prompts "analysis_attributesGuess"
             (<["type" := Stage.to_string type]> (<["attributes" := attributesText]> ∅)))
          None "attributesList" in
      if String.eqb attributesGuessText "__BLOCKED__" then ret safetySettingsResponse
      else if String.eqb attributesGuessText "" then
        throw (Error "No response received for attributes analysis")
      else
        do! attributesGuess :=
          lift (parse_or "Failed to parse attributes analysis response: " attributesGuessText) in
        do! names := lift (true_attributes attributesGuess attributes) in
        ret (JObj (<["type" := type]> (<["attributes" := JArr (map JStr names)]> ∅))).

(** [imageToConfig]; its [catch] logs the error and throws it again. *)
Definition imageToConfig (base64Image : jsval) : AI jsval :=
  if negb (truthy base64Image) then throw (Error "No image data provided")
  else
    let typesText := getTypes in
    let textPrompt :=
      AIConfig.buildPrompt prompts "analysis_initialGuess" (<["types" := typesText]> ∅) in
    do! result := sendMultimodalRequest textPrompt (Some base64Image) "imageToConfig" in
    if String.eqb result "__BLOCKED__" then ret safetySettingsResponse
    else if String.eqb result "" then throw (Error "No response received from AI model")
    else
      do! finalResult := lift (parse_or "Failed to parse AI response: " result) in
      do! type := lift (get_field finalResult "type") in
      do! flagged := lift (moderate type) in
      if flagged then ret safetySettingsResponse
      else
        do! matched := lift (first_type type types) in
        match matched with
        | Some t => ret (with_type finalResult t)
        | None => genericAnalysis base64Image
        end.

Definition imageToText (base64Image : jsval) (textPrompt : string) : AI string :=
  if negb (truthy base64Image) then throw (Error "No image data provided")
  else if String.eqb textPrompt "" then throw (Error "No text prompt provided")
  else
    do! result := sendMultimodalRequest textPrompt (Some base64Image) "imageToText" in
    if String.eqb result "" then throw (Error "No response received from AI model")
    else ret result.

(** The checks [textToCommand] makes on the parsed command. *)
Definition validate_command (command currentTargets : jsval) : outcome (string * string) :=
  if (negb (truthy command) || negb (typeof_object command))%bool then
    Throw (Error "Invalid command format: response is not an object")
  else
    try! hasVerb := has_field "verb" command in
    try! hasTarget := has_field "target" command in
    let missingFields :=
      (if hasVerb then [] else ["verb"]) ++ (if hasTarget then [] else ["target"]) in
    if Nat.ltb 0 (length missingFields) then
      Throw (Error ("Invalid command format: missing required fields: "
                    +:+ Text.join_with ", " missingFields))
    else
      try! verb := get_field command "verb" in
      try! target := get_field command "target" in
      match verb, target with
      | JStr verb, JStr target =>
          let validVerbs := verbs in
          try! given := spread_or_empty currentTargets in
          let validTargets := given ++ [JStr "LAST_OBJECT"; JStr "LAST_CREATED"; JStr "ALL"] in
          if negb (bool_decide (verb ∈ validVerbs)) then
            Throw (Error ("Invalid verb: " +:+ verb +:+ ". Must be one of: "
                          +:+ Text.join_with ", " validVerbs))
          else if negb (indexOf_found validTargets target) then
            Throw (Error ("Invalid target: " +:+ target +:+ ". Must be one of: "
                          +:+ join_values ", " validTargets))
          else Ret (Str.toLowerCase verb, Str.toLowerCase target)
      | _, _ => Throw (Error "Invalid command format: verb and target must be strings")
      end.

(** [textToCommand]; its [catch] logs the error and throws it again. *)
Definition textToCommand (textCommand : option string) (currentTargets : jsval)
    : AI (string * string) :=
  let verbList := getVerbs in
  let targetList := getTargetList currentTargets in
  do! commandText :=
    sendMultimodalRequest
      (AIConfig.buildPrompt prompts "analysis_textToCommand"
         (<["text" := default "" textCommand]> (<["verbs" := verbList]>
          (<["targets" := targetList]> ∅))))
      None "textToCommand" in
  if String.eqb commandText "" then throw (Error "No response received from AI model")
  else
    let cleanedText := Str.trim (strip_fences (Str.trim commandText) 0) in
    do! command := lift (parse_or "Failed to parse command response: " cleanedText) in
    lift (validate_command command currentTargets).

(** The names an answer of [imageToConfig] may list as attributes: those
    of the configured types, and the configured attributes under the
    name they map to. *)
Definition vocabulary : list string :=
  concat (map snd types) ++ map (fun a => default (fst a) (snd a)) attributes.

(** What an answer of [imageToConfig] looks like: the safety response,
    or an object with a type the keyword filter lets through and
    attributes from the vocabulary. *)
Definition well_formed_answer (r : jsval) : Prop :=
  r = safetySettingsResponse
  \/ exists (m : propbag) type names,
       r = JObj m /\ m !! "type" = Some type
       /\ m !! "attributes" = Some (JArr (map JStr names))
       /\ (forall n, n ∈ names -> n ∈ vocabulary)
       /\ moderate type = Ret false.

End Analysis.

End Analysis.

(** ** A configuration and a model for the examples *)

Module SampleAI.

Import Analysis.

Definition prompts : gmap string string :=
  <["analysis_initialGuess" := "Which of{{types}} is drawn here?"]>
  (<["analysis_textToCommand" :=
       "Verbs: {{verbs}}. Targets: {{targets}}. Text: {{ text }}"]> ∅).

Definition types : list (string * list string) := [("fire", ["burns"; "explodes"])].

Definition attributes : list (string * option string) :=
  [("burns", None); ("hot", Some "burns")].

Definition verbs : list string := ["setFire"; "destroy"].

(** What the model says of a drawing, and of a command, the latter
    inside a fence. *)
Definition drawing_text : string :=
  "{" +:+ dq +:+ "type" +:+ dq +:+ ":" +:+ dq +:+ "a big fire" +:+ dq +:+ "}".

Definition command_text : string :=
  "{" +:+ dq +:+ "verb" +:+ dq +:+ ":" +:+ dq +:+ "setFire" +:+ dq +:+ ","
  +:+ dq +:+ "target" +:+ dq +:+ ":" +:+ dq +:+ "ALL" +:+ dq +:+ "}".

Definition fenced_command_text : string :=
  "```json" +:+ Text.nl +:+ command_text +:+ Text.nl +:+ "```".

Definition model (log : list request) (r : request) : ai_answer :=
  if String.eqb (req_schema r) "textToCommand"
  then Answered (Some "STOP") (Some fenced_command_text)
  else Answered (Some "STOP") (Some drawing_text).

(** A parser that knows the two texts. *)
Definition JSON_parse (s : string) : outcome jsval :=
  if String.eqb s drawing_text then Ret (JObj (<["type" := JStr "a big fire"]> ∅))
  else if String.eqb s command_text then
    Ret (JObj (<["verb" := JStr "setFire"]> (<["target" := JStr "ALL"]> ∅)))
  else Throw (SyntaxError "Unexpected token").

Definition imageToConfig : jsval -> AI jsval :=
  Analysis.imageToConfig model JSON_parse get_field prompts types attributes
    AIConfig.default_inappropriateKeywords AIConfig.default_safetySettingsResponse.

Definition textToCommand : option string -> jsval -> AI (string * string) :=
  Analysis.textToCommand model JSON_parse prompts verbs.

End SampleAI.

(** ** Server: the routes (server index) *)

Module Routes.

Import Server.

(** [res.status(status).json({ error: msg })]. *)
Definition json_error (status : nat) (msg : string) : response :=
  mkResponse status (JObj {[ "error" := JStr msg ]}).

(** [errorHandler], the middleware installed last; [now] is the time
    stamp. *)
Definition errorHandler (now : string) (err : exn) : response :=
  let message := Analysis.message_of err in
  mkResponse 500
    (JObj (<["error" := JStr (if String.eqb message "" then "Internal server error"
                              else message)]>
          (<["timestamp" := JStr now]> ∅))).

(** What a synchronous handler throws goes to [errorHandler]. *)
Definition handled (now : string) (o : outcome response) : response :=
  match o with
  | Ret r => r
  | Throw e => errorHandler now e
  end.

Section CheckError.

Variable join : list string -> string.
Variable existsSync : string -> bool.
Variable readFileSync : string -> outcome string.
Variable JSON_parse : string -> outcome jsval.

Definition error_file (hash : string) : string :=
  join ["generated"; "error_" +:+ hash +:+ ".json"].

(** [GET /checkError/:hash]: a response without a body has the body
    [undefined]. *)
Definition checkError (hash : option string) : outcome response :=
  match
    match hash with
    | None | Some EmptyString => Ret (json_error 400 "Hash parameter is required")
    | Some hash =>
        let errorFile := error_file hash in
        if existsSync errorFile then
          try! text := readFileSync errorFile in
          try! errorData := JSON_parse text in
          Ret (mkResponse 200 errorData)
        else Ret (mkResponse 404 JUndefined)
    end
  with
  | Ret r => Ret r
  | Throw error => Throw (Error "Error in checkError")
  end.

End CheckError.

(** *** From the server to the client *)

(** [response.ok]. *)
Definition ok_status (status : nat) : bool := (Nat.leb 200 status && Nat.leb status 299)%bool.

(** A [fetch] of the client that is answered by the response [r] of a
    route: it may fail; when it gives a response, that one has the
    status of [r], and the JSON body of [r] when [r] has a body. *)
Definition delivers (r : response) (fetched : outcome Stage.http_response) : Prop :=
  match fetched with
  | Ret h =>
      Stage.resp_status h = res_status r
      /\ Stage.resp_ok h = ok_status (res_status r)
      /\ (res_body r <> JUndefined -> Stage.resp_json h = Ret (res_body r))
  | Throw _ => True
  end.

(** The files of the server while the client polls: what
    [fs.existsSync] and [fs.readFileSync] give, and the time, in each
    round. *)
Record Files := mkFiles {
  existsSync : string -> bool;
  readFileSync : string -> outcome string;
  now : string
}.

(** A polling round of the client against the two routes. *)
Definition served (join : list string -> string) (JSON_parse : string -> outcome jsval)
    (hash : string) (files : Files) (r : Stage.PollRound) : Prop :=
  delivers (handled (now files)
              (checkError join (existsSync files) (readFileSync files) JSON_parse (Some hash)))
           (Stage.errorFetch r)
  /\ delivers (fst (checkFrames join (existsSync files) (Some hash))) (Stage.framesFetch r).

(** The path of a frame, as [checkFrames] builds it. *)
Definition frame_path (join : list string -> string) (hash : string) (i : nat) : string :=
  join [join ["generated"]; frame_file hash i].

End Routes.

(** ** Server: the analysis routes (server index) *)

Module AnalysisRoutes.

Import Server Routes Analysis.

(** [imageData.slice(n)]: of a text, of an array; no other value of a
    request body has the method. *)
Definition slice_from (n : nat) (v : jsval) : outcome jsval :=
  match v with
  | JStr s => Ret (JStr (Str.substring_from n s))
  | JArr l => Ret (JArr (drop n l))
  | JUndefined => Throw (TypeError "Cannot read properties of undefined (reading 'slice')")
  | JNull => Throw (TypeError "Cannot read properties of null (reading 'slice')")
  | _ => Throw (TypeError "imageData.slice is not a function")
  end.

(** [validateImageRequest]: the answer it sends when it returns
    [false]. *)
Definition validateImageRequest (body : propbag) : option response :=
  if negb (truthy (default JUndefined (body !! "prompt")))
  then Some (json_error 400 "Image data is required")
  else None.

Section AnalysisRoutes.

Variable model : list request -> request -> ai_answer.
Variable JSON_parse : string -> outcome jsval.
Variable member : jsval -> string -> outcome jsval.
Variable prompts : gmap string string.
Variable types : list (string * list string).
Variable attributes : list (string * option string).
Variable verbs : list string.
Variable inappropriateKeywords : list string.
Variable safetySettingsResponse : jsval.

(** [POST /analyseImage], [body] the parsed body of the request. *)
Definition analyseImage (body : propbag) : AI response :=
  try_catch
    (match validateImageRequest body with
     | Some refusal => ret refusal
     | None =>
         let prompt := default JUndefined (body !! "prompt") in
         let imageData := if truthy prompt then prompt else JNull in
         if negb (truthy imageData) then ret (json_error 400 "No image data provided")
         else
           do! trimmedData := lift (slice_from 22 imageData) in
           if negb (truthy trimmedData) then ret (json_error 400 "Invalid image data format")
           else
             do! response :=
               imageToConfig model JSON_parse member prompts types attributes
                 inappropriateKeywords safetySettingsResponse trimmedData in
             do! type := lift (get_field response "type") in
             do! flagged :=
               (if truthy type then lift (moderate inappropriateKeywords type)
                else ret false) in
             if flagged then ret (mkResponse 200 safetySettingsResponse)
             else ret (mkResponse 200 response)
     end)
    (fun error => throw (Error "Error in analyseImage")).

(** [POST /textToCommand]. *)
Definition textToCommandRoute (body : propbag) : AI response :=
  try_catch
    (let command := default JUndefined (body !! "command") in
     let textCommand := if truthy command then command else JNull in
     let targets := default JUndefined (body !! "currentTargets") in
     let currentTargets := if truthy targets then targets else JNull in
     if negb (truthy textCommand) then ret (json_error 400 "Command text is required")
     else
       do! result :=
         textToCommand model JSON_parse prompts verbs
           (Some (Stage.to_string textCommand)) currentTargets in
       ret (mkResponse 200
              (JObj (<["verb" := JStr (fst result)]> (<["target" := JStr (snd result)]> ∅)))))
    (fun error => throw (Error "Error in textToCommand")).

End AnalysisRoutes.

End AnalysisRoutes.

(** ** Server: the drawing analysis with Ollama (local-models-client.ts) *)

Module Ollama.

Import Server Routes.

(** A request to Ollama: for its tags, for the analysis of an image, or
    for a text; the model, the prompt of the analysis and the other
    fields are constants.  [image] is the one element of [images],
    [None] for [undefined]. *)
Inductive call :=
| Tags
| Generate (image : option string)
| Ask (prompt : string).

(** What [fetch] gives on the server. *)
Record reply := mkReply {
  reply_ok : bool;
  reply_status : nat;
  reply_statusText : string;
  reply_json : outcome jsval
}.

(** The result of the analysis; [confidence] is [None] for [NaN]. *)
Record DrawingAnalysis := mkAnalysis {
  objectType : string;
  confidence : option Q;
  description : string;
  properties : propbag
}.

(** What the route sends: a JSON value, or with status 200 the analysis
    with [success: true]. *)
Inductive answer :=
| Plain (r : response)
| Recognised (analysis : DrawingAnalysis).

(** *** The patterns *)

(** The characters [.] does not match. *)
Definition is_line_end (c : ascii) : bool :=
  let n := Ascii.nat_of_ascii c in (Nat.eqb n 10 || Nat.eqb n 13)%bool.

(** The longest run of characters that [.] matches, and the rest. *)
Fixpoint take_line (s : string) : string * string :=
  match s with
  | EmptyString => (EmptyString, EmptyString)
  | String c s' =>
      if is_line_end c then (EmptyString, s)
      else let '(line, rest) := take_line s' in (String c line, rest)
  end.

(** A match of [(.+?)(?:\n|$)] where [s] begins: the lazy group grows
    until a line feed or the end of the text follows, and cannot pass
    a character that [.] does not match. *)
Definition match_line (s : string) : option string :=
  match take_line s with
  | (EmptyString, _) => None
  | (line, EmptyString) => Some line
  | (line, String c _) => if Nat.eqb (Ascii.nat_of_ascii c) 10 then Some line else None
  end.

(** A match of [\s*(.+?)(?:\n|$)] where [s] begins: the white space is
    taken greedily and given back character by character. *)
Fixpoint match_value (s : string) : option string :=
  match s with
  | EmptyString => None
  | String c s' =>
      if Str.is_space c then
        match match_value s' with
        | Some value => Some value
        | None => match_line s
        end
      else match_line s
  end.

(** [text.match(/LABEL:\s*(.+?)(?:\n|$)/i)]: the first group of the
    leftmost match; [label] is given in lower case, with its colon. *)
Fixpoint find_field (label : string) (s : string) : option string :=
  match
    (if Str.startsWith label (Str.toLowerCase s)
     then match_value (Str.substring_from (String.length label) s)
     else None)
  with
  | Some value => Some value
  | None =>
      match s with
      | EmptyString => None
      | String _ s' => find_field label s'
      end
  end.

Definition is_number_char (c : ascii) : bool :=
  let n := Ascii.nat_of_ascii c in ((Nat.leb 48 n && Nat.leb n 57) || Nat.eqb n 46)%bool.

Fixpoint take_number (s : string) : string * string :=
  match s with
  | EmptyString => (EmptyString, EmptyString)
  | String c s' =>
      if is_number_char c then let '(digits, rest) := take_number s' in (String c digits, rest)
      else (EmptyString, s)
  end.

(** A match of [\s*([\d.]+)(?:\n|$)] where [s] begins: both runs are
    greedy, and nothing they give back helps. *)
Definition match_number (s : string) : option string :=
  match take_number (Str.trimStart s) with
  | (EmptyString, _) => None
  | (digits, EmptyString) => Some digits
  | (digits, String c _) => if Nat.eqb (Ascii.nat_of_ascii c) 10 then Some digits else None
  end.

(** [text.match(/CONFIDENCE:\s*([\d.]+)(?:\n|$)/i)]. *)
Fixpoint find_number (label : string) (s : string) : option string :=
  match
    (if Str.startsWith label (Str.toLowerCase s)
     then match_number (Str.substring_from (String.length label) s)
     else None)
  with
  | Some value => Some value
  | None =>
      match s with
      | EmptyString => None
      | String _ s' => find_number label s'
      end
  end.

(** [Math.max] and [Math.min] of two numbers. *)
Definition Math_max (a b : option Q) : option Q :=
  match a, b with
  | Some a, Some b => Some (if Qle_bool a b then b else a)
  | _, _ => None
  end.

Definition Math_min (a b : option Q) : option Q :=
  match a, b with
  | Some a, Some b => Some (if Qle_bool a b then a else b)
  | _, _ => None
  end.

Section Ollama.

(** What [fetch] answers to a request, given the requests made so far,
    and [parseFloat]. *)
Variable fetch : list call -> call -> outcome reply.
Variable parseFloat : string -> option Q.
Variable inappropriateKeywords : list string.
Variable safetySettingsResponse : jsval.

(** Code that talks to Ollama: the state is the list of the requests
    made. *)
Definition Net (A : Type) : Type := ST (list call) A.

Definition request (c : call) : Net reply :=
  fun log => (fetch log c, log ++ [c]).

Definition isOllamaAvailable : Net bool :=
  try_catch
    (do! response := request Tags in ret (reply_ok response))
    (fun _ => ret false).

(** [generateTextWithOllama]; its [catch] logs the error and throws it
    again. *)
Definition generateTextWithOllama (prompt : string) : Net jsval :=
  do! response := request (Ask prompt) in
  if negb (reply_ok response) then
    throw (Error ("Ollama API error: " +:+ pretty (reply_status response) +:+ " "
                  +:+ reply_statusText response))
  else
    do! data := lift (reply_json response) in
    lift (get_field data "response").

(** [imageBase64.split(",")[1]] after the test of the prefix. *)
Definition clean_image (imageBase64 : jsval) : outcome (option string) :=
  match imageBase64 with
  | JStr s =>
      Ret (if Str.startsWith "data:image/" s then Str.split_comma s !! 1%nat else Some s)
  | JUndefined =>
      Throw (TypeError "Cannot read properties of undefined (reading 'startsWith')")
  | JNull => Throw (TypeError "Cannot read properties of null (reading 'startsWith')")
  | _ => Throw (TypeError "imageBase64.startsWith is not a function")
  end.

(** The reading of the answer's text. *)
Definition read_analysis (responseText : string) : DrawingAnalysis :=
  let objectMatch := find_field "object:" responseText in
  let confidenceMatch := find_number "confidence:" responseText in
  let descriptionMatch := find_field "description:" responseText in
  let propertiesMatch := find_field "properties:" responseText in
  let objectType :=
    match objectMatch with
    | Some m => Str.toLowerCase (Str.trim m)
    | None => "unknown"
    end in
  let confidence :=
    match confidenceMatch with
    | Some m => Math_min (Some 1%Q) (Math_max (Some 0%Q) (parseFloat m))
    | None => Some (1 # 2)%Q
    end in
  let description :=
    match descriptionMatch with
    | Some m => Str.trim m
    | None => objectType
    end in
  let propertiesStr :=
    match propertiesMatch with
    | Some m => Str.trim m
    | None => ""
    end in
  (* the function does not read its third argument *)
  let properties := parsePropertiesFromString objectType propertiesStr (default 0%Q confidence) in
  mkAnalysis objectType confidence description properties.

(** [analyzeDrawingWithOllama]; its [catch] logs the error and throws it
    again. *)
Definition analyzeDrawingWithOllama (imageBase64 : jsval) : Net DrawingAnalysis :=
  do! cleanBase64 := lift (clean_image imageBase64) in
  do! response := request (Generate cleanBase64) in
  if negb (reply_ok response) then
    throw (Error ("Ollama API error: " +:+ pretty (reply_status response) +:+ " "
                  +:+ reply_statusText response))
  else
    do! data := lift (reply_json response) in
    do! responseText := lift (get_field data "response") in
    match responseText with
    | JStr responseText => ret (read_analysis responseText)
    | JUndefined =>
        throw (TypeError "Cannot read properties of undefined (reading 'match')")
    | JNull => throw (TypeError "Cannot read properties of null (reading 'match')")
    | _ => throw (TypeError "responseText.match is not a function")
    end.

(** [POST /analyze-drawing] (server index). *)
Definition analyzeDrawing (body : propbag) : Net answer :=
  try_catch
    (let imageData := default JUndefined (body !! "imageData") in
     if negb (truthy imageData) then ret (Plain (json_error 400 "No image data provided"))
     else
       do! ollamaAvailable := isOllamaAvailable in
       if negb ollamaAvailable then
         ret (Plain (mkResponse 503
                (JObj (<["error" := JStr "Ollama service not available. Please start Ollama: 'ollama serve'"]>
                      (<["fallback" := JBool true]> ∅)))))
       else
         do! analysis := analyzeDrawingWithOllama imageData in
         if AIConfig.isInappropriateContent inappropriateKeywords (objectType analysis)
         then ret (Plain (mkResponse 200 safetySettingsResponse))
         else ret (Recognised analysis))
    (fun error =>
       ret (Plain (mkResponse 500
              (JObj (<["error" := JStr (Analysis.message_of error)]>
                    (<["success" := JBool false]> ∅)))))).

End Ollama.

End Ollama.

(** ** An Ollama for the examples *)

Module SampleOllama.

Import Ollama.

(** What the model writes of a drawing of a candle. *)
Definition answer_text : string :=
  "OBJECT: Candle" +:+ Text.nl +:+ "CONFIDENCE: 0.9" +:+ Text.nl
  +:+ "DESCRIPTION: A candle" +:+ Text.nl +:+ "PROPERTIES: hot, light".

Definition fetch (log : list call) (c : call) : outcome reply :=
  match c with
  | Tags => Ret (mkReply true 200 "OK" (Ret (JObj ∅)))
  | Generate _ => Ret (mkReply true 200 "OK" (Ret (JObj {[ "response" := JStr answer_text ]})))
  | Ask _ => Ret (mkReply true 200 "OK" (Ret (JObj {[ "response" := JStr " A lit candle. " ]})))
  end.

Definition parseFloat (s : string) : option Q :=
  if String.eqb s "0.9" then Some (9 # 10)%Q else None.

Definition drawing : jsval := JStr "data:image/png;base64,iVBORw0KGgo=".

(** An Ollama that is not running. *)
Definition down (log : list call) (c : call) : outcome reply :=
  Throw (TypeError "fetch failed").

End SampleOllama.

(** ** Server: the generation route (server index) *)

Module Generation.

Import Server Routes.

(** [v === s] for a text [s]. *)
Definition is_text (s : string) (v : jsval) : bool :=
  match v with
  | JStr t => String.eqb t s
  | _ => false
  end.

(** [a || b]. *)
Definition or_else (a b : jsval) : jsval := if truthy a then a else b.

(** [const { processedImage } = v]. *)
Definition destructure (k : string) (v : jsval) : outcome jsval :=
  match v with
  | JUndefined =>
      Throw (TypeError ("Cannot destructure property '" +:+ k +:+ "' of '(intermediate value)' as it is undefined."))
  | JNull =>
      Throw (TypeError ("Cannot destructure property '" +:+ k +:+ "' of '(intermediate value)' as it is null."))
  | v => Ret (get_field_opt v k)
  end.

Section GenerateImage.

(** The world of the server: the file system and the services behind
    the generators.  The generators, the image processing, [path.join],
    [fs], [Buffer] and the configuration are not the route's: it is
    stated over any of them.  [request_hash objectType style] is
    [md5(objectType + style + Date.now())]; [generateVideoAndFrames] is
    started and not awaited, so that the route sees of it what it does
    to the world before it first waits. *)
Variable W : Type.
Variable join : list string -> string.
Variable existsSync : string -> W -> bool.
Variable unlinkSync : string -> ST W unit.
Variable writeFileSync : string -> string -> ST W unit.
Variable copyFileSync : string -> string -> ST W unit.
Variable readFileSync : string -> ST W string.
Variable fromBase64 : string -> string.
Variable toBase64 : string -> string.
Variable request_hash : jsval -> jsval -> string.
Variable generateImageLocal : jsval -> jsval -> string -> ST W string.
Variable applyRoundedCornersAndBorder : string -> string -> ST W unit.
Variable resizeImage : string -> string -> ST W unit.
Variable generateStaticImage : jsval -> jsval -> string -> string -> string -> ST W jsval.
Variable generateVideoAndFrames : string -> string -> W -> W.
Variable generateImageWithGemini : string -> jsval -> jsval -> jsval -> string -> ST W unit.
Variable generateImageWithImagen : string -> jsval -> jsval -> string -> ST W unit.
Variable isLocalBackendEnabled : bool.
Variable inappropriateKeywords : list string.
Variable safetySettingsResponse : jsval.

(** The handler runs on the world and on the answers sent so far. *)
Definition Srv (A : Type) : Type := ST (W * list response) A.

Definition world {A} (m : ST W A) : Srv A :=
  fun s => let '(o, w) := m (fst s) in (o, (w, snd s)).

(** [res.send], [res.json]: a text is sent as it is. *)
Definition send (r : response) : Srv unit :=
  modify (fun s => (fst s, snd s ++ [r])).

Definition fs_existsSync (p : string) : Srv bool :=
  gets (fun s => existsSync p (fst s)).

(** The removal of the files left under the three names. *)
Definition clean_up (filepath filepathTemp filepathSmall : string) : Srv unit :=
  try_catch
    (do! there := fs_existsSync filepath in
     (if there then world (unlinkSync filepath) else ret tt) ;;
     do! there := fs_existsSync filepathTemp in
     (if there then world (unlinkSync filepathTemp) else ret tt) ;;
     do! there := fs_existsSync filepathSmall in
     (if there then world (unlinkSync filepathSmall) else ret tt))
    (fun cleanupError => ret tt).

(** The generation with the local model; the route has this block
    twice. *)
Definition generate_locally (objectType visualStylePrompt : jsval)
    (filepath filepathTemp filepathSmall : string) : Srv unit :=
  try_catch
    (do! base64Image := world (generateImageLocal objectType visualStylePrompt filepath) in
     let imageBuffer := fromBase64 base64Image in
     world (writeFileSync filepath imageBuffer) ;;
     world (applyRoundedCornersAndBorder filepath filepathTemp) ;;
     world (resizeImage filepathTemp filepathSmall) ;;
     world (copyFileSync filepathSmall filepath) ;;
     do! bitmap := world (readFileSync filepathSmall) in
     let result := toBase64 bitmap in
     send (mkResponse 200 (JStr result)))
    (fun error =>
       throw (Error ("Local model image generation failed: " +:+ Analysis.message_of error))).

(** The generation of a static image and, behind the answer, of the
    video and its frames. *)
Definition generate_veo (objectType visualStylePrompt : jsval) (hash : string)
    (filepath filepathSmall : string) : Srv unit :=
  try_catch
    (let filenameOriginal := "output_" +:+ hash +:+ "_original.png" in
     let filepathOriginal := join ["generated"; filenameOriginal] in
     do! static :=
       world (generateStaticImage objectType visualStylePrompt filepath filepathSmall
                filepathOriginal) in
     do! processedImage := lift (destructure "processedImage" static) in
     send (mkResponse 200
             (JObj (<["hash" := JStr hash]> (<["processedImage" := processedImage]> ∅)))) ;;
     world (modify (generateVideoAndFrames hash filepathOriginal)) ;;
     world (copyFileSync filepathSmall filepath))
    (fun error =>
       throw (Error ("Veo image generation failed: " +:+ Analysis.message_of error))).

(** What follows the generators that only write the file. *)
Definition finish (filepath filepathTemp filepathSmall : string) : Srv unit :=
  do! there := fs_existsSync filepath in
  if negb there then throw (Error ("Failed to create image file at " +:+ filepath))
  else
    world (applyRoundedCornersAndBorder filepath filepathTemp) ;;
    do! there := fs_existsSync filepathTemp in
    if negb there then
      throw (Error ("Failed to create temp image file at " +:+ filepathTemp))
    else
      world (resizeImage filepathTemp filepathSmall) ;;
      do! there := fs_existsSync filepathSmall in
      if negb there then
        throw (Error ("Failed to create small image file at " +:+ filepathSmall))
      else
        world (copyFileSync filepathSmall filepath) ;;
        do! bitmap := world (readFileSync filepathSmall) in
        let result := toBase64 bitmap in
        send (mkResponse 200 (JStr result)).

(** The choice of the generator, after the files are cleaned up. *)
Definition dispatch (backend inputImageData objectType visualStylePrompt : jsval)
    (hash filepath filepathTemp filepathSmall : string) : Srv unit :=
  if (is_text "local" backend || isLocalBackendEnabled)%bool then
    generate_locally objectType visualStylePrompt filepath filepathTemp filepathSmall
  else if is_text "veo" backend then
    generate_veo objectType visualStylePrompt hash filepath filepathSmall
  else if is_text "gemini" backend then
    world (generateImageWithGemini "gemini_generation" objectType
             (or_else inputImageData (JStr "")) visualStylePrompt filepath) ;;
    finish filepath filepathTemp filepathSmall
  else if is_text "imagen" backend then
    world (generateImageWithImagen "imagen_generation" objectType visualStylePrompt filepath) ;;
    finish filepath filepathTemp filepathSmall
  else if negb (truthy backend) then
    if isLocalBackendEnabled then
      generate_locally objectType visualStylePrompt filepath filepathTemp filepathSmall
    else throw (Error "No backend specified and local backend not enabled")
  else throw (Error ("Unsupported backend: " +:+ Stage.to_string backend)).

(** [POST /generateImage]. *)
Definition generateImage (body : propbag) : Srv unit :=
  try_catch
    (let prompt := default JUndefined (body !! "prompt") in
     let inputImageData := default JUndefined (body !! "imageData") in
     let backend := default JUndefined (body !! "backend") in
     let style := default JUndefined (body !! "style") in
     if negb (truthy prompt) then send (json_error 400 "Prompt is required")
     else
       do! flagged := lift (Analysis.moderate inappropriateKeywords prompt) in
       if flagged then send (mkResponse 200 safetySettingsResponse)
       else
         let objectType := prompt in
         let visualStylePrompt := or_else style (JStr "realistic") in
         let hash := request_hash objectType visualStylePrompt in
         let filename := "output_" +:+ hash +:+ ".png" in
         let filenameTemp := "output_" +:+ hash +:+ "_temp.png" in
         let filenameSmall := "output_" +:+ hash +:+ "_small.png" in
         let filepath := join ["generated"; filename] in
         let filepathTemp := join ["generated"; filenameTemp] in
         let filepathSmall := join ["generated"; filenameSmall] in
         clean_up filepath filepathTemp filepathSmall ;;
         dispatch backend inputImageData objectType visualStylePrompt hash
           filepath filepathTemp filepathSmall)
    (fun error => throw (Error "Error in generateImage")).

(** Code that sends no answer, and code that sends at most one. *)
Definition quiet {A} (m : Srv A) : Prop :=
  forall s, snd (snd (m s)) = snd s.

Definition answers_once {A} (m : Srv A) : Prop :=
  forall s, snd (snd (m s)) = snd s \/ exists r, snd (snd (m s)) = snd s ++ [r].

End GenerateImage.

End Generation.

(** ** Server: the local generation service (local-models-client.ts) *)

Module LocalModels.

Import Server Ollama.

Section LocalModels.

(** The file system, [path.join], [Buffer.from(v, "base64")] and the
    service are not the client's.  [fetch_frames prompt style] is what
    the service answers to the request for frames; [indexed v] gives
    [v[0]], ..., [v[v.length - 1]], as the loop reads them. *)
Variable FS : Type.
Variable join : list string -> string.
Variable existsSync : string -> FS -> bool.
Variable writeFileSync : string -> string -> ST FS unit.
Variable bufferFrom : jsval -> outcome string.
Variable indexed : jsval -> outcome (list jsval).
Variable fetch_frames : string -> string -> outcome reply.

(** The body of the loop that saves the frames. *)
Definition save_frame (outputDir hash : string) (frame : nat * jsval) : ST FS unit :=
  let framePath := join [outputDir; frame_file hash (fst frame)] in
  do! buffer := lift (bufferFrom (snd frame)) in
  writeFileSync framePath buffer.

(** [generateVideoFramesLocal]; its [catch] logs the error and throws it
    again. *)
Definition generateVideoFramesLocal (objectType visualStyle hash outputDir : string)
    : ST FS unit :=
  let prompt := "A beautiful " +:+ visualStyle +:+ " style short animation of a "
                +:+ objectType +:+ ", gently moving or floating in place" in
  do! response := lift (fetch_frames prompt visualStyle) in
  if negb (reply_ok response) then
    throw (Error ("HTTP " +:+ pretty (reply_status response) +:+ ": "
                  +:+ reply_statusText response))
  else
    do! data := lift (reply_json response) in
    do! frames := lift (get_field data "frames") in
    do! elements := lift (indexed frames) in
    for_each (imap (fun i frame => (i, frame)) elements) (save_frame outputDir hash).

End LocalModels.

End LocalModels.

(** ** A local service for the examples *)

Module SampleFrames.

Definition indexed (v : jsval) : outcome (list jsval) :=
  match v with
  | JArr l => Ret l
  | JUndefined | JNull => Throw (TypeError "Cannot read properties of undefined (reading 'length')")
  | _ => Ret []
  end.

Definition bufferFrom (v : jsval) : outcome string :=
  match v with
  | JStr s => Ret (SampleDisk.base64 s)
  | _ => Throw (TypeError "The first argument must be of type string")
  end.

(** The service answers two frames. *)
Definition fetch_frames (prompt style : string) : outcome Ollama.reply :=
  Ret (Ollama.mkReply true 200 "OK"
         (Ret (JObj {[ "frames" := JArr [JStr "first"; JStr "second"] ]}))).

Definition generateVideoFramesLocal : string -> string -> string -> string
    -> ST SampleDisk.Disk unit :=
  LocalModels.generateVideoFramesLocal SampleDisk.Disk SampleDisk.join
    SampleDisk.writeFileSync bufferFrom indexed fetch_frames.

End SampleFrames.

(** ** Client: the targets of a command (LivingCanvasStage) *)

Module Targets.

Import Stage.

Definition ignoreKey : list string := [""; "generating"; "user_generated_obj"].

(** [addTargetKeys(targets, key)]. *)
Definition addTargetKeys (targets : list string) (key : string) : list string :=
  if (bool_decide (key ∈ ignoreKey) || bool_decide (key ∈ targets))%bool then targets
  else targets ++ [key].

Section Targets.

(** The order in which [for (const key in obj.prop)] visits the keys of
    a property bag, and the comparison [v == true], are JavaScript's. *)
Variable keys_in_order : propbag -> list string.
Variable loosely_true : jsval -> bool.

(** One round of the loop over the keys of [obj.prop]. *)
Definition add_true_key (p : propbag) (targets : list string) (key : string) : list string :=
  if loosely_true (default JUndefined (p !! key)) then addTargetKeys targets key else targets.

(** One round of the loop over the world objects. *)
Definition add_object (targets : list string) (obj : Entity) : list string :=
  let targets := addTargetKeys targets (name obj) in
  match prop obj with
  | Some p => foldl (add_true_key p) targets (keys_in_order p)
  | None => targets
  end.

Definition getCurrentTargets : M (list string) :=
  do! worldObjects := getWorldObjectList None in
  do! objects := gets (fun s => omap (fun id => objs s !! id) worldObjects) in
  ret (foldl add_object [] objects).

End Targets.

(** A scene that differs from another at most in the objects [ids],
    none of which has come or gone. *)
Definition reshaped (ids : list nat) (s s' : Scene) : Prop :=
  with_objs (objs s) s' = s
  /\ dom (objs s') = dom (objs s)
  /\ forall id, id ∉ ids -> objs s' !! id = objs s !! id.

(** The handles of the world objects of the display list. *)
Definition world_ids (s : Scene) : list nat := map fst (world_objects s).

(** Every object among [ids] is there and has a property bag. *)
Definition bagged (ids : list nat) (s : Scene) : Prop :=
  forall id, id ∈ ids -> exists e, objs s !! id = Some e /\ is_Some (prop e).

End Targets.

(** ** Server: the local image service (local-models-client.ts) *)

Module LocalImages.

Import Server Ollama.

(** What [fetch] gives of the image service. *)
Record service_reply := mkServiceReply {
  service_ok : bool;
  service_status : nat;
  service_text : outcome string;
  service_json : outcome jsval
}.

(** [enhanced && enhanced.length > 0], then [enhanced.trim()]: a text
    that is not empty is trimmed, a value that is not truthy or has no
    length is passed over; any other value has no [trim], or is passed
    over as well: the prompt stays as it was either way. *)
Definition trimmed (enhanced : jsval) : outcome (option string) :=
  match enhanced with
  | JStr s => Ret (if String.eqb s "" then None else Some (Str.trim s))
  | JUndefined | JNull | JBool _ | JNum _ => Ret None
  | JArr l => if Nat.eqb (length l) 0 then Ret None
              else Throw (TypeError "enhanced.trim is not a function")
  | JObj _ => Throw (TypeError "enhanced.trim is not a function")
  end.

Section LocalImages.

(** The file system, [Buffer.from(v, "base64")], Ollama and the image
    service are not the client's.  [fetch_image prompt style] is what
    the service answers to the request for an image. *)
Variable FS : Type.
Variable existsSync : string -> FS -> bool.
Variable writeFileSync : string -> string -> ST FS unit.
Variable bufferFrom : jsval -> outcome string.
Variable fetch : list call -> call -> outcome reply.
Variable fetch_image : string -> jsval -> outcome service_reply.

(** The client runs on the file system and on the requests made to
    Ollama. *)
Definition Local (A : Type) : Type := ST (FS * list call) A.

Definition on_disk {A} (m : ST FS A) : Local A :=
  fun s => let '(o, fs) := m (fst s) in (o, (fs, snd s)).

Definition on_net {A} (m : Net A) : Local A :=
  fun s => let '(o, log) := m (snd s) in (o, (fst s, log)).

Definition default_prompt (objectType visualStyle : jsval) : string :=
  "A beautiful " +:+ Stage.to_string visualStyle +:+ " style image of a "
  +:+ Stage.to_string objectType.

(** The prompt, enhanced by Ollama when it can be. *)
Definition enhance (objectType visualStyle : jsval) : Net string :=
  let enhancedPrompt := default_prompt objectType visualStyle in
  try_catch
    (do! available := isOllamaAvailable fetch in
     if available then
       let enhancePrompt :=
         "Create a detailed visual description for generating an image of a "
         +:+ Stage.to_string objectType +:+ " in " +:+ Stage.to_string visualStyle
         +:+ " style. Be specific about details like color, texture, lighting, and composition. Keep it to 1-2 sentences." in
       do! enhanced := generateTextWithOllama fetch enhancePrompt in
       do! text := lift (trimmed enhanced) in
       ret (default enhancedPrompt text)
     else ret enhancedPrompt)
    (fun error => ret enhancedPrompt).

(** [generateImageLocal]; its [catch] logs the error and throws it
    again. *)
Definition generateImageLocal (objectType visualStyle : jsval) (filepath : string)
    : Local jsval :=
  do! enhancedPrompt := on_net (enhance objectType visualStyle) in
  do! response := lift (fetch_image enhancedPrompt visualStyle) in
  if negb (service_ok response) then
    do! errorText := lift (service_text response) in
    throw (Error ("HTTP " +:+ pretty (service_status response) +:+ ": " +:+ errorText))
  else
    do! data := lift (service_json response) in
    do! image_base64 := lift (get_field data "image_base64") in
    do! _ := lift (get_field image_base64 "length") in
    do! buffer := lift (bufferFrom image_base64) in
    on_disk (writeFileSync filepath buffer) ;;
    do! there := gets (fun s => existsSync filepath (fst s)) in
    if negb there then throw (Error ("Failed to save image to " +:+ filepath))
    else ret image_base64.

End LocalImages.

End LocalImages.

(** ** From the drawing route to the client *)

Module DrawingTransport.

Import Server Routes Ollama.

(** A [fetch] of the client that is answered by what the route
    [/analyze-drawing] sent: a JSON value as for any route; for an
    analysis, the object with [success: true] and the fields of the
    analysis, the confidence as the number it is. *)
Definition answers (sent : answer) (fetched : outcome Stage.http_response) : Prop :=
  match sent with
  | Plain r => delivers r fetched
  | Recognised a =>
      match fetched with
      | Ret h =>
          Stage.resp_status h = 200%nat /\ Stage.resp_ok h = true
          /\ exists (fields : propbag) (number : jsval),
               Stage.resp_json h = Ret (JObj fields)
               /\ fields !! "success" = Some (JBool true)
               /\ fields !! "objectType" = Some (JStr (objectType a))
               /\ fields !! "confidence" = Some number
               /\ fields !! "description" = Some (JStr (description a))
               /\ fields !! "properties" = Some (JObj (properties a))
      | Throw _ => True
      end
  end.

End DrawingTransport.

(** ** The candle, as the client fetches it *)

Module SampleDrawing.

Import Ollama.

Definition analysis : DrawingAnalysis :=
  read_analysis SampleOllama.parseFloat SampleOllama.answer_text.

(** The confidence 0.9 is a number the stage does not compute with. *)
Definition fields : propbag :=
  <["success" := JBool true]> (<["objectType" := JStr (objectType analysis)]>
  (<["confidence" := JNum 1]> (<["description" := JStr (description analysis)]>
  (<["properties" := JObj (properties analysis)]> ∅)))).

Definition fetched : outcome Stage.http_response :=
  Ret (Stage.mkHttp true 200 true "" (Ret (JObj fields))).

Definition request_body : propbag := {[ "imageData" := SampleOllama.drawing ]}.

End SampleDrawing.

(** ** A drawing the model refuses *)

Module SampleBlocked.

Import Analysis.

(** A model that stops every request for safety. *)
Definition model (log : list request) (r : request) : ai_answer :=
  Answered (Some "SAFETY") None.

(** The body of the request: a data URL, 22 characters and the image. *)
Definition request_body : propbag :=
  <["prompt" := JStr "data:image/png;base64,iVBORw0KGgo="]> ∅.

Definition analyseImage : propbag -> AI Server.response :=
  AnalysisRoutes.analyseImage model SampleAI.JSON_parse get_field SampleAI.prompts
    SampleAI.types SampleAI.attributes AIConfig.default_inappropriateKeywords
    AIConfig.default_safetySettingsResponse.

(** The first backend is down, the second one answers the safety
    response. *)
Definition blocked_run : Stage.CanvasRun :=
  Stage.mkRun "imagen" 100 100 "drawing" (Ret (Sample.failed_response 503))
    Sample.blocked_response (Ret (Sample.failed_response 500)) Sample.never_ready.

End SampleBlocked.

(** * Properties *)

(** ** The server *)

Section ServerFacts.

Import Server.

Lemma initial_properties_dom : dom initial_properties = trait_set.
Proof.
  unfold initial_properties, trait_set, trait_names.
  rewrite !dom_insert_L, dom_empty_L. simpl. set_solver.
Qed.

Lemma insert_known (D : gset string) (k : string) (v : jsval) (m : propbag) :
  k ∈ D -> dom m = D -> dom (<[k := v]> m) = D.
Proof.
  intros Hk Hm. rewrite dom_insert_L, Hm.
  apply subseteq_union_1_L. by apply singleton_subseteq_l.
Qed.

Lemma insert_trait (k : string) (v : jsval) (m : propbag) :
  bool_decide (k ∈ trait_set) = true -> dom m = trait_set -> dom (<[k := v]> m) = trait_set.
Proof. intros Hk. apply insert_known. by apply bool_decide_eq_true_1 in Hk. Qed.

Ltac trait_dom H :=
  repeat (apply insert_trait; [vm_compute; reflexivity | ]); exact H.

Lemma apply_word_dom (m : propbag) (w : string) :
  dom m = trait_set -> dom (apply_word m w) = trait_set.
Proof.
  intros H. unfold apply_word.
  repeat match goal with
         | |- context [if ?b then _ else _] => destruct b
         end; trait_dom H.
Qed.

Lemma foldl_apply_word_dom (ws : list string) (m : propbag) :
  dom m = trait_set -> dom (foldl apply_word m ws) = trait_set.
Proof.
  revert m. induction ws as [ | w ws IH]; intros m H; simpl; [exact H | ].
  apply IH, apply_word_dom, H.
Qed.

Lemma apply_overrides_dom (t : string) (m : propbag) :
  dom m = trait_set -> dom (apply_overrides t m) = trait_set.
Proof.
  intros H. unfold apply_overrides.
  repeat match goal with
         | |- context [if ?b then _ else _] => destruct b
         end; trait_dom H.
Qed.

Lemma words_override_wind (m : propbag) :
  apply_overrides "wind" m !! "blows" = Some (JBool true)
  ∧ apply_overrides "wind" m !! "solid" = Some (JBool false)
  ∧ apply_overrides "wind" m !! "falls" = Some (JBool false).
Proof. unfold apply_overrides. simpl. by simplify_map_eq. Qed.

(** C10. For every object type, property string and confidence,
    [parsePropertiesFromString] returns a record whose keys are exactly
    the fourteen traits, and the type-specific overrides win over the
    listed words: for the type "wind" the result has [blows] true, [solid]
    false and [falls] false whatever the words are (and likewise "fire",
    "candle" and "flame" burn, are solid and fall; "ice" is ice; "water"
    drips, douses and falls). *)
Theorem parsePropertiesFromString_traits
    (objectType propertiesStr : string) (confidence : Q) :
  dom (parsePropertiesFromString objectType propertiesStr confidence)
    = list_to_set trait_names
  ∧ length trait_names = 14%nat
  ∧ NoDup trait_names
  ∧ (parsePropertiesFromString "wind" propertiesStr confidence !! "blows" = Some (JBool true)
     ∧ parsePropertiesFromString "wind" propertiesStr confidence !! "solid" = Some (JBool false)
     ∧ parsePropertiesFromString "wind" propertiesStr confidence !! "falls" = Some (JBool false))
  ∧ (∀ t, t ∈ ["fire"; "candle"; "flame"] →
       parsePropertiesFromString t propertiesStr confidence !! "burns" = Some (JBool true)
       ∧ parsePropertiesFromString t propertiesStr confidence !! "solid" = Some (JBool true)
       ∧ parsePropertiesFromString t propertiesStr confidence !! "falls" = Some (JBool true))
  ∧ parsePropertiesFromString "ice" propertiesStr confidence !! "ice" = Some (JBool true)
  ∧ (parsePropertiesFromString "water" propertiesStr confidence !! "drips" = Some (JBool true)
     ∧ parsePropertiesFromString "water" propertiesStr confidence !! "douses" = Some (JBool true)
     ∧ parsePropertiesFromString "water" propertiesStr confidence !! "falls" = Some (JBool true)).
Proof.
  split; [ | split; [reflexivity | split] ].
  - unfold parsePropertiesFromString.
    apply apply_overrides_dom, foldl_apply_word_dom, initial_properties_dom.
  - unfold trait_names. repeat (constructor; [set_solver | ]). constructor.
  - split; [apply words_override_wind | ].
    split.
    + intros t Ht. unfold parsePropertiesFromString, apply_overrides.
      repeat (apply elem_of_cons in Ht as [-> | Ht]); [ | | | by apply elem_of_nil in Ht ];
        simpl; by simplify_map_eq.
    + unfold parsePropertiesFromString, apply_overrides; simpl.
      repeat split; by simplify_map_eq.
Qed.

(** C9. [GET /checkFrames/:hash]: a missing or empty hash is answered
    with status 400 and no probe of the file system; for any other hash
    the answer has [total] 4, [progress] the number of the four frame
    files that exist, and [ready] true exactly when all four exist; the
    four files, and only they, are probed. *)
Theorem checkFrames_ready_iff_all_frames
    (join : list string -> string) (existsSync : string -> bool)
    (c : ascii) (h : string) :
  let hash := String c h in
  let path := fun i => join [join ["generated"]; "output_" +:+ hash +:+ "_frame" +:+ pretty i +:+ ".png"] in
  let paths := map path (seq 0 4) in
  let bad := mkResponse 400 (JObj {[ "error" := JStr "Hash parameter is required" ]}) in
  checkFrames join existsSync None = (bad, [])
  ∧ checkFrames join existsSync (Some "") = (bad, [])
  ∧ ∃ (ready : bool) (progress : nat),
      checkFrames join existsSync (Some hash)
        = (mkResponse 200 (JObj (<["ready" := JBool ready]>
                                 (<["progress" := JNum (Z.of_nat progress)]>
                                 (<["total" := JNum 4]> ∅)))),
           paths)
      ∧ (ready = true ↔ ∀ i, (i < 4)%nat → existsSync (path i) = true)
      ∧ progress = length (filter (fun p => existsSync p = true) paths).
Proof.
  intros hash path paths bad.
  split; [reflexivity | split; [reflexivity | ] ].
  unfold checkFrames. fold hash. cbn [count_frames].
  change (join [join ["generated"]; frame_file hash 0]) with (path 0%nat).
  change (join [join ["generated"]; frame_file hash 1]) with (path 1%nat).
  change (join [join ["generated"]; frame_file hash 2]) with (path 2%nat).
  change (join [join ["generated"]; frame_file hash 3]) with (path 3%nat).
  assert (Hall : (∀ i, (i < 4)%nat → existsSync (path i) = true)
                 ↔ existsSync (path 0%nat) = true ∧ existsSync (path 1%nat) = true
                   ∧ existsSync (path 2%nat) = true ∧ existsSync (path 3%nat) = true).
  { split.
    - intros H. repeat split; apply H; lia.
    - intros (H0 & H1 & H2 & H3) i Hi.
      destruct i as [ | [ | [ | [ | i] ] ] ]; try assumption; lia. }
  unfold paths. cbn [seq map].
  rewrite !filter_cons, filter_nil.
  destruct (existsSync (path 0%nat)) eqn:E0, (existsSync (path 1%nat)) eqn:E1,
           (existsSync (path 2%nat)) eqn:E2, (existsSync (path 3%nat)) eqn:E3;
    eexists _, _; (split; [reflexivity | ]);
    (split; [ rewrite Hall; simpl; intuition congruence
            | repeat case_decide; try congruence; reflexivity ]).
Qed.

End ServerFacts.

(** ** Property resolution *)

Section ResolutionFacts.

Import Stage.

Variable zero dflt : propbag.

Local Abbreviation extract := (extractPropertiesFromGeminiData zero dflt).

Lemma mark_attribute_lookup (l : list jsval) (ks : list string) (m : propbag) (k : string) :
  foldl (mark_attribute l) m ks !! k
  = if bool_decide (k ∈ ks ∧ indexOf_found l k = true) then Some (JBool true) else m !! k.
Proof.
  revert m. induction ks as [ | k0 ks IH]; intros m; cbn [foldl].
  - case_bool_decide as H; [ | done]. destruct H as [H _]. by apply elem_of_nil in H.
  - rewrite IH. unfold mark_attribute.
    destruct (decide (k = k0)) as [-> | Hne].
    + destruct (indexOf_found l k0) eqn:E.
      * rewrite lookup_insert_eq. repeat case_bool_decide; set_solver.
      * repeat case_bool_decide; naive_solver.
    + destruct (indexOf_found l k0) eqn:E; rewrite ?lookup_insert_ne by done;
        repeat case_bool_decide; set_solver.
Qed.

Lemma mark_attribute_dom (l : list jsval) (m : propbag) :
  dom (foldl (mark_attribute l) m (map fst (map_to_list m))) = dom m.
Proof.
  apply set_eq. intros k. rewrite !elem_of_dom, mark_attribute_lookup.
  case_bool_decide as H; [ | done].
  destruct H as [Hin _].
  apply list_elem_of_fmap in Hin as [[k' v] [-> Hin] ].
  apply elem_of_map_to_list in Hin. simpl. rewrite Hin. split; eauto.
Qed.

Lemma spread_lookup (a b : propbag) (k : string) :
  spread a b !! k = match b !! k with Some v => Some v | None => a !! k end.
Proof. unfold spread. rewrite lookup_union. destruct (b !! k), (a !! k); done. Qed.

Lemma spread_dom (a b : propbag) : dom (spread a b) = dom a ∪ dom b.
Proof. unfold spread. rewrite dom_union_L. set_solver. Qed.

Lemma merge_final_dom (bag : propbag) :
  dom (merge_final dflt bag) = dom dflt ∪ dom bag ∪ {["user_generated_obj"]}.
Proof. unfold merge_final. rewrite dom_insert_L, spread_dom. set_solver. Qed.

(** The three ways out of [extractPropertiesFromGeminiData]. *)
Lemma extract_cases (rawData : jsval) :
  let properties := get_field_opt rawData "properties" in
  let attributes := get_field_opt rawData "attributes" in
  extract rawData =
    if (truthy properties && typeof_object properties)%bool
    then Ret (spread zero (own_props properties))
    else match attributes with
         | JArr l => Ret (foldl (mark_attribute l) zero (map fst (map_to_list zero)))
         | _ => Ret dflt
         end.
Proof.
  unfold extractPropertiesFromGeminiData.
  destruct rawData; simpl; try reflexivity.
Qed.

(** C1, as amended.  [extractPropertiesFromGeminiData] never throws, and
    the keys of its result are: the keys of [getZeroWorldObjProp] for a
    response in the attribute-list format; the keys of
    [getDefaultWorldObjProp] for an unknown format; and, for a response in
    the property-map format, the keys of [getZeroWorldObjProp] together
    with every key of the response's [properties] object, which is
    spread into the result as it is.  So the result stays within the
    closed vocabulary when the [properties] object names only traits of
    the vocabulary.  [finalProperties] has the keys of the defaults,
    those of the extracted set, and [user_generated_obj]. *)
Theorem extractPropertiesFromGeminiData_keys (rawData : jsval) :
  let properties := get_field_opt rawData "properties" in
  let attributes := get_field_opt rawData "attributes" in
  ∃ bag, extract rawData = Ret bag
    ∧ dom bag ⊆ dom zero ∪ dom dflt ∪ dom (own_props properties)
    ∧ (∀ props, properties = JObj props → bag = spread zero props ∧ dom bag = dom zero ∪ dom props)
    ∧ (∀ l, (truthy properties && typeof_object properties)%bool = false →
            attributes = JArr l → dom bag = dom zero)
    ∧ ((truthy properties && typeof_object properties)%bool = false →
       isArray attributes = false → bag = dflt)
    ∧ dom (merge_final dflt bag) = dom dflt ∪ dom bag ∪ {["user_generated_obj"]}.
Proof.
  intros properties attributes.
  pose proof (extract_cases rawData) as Hc. cbv zeta in Hc.
  fold properties attributes in Hc.
  destruct (truthy properties && typeof_object properties)%bool eqn:Hobj.
  - eexists; split; [exact Hc | ].
    split; [rewrite spread_dom; set_solver | ].
    split; [intros props Hp; rewrite Hp; simpl; split; [done | apply spread_dom] | ].
    split; [discriminate | ].
    split; [discriminate | apply merge_final_dom].
  - destruct attributes as [ | | | | | l | ] eqn:Hattr;
      (eexists; split; [exact Hc | ]);
      (split; [try rewrite mark_attribute_dom; set_solver | ]);
      (split; [intros props Hp; rewrite Hp in Hobj; discriminate | ]);
      (split; [intros l' _ Hl; try discriminate; apply mark_attribute_dom | ]);
      (split; [intros _ Harr; try discriminate; reflexivity | apply merge_final_dom]).
Qed.

(** Property resolution never throws; what it returns, by format. *)
Lemma extract_resolution_cases (rawData : jsval) :
  let properties := get_field_opt rawData "properties" in
  let attributes := get_field_opt rawData "attributes" in
  ∃ bag, extract rawData = Ret bag
    ∧ (is_nullish rawData = true → bag = dflt)
    ∧ ((truthy properties && typeof_object properties)%bool = false →
       isArray attributes = false → bag = dflt)
    ∧ (∀ props k, properties = JObj props →
         bag !! k = match props !! k with Some v => Some v | None => zero !! k end)
    ∧ (∀ l k, (truthy properties && typeof_object properties)%bool = false →
         attributes = JArr l →
         bag !! k = if indexOf_found l k then (fun _ => JBool true) <$> (zero !! k) else zero !! k)
    ∧ (∀ k, k ≠ "user_generated_obj" →
         merge_final dflt bag !! k = match bag !! k with Some v => Some v | None => dflt !! k end).
Proof.
  intros properties attributes.
  pose proof (extract_cases rawData) as Hc. cbv zeta in Hc.
  fold properties attributes in Hc.
  assert (Hmerge : ∀ bag k, k ≠ "user_generated_obj" →
            merge_final dflt bag !! k = match bag !! k with Some v => Some v | None => dflt !! k end).
  { intros bag k Hk. unfold merge_final. rewrite lookup_insert_ne by done. apply spread_lookup. }
  destruct (truthy properties && typeof_object properties)%bool eqn:Hobj.
  - eexists; split; [exact Hc | ].
    split.
    { intros Hn. destruct rawData; try discriminate; subst properties; simpl in Hobj; discriminate. }
    split; [discriminate | ].
    split; [intros props k Hp; rewrite Hp; simpl; apply spread_lookup | ].
    split; [discriminate | apply Hmerge].
  - assert (Hnull : is_nullish rawData = true → attributes = JUndefined).
    { intros Hn. destruct rawData; try discriminate; reflexivity. }
    destruct attributes as [ | | | | | l | ] eqn:Hattr;
      (eexists; split; [exact Hc | ]);
      (split; [intros Hn; try reflexivity; specialize (Hnull Hn); discriminate | ]);
      (split; [intros _ Harr; try discriminate; reflexivity | ]);
      (split; [intros props k Hp; rewrite Hp in Hobj; discriminate | ]);
      (split; [intros l' k _ Hl; try discriminate | apply Hmerge]).
    injection Hl as <-. rewrite mark_attribute_lookup.
    destruct (indexOf_found l k) eqn:E.
    + destruct (zero !! k) as [v | ] eqn:Hz; simpl.
      * rewrite bool_decide_eq_true_2; [done | ].
        split; [ | done]. apply list_elem_of_fmap. exists (k, v).
        split; [done | by apply elem_of_map_to_list].
      * rewrite bool_decide_eq_false_2; [done | ].
        intros [Hin _]. apply list_elem_of_fmap in Hin as [[k' v] [-> Hin] ].
        apply elem_of_map_to_list in Hin. simpl in Hz. congruence.
    + rewrite bool_decide_eq_false_2; [done | ]. intros [_ ?]; discriminate.
Qed.

End ResolutionFacts.

(** C1 as stated fails: a response in the property-map format carrying
    a key outside the vocabulary keeps that key in the extracted set and
    in [finalProperties]. *)
Lemma extract_keeps_unknown_trait :
  let rawData :=
    JObj (<["type" := JStr "cat"]>
         (<["properties" := JObj {["sparkly" := JBool true]}]> ∅)) in
  ∃ bag,
    Stage.extractPropertiesFromGeminiData Sample.zeroProp Sample.defaultProp rawData = Ret bag
    ∧ "sparkly" ∈ dom bag
    ∧ ("sparkly" ∉ (dom Sample.zeroProp ∪ dom Sample.defaultProp))
    ∧ "sparkly" ∈ dom (Stage.merge_final Sample.defaultProp bag).
Proof.
  eexists. split; [reflexivity | ].
  split; [apply elem_of_dom; by eexists | ].
  split.
  - rewrite not_elem_of_union, !not_elem_of_dom. split; reflexivity.
  - apply elem_of_dom. by eexists.
Qed.

(** ** The command surface against the collision rule *)

Section ElectrifyFacts.

Import Stage.

Lemma assign_rusted_of_rusted (e : Entity) :
  prop_truthy e "rusted" = true →
  ∃ p, prop e = Some p
       ∧ assign_prop "rusted" (JBool false) e = Ret (with_prop (Some (<["rusted" := JBool false]> p)) e).
Proof.
  unfold prop_truthy, assign_prop. destruct (prop e) as [p | ]; [ | discriminate].
  intros _. by exists p.
Qed.

(** C7, as amended.  On a target that is a [RustedKey], or that is not
    rusted, the [electrify] verb and the conduction rule apply the same
    change.  On any rusted target both clear [rusted] in the same way;
    the conduction rule sets the texture [key] on every rusted target,
    the verb only on a [RustedKey], leaving the texture of any other
    object as it was.  The same holds for the stores: when the objects
    of the scene are those in contact, electrifying a [RustedKey] leaves
    the objects the conduction rule leaves. *)
Theorem electrify_agrees_on_rusted_keys (e : Entity) :
  (prop_truthy e "rusted" = false → electrify e = Ret e)
  ∧ (prop_truthy e "rusted" = true →
       ∃ e1 e2, electrify e = Ret e1 ∧ derust e = Ret e2
         ∧ prop e1 = prop e2
         ∧ prop_truthy e1 "rusted" = false
         ∧ texture e2 = Some "key"
         ∧ texture e1 = (if instanceof_RustedKey (kind e) then Some "key" else texture e)
         ∧ (kind e = RustedKey → e1 = e2))
  ∧ (∀ (s : Scene) (w : World) (source target : nat),
       objs s = w_objs w → objs s !! target = Some e → kind e = RustedKey →
       (match w_objs w !! source with Some l => prop_truthy l "lightning" | None => false end) = true →
       fst (on_scene_object target electrify s) = Ret tt
       ∧ fst (conduct source target w) = Ret tt
       ∧ objs (snd (on_scene_object target electrify s)) = w_objs (snd (conduct source target w))).
Proof.
  split; [ | split].
  - intros H. unfold electrify. by rewrite H.
  - intros H. destruct (assign_rusted_of_rusted e H) as (p & Hp & Ha).
    unfold electrify, derust. rewrite H, Ha. simpl.
    eexists _, _. split; [reflexivity | ]. split; [reflexivity | ].
    destruct (kind e); simpl;
      (split; [reflexivity | ]);
      (split; [unfold prop_truthy; simpl; by rewrite lookup_insert_eq | ]);
      (split; [reflexivity | ]);
      (split; [reflexivity | ]);
      intros; try discriminate; reflexivity.
  - intros s w source target Hobjs He Hk Hl.
    unfold on_scene_object, on_world_object, on_object, conduct, object_prop_truthy,
      bind, gets, lift, modify, ret, throw.
    cbn. rewrite Hl. rewrite <- Hobjs, He.
    unfold electrify, derust.
    destruct (prop_truthy e "rusted") eqn:Hr.
    + destruct (assign_rusted_of_rusted e Hr) as (p & Hp & Ha).
      rewrite Ha. cbn. rewrite Hk. cbn. rewrite <- Hobjs, He.
      unfold bind, lift, modify. cbn. rewrite Ha. cbn. rewrite <- Hobjs. done.
    + cbn. split; [done | ]. split; [done | ].
      rewrite <- Hobjs. by apply insert_id.
Qed.

End ElectrifyFacts.

(** An instance of [electrify_agrees_on_rusted_keys]: a rusted key is
    changed in the same way by the verb and by the rule. *)
Lemma electrify_agrees_witness :
  let key := Stage.mkEntity Stage.RustedKey "key" (Some {["rusted" := JBool true]})
               (Some "rusted_key") 1 0 ∅ ∅ None in
  ∃ e1 e2, Stage.electrify key = Ret e1 ∧ Stage.derust key = Ret e2 ∧ e1 = e2.
Proof.
  intros key.
  destruct (electrify_agrees_on_rusted_keys key) as (_ & H & _).
  destruct (H eq_refl) as (e1 & e2 & H1 & H2 & _ & _ & _ & _ & Heq).
  exists e1, e2. split; [exact H1 | ]. split; [exact H2 | ]. apply Heq. reflexivity.
Defined.

(** C7 as stated fails: on a rusted object that is not a [RustedKey]
    the conduction rule switches the texture to [key] and the
    [electrify] verb does not. *)
Lemma electrify_diverges_on_other_objects :
  let gate := Stage.mkEntity Stage.PlainWorldObject "gate" (Some {["rusted" := JBool true]})
                (Some "gate") 1 0 ∅ ∅ None in
  let bolt := Stage.mkEntity Stage.PlainWorldObject "bolt" (Some {["lightning" := JBool true]})
                (Some "bolt") 1 0 ∅ ∅ None in
  let s := Stage.with_children [1; 2]%nat
             (Stage.with_objs (<[1%nat := bolt]> (<[2%nat := gate]> ∅)) Sample.emptyScene) in
  let w := Stage.mkWorld (<[1%nat := bolt]> (<[2%nat := gate]> ∅)) ∅ [] in
  let byCommand := snd (Stage.processCommand Sample.addFire Sample.clearEffects Sample.addWet
                          Sample.createMagneticForce Sample.updateMagneticField
                          "electrify" "all" (fun _ => 100) s) in
  let byContact := snd (Stage.collisionactive Sample.canSetFire Sample.addFire
                          [(Stage.mkBody 10 (Some 1%nat), Stage.mkBody 20 (Some 2%nat))] w) in
  (Stage.texture <$> Stage.objs byCommand !! 2%nat) = Some (Some "gate")
  ∧ (Stage.texture <$> Stage.w_objs byContact !! 2%nat) = Some (Some "key")
  ∧ Stage.electrify gate ≠ Stage.derust gate.
Proof.
  cbv zeta. split; [vm_compute; reflexivity | ].
  split; [vm_compute; reflexivity | ].
  vm_compute. discriminate.
Qed.

(** ** The water *)

Section WaterFacts.

Import Stage.

Variable addWet : Entity -> Entity.

Ltac run_st :=
  unfold collisionstart_pair, collisionend_pair, createSplash, addFloating, removeFloating,
    wet_game_object, on_world_object, on_object, object_prop_truthy,
    bind, gets, lift, modify, ret, throw; cbn.

(** C5, as amended.  At contact-begin a body paired with the water
    sensor gets a splash with the water's friction and the floating
    status; at contact-end it gets a splash with the air's friction and
    loses the floating status.  When both bodies of a pair belong to
    game objects and one of the objects has [heavy] true while the
    other has not, the floating status is taken from the other body,
    whose [floats] trait is set to false: the heavy body keeps the
    status it had.  All of this holds whichever body is reported
    first. *)
Theorem water_contact_rules (sensor : nat) (frictionWater frictionAir : Q)
    (w : World) (bodyA bodyB : Body) :
  (body_id bodyA = sensor → body_id bodyB ≠ sensor → gameObject bodyA = None →
     ∀ pair, pair = (bodyA, bodyB) ∨ pair = (bodyB, bodyA) →
     let r := collisionstart_pair addWet sensor frictionWater pair w in
     fst r = Ret tt
     ∧ floating (snd r) = {[body_id bodyB]} ∪ floating w
     ∧ splashes (snd r) = splashes w ++ [(body_id bodyB, frictionWater)])
  ∧ (body_id bodyA = sensor → body_id bodyB ≠ sensor →
     ∀ pair, pair = (bodyA, bodyB) ∨ pair = (bodyB, bodyA) →
     let r := collisionend_pair sensor frictionAir pair w in
     fst r = Ret tt
     ∧ floating (snd r) = floating w ∖ {[body_id bodyB]}
     ∧ splashes (snd r) = splashes w ++ [(body_id bodyB, frictionAir)]
     ∧ w_objs (snd r) = w_objs w)
  ∧ (∀ a b ea eb pb,
     body_id bodyA ≠ sensor → body_id bodyB ≠ sensor → body_id bodyA ≠ body_id bodyB →
     gameObject bodyA = Some a → gameObject bodyB = Some b → a ≠ b →
     w_objs w !! a = Some ea → w_objs w !! b = Some eb → prop eb = Some pb →
     prop_truthy ea "heavy" = true → prop_truthy eb "heavy" = false →
     ∀ pair, pair = (bodyA, bodyB) ∨ pair = (bodyB, bodyA) →
     let r := collisionstart_pair addWet sensor frictionWater pair w in
     fst r = Ret tt
     ∧ floating (snd r) = floating w ∖ {[body_id bodyB]}
     ∧ w_objs (snd r) = <[b := with_prop (Some (<["floats" := JBool false]> pb)) eb]> (w_objs w)
     ∧ (body_id bodyA ∈ floating (snd r) ↔ body_id bodyA ∈ floating w)).
Proof.
  split; [ | split].
  - intros HA HB HgA pair [-> | ->]; cbv zeta.
    + run_st. rewrite HA, Nat.eqb_refl. cbn.
      apply Nat.eqb_neq in HB. rewrite HB, HgA. cbn.
      destruct (gameObject bodyB); cbn; done.
    + run_st. rewrite HA, Nat.eqb_refl.
      apply Nat.eqb_neq in HB. rewrite HB, HgA. cbn.
      destruct (gameObject bodyB); cbn; done.
  - intros HA HB pair [-> | ->]; cbv zeta.
    + run_st. rewrite HA, Nat.eqb_refl. cbn.
      apply Nat.eqb_neq in HB. rewrite HB. cbn. done.
    + run_st. rewrite HA, Nat.eqb_refl.
      apply Nat.eqb_neq in HB. rewrite HB. cbn. done.
  - intros a b ea eb pb HA HB HAB HgA HgB Hab Hea Heb Hpb Hha Hhb pair Hpair.
    assert (Hhb' : prop_truthy (with_prop (Some (<["floats" := JBool false]> pb)) eb) "heavy" = false).
    { unfold prop_truthy in *. rewrite Hpb in Hhb. cbn. by rewrite lookup_insert_ne. }
    apply Nat.eqb_neq in HA, HB.
    destruct Hpair as [-> | ->]; cbv zeta; run_st; rewrite HA, HB, HgA, HgB; cbn.
    + rewrite Hea, Hha. cbn. rewrite Heb. unfold assign_prop. rewrite Hpb. cbn.
      rewrite lookup_insert_eq, Hhb'. cbn.
      split; [done | ]. split; [done | ]. split; [done | ]. set_solver.
    + rewrite Heb, Hhb. cbn. rewrite Hea, Hha. cbn. rewrite Heb.
      unfold assign_prop. rewrite Hpb. cbn.
      split; [done | ]. split; [done | ]. split; [done | ]. set_solver.
Qed.

End WaterFacts.

(** An instance of [water_contact_rules]: an anvil lands on a boat that
    floats; the boat loses the floating status and the anvil keeps
    what it had. *)
Lemma water_contact_witness :
  let anvil := Stage.mkEntity Stage.PlainWorldObject "anvil" (Some {["heavy" := JBool true]})
                 None 1 0 ∅ ∅ None in
  let boat := Stage.mkEntity Stage.PlainWorldObject "boat" (Some {["floats" := JBool true]})
                None 1 0 ∅ ∅ None in
  let w := Stage.mkWorld (<[1%nat := anvil]> (<[2%nat := boat]> ∅)) {[11%nat; 12%nat]} [] in
  let r := Stage.collisionstart_pair Sample.addWet 0 (9 # 10)
             (Stage.mkBody 11 (Some 1%nat), Stage.mkBody 12 (Some 2%nat)) w in
  Stage.floating (snd r) = Stage.floating w ∖ {[12%nat]}
  ∧ (11%nat ∈ Stage.floating (snd r) ↔ 11%nat ∈ Stage.floating w).
Proof.
  intros anvil boat w r.
  destruct (water_contact_rules Sample.addWet 0 (9 # 10) 0 w
              (Stage.mkBody 11 (Some 1%nat)) (Stage.mkBody 12 (Some 2%nat))) as (_ & _ & H).
  destruct (H 1%nat 2%nat anvil boat {["floats" := JBool true]}
              ltac:(simpl; lia) ltac:(simpl; lia) ltac:(simpl; lia)
              eq_refl eq_refl ltac:(lia) eq_refl eq_refl eq_refl eq_refl eq_refl
              _ (or_introl eq_refl)) as (_ & Hf & _ & Hkeep).
  split; [exact Hf | exact Hkeep].
Defined.

(** C5 as stated fails: a heavy body that enters the water gets the
    floating status and keeps it, and a heavy body that floats keeps
    floating when it touches another object. *)
Lemma heavy_body_keeps_floating :
  let anvil := Stage.mkEntity Stage.PlainWorldObject "anvil" (Some {["heavy" := JBool true]})
                 None 1 0 ∅ ∅ None in
  let boat := Stage.mkEntity Stage.PlainWorldObject "boat" (Some {["floats" := JBool true]})
                None 1 0 ∅ ∅ None in
  let objects : gmap nat Stage.Entity := <[1%nat := anvil]> (<[2%nat := boat]> ∅) in
  let sensor := Stage.mkBody 0 None in
  let anvilBody := Stage.mkBody 11 (Some 1%nat) in
  let boatBody := Stage.mkBody 12 (Some 2%nat) in
  let entering := Stage.collisionstart Sample.addWet 0 (9 # 10) [(sensor, anvilBody)]
                    (Stage.mkWorld objects ∅ []) in
  let touching := Stage.collisionstart Sample.addWet 0 (9 # 10) [(anvilBody, boatBody)]
                    (Stage.mkWorld objects {[11%nat; 12%nat]} []) in
  Stage.prop_truthy anvil "heavy" = true
  ∧ fst entering = Ret tt ∧ 11%nat ∈ Stage.floating (snd entering)
  ∧ fst touching = Ret tt ∧ 11%nat ∈ Stage.floating (snd touching)
  ∧ 12%nat ∉ Stage.floating (snd touching).
Proof.
  cbv zeta. split; [reflexivity | ].
  split; [reflexivity | ]. split; [vm_compute; set_solver | ].
  split; [reflexivity | ].
  split; [ | ]; vm_compute; set_solver.
Qed.

(** ** The conduction rule *)

Section ConductionFacts.

Import Stage.

Variable canSetFire : Entity -> bool.
Variable addFire : jsval -> Entity -> Entity.
Variable addWet : Entity -> Entity.

(** Setting an object alight changes neither what the conduction rule
    reads of it nor its texture. *)
Hypothesis addFire_keeps : ∀ f e,
  prop_truthy (addFire f e) "rusted" = prop_truthy e "rusted"
  ∧ prop_truthy (addFire f e) "lightning" = prop_truthy e "lightning"
  ∧ texture (addFire f e) = texture e.

(** Neither does wetting it. *)
Hypothesis addWet_keeps : ∀ e,
  prop_truthy (addWet e) "rusted" = prop_truthy e "rusted"
  ∧ prop_truthy (addWet e) "lightning" = prop_truthy e "lightning"
  ∧ texture (addWet e) = texture e.

Lemma same_view_refl (w : World) : same_view w w.
Proof. intros id. by repeat split. Qed.

Lemma same_view_trans (w1 w2 w3 : World) :
  same_view w1 w2 -> same_view w2 w3 -> same_view w1 w3.
Proof.
  intros H12 H23 id. destruct (H12 id) as (<- & <- & <-). apply H23.
Qed.

Lemma same_view_sym (w1 w2 : World) : same_view w1 w2 -> same_view w2 w1.
Proof. intros H id. destruct (H id) as (-> & -> & ->). by repeat split. Qed.

Lemma same_objs_view (w w' : World) : w_objs w' = w_objs w -> same_view w w'.
Proof. intros H id. unfold rusted_of, lightning_of, texture_of. rewrite H. by repeat split. Qed.

Lemma alter_addFire_view (f : jsval) (t : nat) (w : World) :
  same_view w (with_w_objs (alter (addFire f) t (w_objs w)) w).
Proof.
  intros id. unfold rusted_of, lightning_of, texture_of. cbn.
  destruct (decide (t = id)) as [-> | Hne].
  - rewrite lookup_alter_eq. destruct (w_objs w !! id) as [e | ]; cbn; [ | done].
    destruct (addFire_keeps f e) as (-> & -> & ->). done.
  - rewrite lookup_alter_ne by done. done.
Qed.

Lemma ignite_view (s t : nat) (w : World) :
  fst (ignite canSetFire addFire s t w) = Ret tt
  ∧ same_view w (snd (ignite canSetFire addFire s t w)).
Proof.
  unfold ignite, object_prop_truthy, bind, gets, modify, ret. cbn.
  destruct (w_objs w !! s) as [es | ]; cbn; [ | by split].
  destruct (canSetFire es); cbn; [ | by split].
  destruct (_ || _)%bool; cbn; [ | by split].
  split; [done | apply alter_addFire_view].
Qed.

Lemma conduct_view (s t : nat) (w : World) :
  let w' := snd (conduct s t w) in
  fst (conduct s t w) = Ret tt
  ∧ ∀ id,
      rusted_of w' id = (rusted_of w id && negb (bool_decide (id = t) && lightning_of w s))%bool
      ∧ lightning_of w' id = lightning_of w id
      ∧ texture_of w' id
        = if (bool_decide (id = t) && lightning_of w s && rusted_of w t)%bool
          then Some (Some "key") else texture_of w id.
Proof.
  cbv zeta. unfold conduct, object_prop_truthy, on_world_object, on_object,
    bind, gets, modify, ret, lift, throw. cbn.
  fold (lightning_of w s). fold (rusted_of w t).
  destruct (lightning_of w s) eqn:HL; cbn.
  2:{ split; [done | ]. intros id. rewrite !andb_false_r. cbn. rewrite andb_true_r. by repeat split. }
  fold (rusted_of w t). destruct (rusted_of w t) eqn:HR; cbn.
  2:{ split; [done | ]. intros id. rewrite !andb_false_r, andb_true_r.
      split; [ | by split]. case_bool_decide; subst; cbn; [by rewrite HR | by rewrite andb_true_r]. }
  unfold rusted_of in HR. destruct (w_objs w !! t) as [et | ] eqn:Het; [ | discriminate].
  unfold derust. destruct (assign_rusted_of_rusted et HR) as (p & Hp & ->). cbn.
  split; [done | ]. intros id.
  unfold rusted_of, lightning_of, texture_of. cbn.
  case_bool_decide as Hid; cbn.
  - subst id. rewrite lookup_insert_eq. cbn. rewrite Het. cbn.
    unfold prop_truthy. cbn. rewrite lookup_insert_eq, lookup_insert_ne by done.
    rewrite Hp. rewrite andb_false_r. by repeat split.
  - rewrite lookup_insert_ne by done. rewrite andb_true_r. by repeat split.
Qed.

Lemma bind_run {S A B} (m : ST S A) (k : A -> ST S B) (w : S) (a : A) :
  fst (m w) = Ret a -> bind m k w = k a (snd (m w)).
Proof. unfold bind. destruct (m w) as [ [a' | e] w']; simpl; intros H; by inversion H. Qed.

Lemma pair_view (bodyA bodyB : Body) (a b : nat) (w : World) :
  gameObject bodyA = Some a -> gameObject bodyB = Some b ->
  let w1 := snd (collisionactive_pair canSetFire addFire (bodyA, bodyB) w) in
  fst (collisionactive_pair canSetFire addFire (bodyA, bodyB) w) = Ret tt
  ∧ ∀ id,
      rusted_of w1 id
      = (rusted_of w id && negb (bool_decide (id = b) && lightning_of w a)
           && negb (bool_decide (id = a) && lightning_of w b))%bool
      ∧ lightning_of w1 id = lightning_of w id
      ∧ texture_of w1 id
        = if ((bool_decide (id = b) && lightning_of w a && rusted_of w b)
              || (bool_decide (id = a) && lightning_of w b && rusted_of w a))%bool
          then Some (Some "key") else texture_of w id.
Proof.
  intros HA HB. cbv zeta. unfold collisionactive_pair. cbn [fst snd]. rewrite HA, HB.
  destruct (ignite_view a b w) as [R1 V1].
  rewrite (bind_run _ _ _ _ R1). set (wA := snd (ignite canSetFire addFire a b w)) in *.
  destruct (conduct_view a b wA) as [R2 V2]. cbv zeta in V2.
  rewrite (bind_run _ _ _ _ R2). set (wB := snd (conduct a b wA)) in *.
  destruct (ignite_view b a wB) as [R3 V3].
  rewrite (bind_run _ _ _ _ R3). set (wC := snd (ignite canSetFire addFire b a wB)) in *.
  destruct (conduct_view b a wC) as [R4 V4]. cbv zeta in V4.
  split; [exact R4 | ].
  intros id.
  destruct (V4 id) as (-> & -> & ->).
  destruct (V3 id) as (-> & -> & ->). destruct (V3 a) as (-> & _ & _).
  destruct (V3 b) as (_ & -> & _).
  destruct (V2 id) as (-> & -> & ->). destruct (V2 a) as (-> & _ & _).
  destruct (V2 b) as (_ & -> & _).
  destruct (V1 id) as (-> & -> & ->). destruct (V1 a) as (-> & -> & _).
  destruct (V1 b) as (-> & -> & _).
  repeat case_bool_decide; subst;
    repeat match goal with
           | |- context [lightning_of w ?x] => destruct (lightning_of w x)
           | |- context [rusted_of w ?x] => destruct (rusted_of w x)
           end; cbn; try done; by repeat split.
Qed.

Lemma keeps_view_ret {A} (a : A) : keeps_view (ret a).
Proof. intros w. apply same_view_refl. Qed.

Lemma keeps_view_bind {A B} (m : ST World A) (k : A -> ST World B) :
  keeps_view m -> (∀ a, keeps_view (k a)) -> keeps_view (bind m k).
Proof.
  intros Hm Hk w. unfold bind. specialize (Hm w).
  destruct (m w) as [ [a | e] w']; cbn in *; [ | exact Hm].
  eapply same_view_trans; [exact Hm | apply Hk].
Qed.

Lemma keeps_view_if {A} (c : bool) (m1 m2 : ST World A) :
  keeps_view m1 -> keeps_view m2 -> keeps_view (if c then m1 else m2).
Proof. by destruct c. Qed.

Lemma keeps_view_water (f : World -> World) :
  (∀ w, w_objs (f w) = w_objs w) -> keeps_view (modify f).
Proof. intros H w. apply same_objs_view. cbn. apply H. Qed.

Lemma keeps_view_wet (body : Body) : keeps_view (wet_game_object addWet body).
Proof.
  unfold wet_game_object. destruct (gameObject body) as [t | ]; [ | apply keeps_view_ret].
  intros w id. unfold rusted_of, lightning_of, texture_of. cbn.
  destruct (decide (t = id)) as [-> | Hne].
  - rewrite lookup_alter_eq. destruct (w_objs w !! id) as [e | ]; cbn; [ | done].
    destruct (addWet_keeps e) as (-> & -> & ->). done.
  - rewrite lookup_alter_ne by done. done.
Qed.

Lemma keeps_view_floats (t : nat) :
  keeps_view (on_world_object t (assign_prop "floats" (JBool false))).
Proof.
  intros w id. unfold on_world_object, on_object, bind, gets, lift, modify, throw. cbn.
  destruct (w_objs w !! t) as [e | ] eqn:He; cbn; [ | by repeat split].
  unfold assign_prop. destruct (prop e) as [p | ] eqn:Hp; cbn; [ | by repeat split].
  unfold rusted_of, lightning_of, texture_of. cbn.
  destruct (decide (t = id)) as [-> | Hne].
  - rewrite lookup_insert_eq, He. cbn. unfold prop_truthy. cbn.
    rewrite Hp, !lookup_insert_ne by done. done.
  - rewrite lookup_insert_ne by done. done.
Qed.

Lemma collisionstart_keeps_view (sensor : nat) (frictionWater : Q) (pair : Body * Body) :
  keeps_view (collisionstart_pair addWet sensor frictionWater pair).
Proof.
  unfold collisionstart_pair.
  repeat first
    [ apply keeps_view_wet
    | apply keeps_view_floats
    | apply keeps_view_ret
    | apply keeps_view_water; intros; reflexivity
    | apply keeps_view_if
    | apply keeps_view_bind; [ | intros ? ]
    | match goal with
      | |- keeps_view (match ?x with Some _ => _ | None => _ end) => destruct x
      end ].
  all: intros w; apply same_view_refl.
Qed.

Lemma active_view_congruence (bodyA bodyB : Body) (a b : nat) (u v : World) :
  gameObject bodyA = Some a -> gameObject bodyB = Some b ->
  same_view u v ->
  same_view (snd (collisionactive_pair canSetFire addFire (bodyA, bodyB) u))
            (snd (collisionactive_pair canSetFire addFire (bodyA, bodyB) v)).
Proof.
  intros HA HB Huv id.
  destruct (pair_view bodyA bodyB a b u HA HB) as [_ Vu].
  destruct (pair_view bodyA bodyB a b v HA HB) as [_ Vv].
  cbv zeta in Vu, Vv.
  destruct (Vu id) as (-> & -> & ->). destruct (Vv id) as (-> & -> & ->).
  destruct (Huv id) as (-> & -> & ->).
  destruct (Huv a) as (-> & -> & _). destruct (Huv b) as (-> & -> & _).
  by repeat split.
Qed.

(** C6, as amended.  The conduction rule is run by the listener of the
    contact-continuing event, and the listener of the contact-begin
    event leaves [rusted] and the texture of every object as they are.
    At a contact-continuing event between a lightning object and a
    rusted one the rule clears [rusted] and sets the texture [key],
    without throwing; a further contact-continuing event, and any
    number of them, changes nothing more of [rusted], [lightning] and
    the textures; and the result is the same whichever of the two
    bodies is reported first. *)
Theorem conduction_on_contact_continuing
    (sensor : nat) (frictionWater : Q) (w : World) (bodyA bodyB : Body) (a b : nat) :
  gameObject bodyA = Some a -> gameObject bodyB = Some b ->
  let active := collisionactive_pair canSetFire addFire in
  let w1 := snd (active (bodyA, bodyB) w) in
  let w1' := snd (active (bodyB, bodyA) w) in
  fst (active (bodyA, bodyB) w) = Ret tt
  ∧ (lightning_of w a = true → rusted_of w b = true →
       rusted_of w1 b = false ∧ texture_of w1 b = Some (Some "key"))
  ∧ (lightning_of w b = true → rusted_of w a = true →
       rusted_of w1 a = false ∧ texture_of w1 a = Some (Some "key"))
  ∧ (∀ n, same_view w1 (Nat.iter n (fun u => snd (active (bodyA, bodyB) u)) w1))
  ∧ same_view w1 w1'
  ∧ same_view w (snd (collisionstart_pair addWet sensor frictionWater (bodyA, bodyB) w)).
Proof.
  intros HA HB active w1 w1'. subst active. cbv beta in *.
  destruct (pair_view bodyA bodyB a b w HA HB) as [R1 V1]. cbv zeta in V1. fold w1 in R1, V1.
  split; [exact R1 | ].
  split.
  { intros HL HR. destruct (V1 b) as (-> & _ & ->).
    rewrite HL, HR, bool_decide_eq_true_2 by done. cbn. done. }
  split.
  { intros HL HR. destruct (V1 a) as (-> & _ & ->).
    rewrite HL, HR, (bool_decide_eq_true_2 (a = a)) by done. cbn.
    rewrite andb_false_r, orb_true_r. done. }
  assert (Hidem : same_view w1 (snd (collisionactive_pair canSetFire addFire (bodyA, bodyB) w1))).
  { intros id.
    destruct (pair_view bodyA bodyB a b w1 HA HB) as [_ V2]. cbv zeta in V2.
    destruct (V2 id) as (-> & -> & ->).
    destruct (V1 id) as (E1 & E2 & E3). destruct (V1 a) as (Ea & La & _).
    destruct (V1 b) as (Eb & Lb & _).
    rewrite Ea, Eb, La, Lb. rewrite E1.
    rewrite !(bool_decide_eq_true_2 (a = a)), !(bool_decide_eq_true_2 (b = b)) by done.
    repeat case_bool_decide; subst;
      repeat match goal with
             | |- context [lightning_of w ?x] => destruct (lightning_of w x)
             | |- context [rusted_of w ?x] => destruct (rusted_of w x)
             end; cbn; try done; by repeat split. }
  split.
  { induction n as [ | n IH]; [apply same_view_refl | ].
    cbn [Nat.iter]. eapply same_view_trans; [exact Hidem | ].
    by apply (active_view_congruence bodyA bodyB a b). }
  split; [ | apply collisionstart_keeps_view].
  intros id.
  destruct (pair_view bodyB bodyA b a w HB HA) as [_ V1']. cbv zeta in V1'. fold w1' in V1'.
  destruct (V1' id) as (-> & -> & ->). destruct (V1 id) as (-> & -> & ->).
  repeat case_bool_decide; subst;
    repeat match goal with
           | |- context [lightning_of w ?x] => destruct (lightning_of w x)
           | |- context [rusted_of w ?x] => destruct (rusted_of w x)
           end; cbn; try done; by repeat split.
Qed.

End ConductionFacts.

Lemma sample_addFire_keeps (f : jsval) (e : Stage.Entity) :
  Stage.prop_truthy (Sample.addFire f e) "rusted" = Stage.prop_truthy e "rusted"
  ∧ Stage.prop_truthy (Sample.addFire f e) "lightning" = Stage.prop_truthy e "lightning"
  ∧ Stage.texture (Sample.addFire f e) = Stage.texture e.
Proof. by repeat split. Qed.

Lemma sample_addWet_keeps (e : Stage.Entity) :
  Stage.prop_truthy (Sample.addWet e) "rusted" = Stage.prop_truthy e "rusted"
  ∧ Stage.prop_truthy (Sample.addWet e) "lightning" = Stage.prop_truthy e "lightning"
  ∧ Stage.texture (Sample.addWet e) = Stage.texture e.
Proof. by repeat split. Qed.

(** An instance of [conduction_on_contact_continuing]: a bolt of
    lightning in continuing contact with a rusted key. *)
Lemma conduction_witness :
  let bolt := Stage.mkEntity Stage.PlainWorldObject "bolt" (Some {["lightning" := JBool true]})
                (Some "bolt") 1 0 ∅ ∅ None in
  let key := Stage.mkEntity Stage.RustedKey "key" (Some {["rusted" := JBool true]})
               (Some "rusted_key") 1 0 ∅ ∅ None in
  let w := Stage.mkWorld (<[1%nat := bolt]> (<[2%nat := key]> ∅)) ∅ [] in
  let w1 := snd (Stage.collisionactive_pair Sample.canSetFire Sample.addFire
                   (Stage.mkBody 10 (Some 1%nat), Stage.mkBody 20 (Some 2%nat)) w) in
  Stage.rusted_of w1 2 = false ∧ Stage.texture_of w1 2 = Some (Some "key").
Proof.
  intros bolt key w w1.
  destruct (conduction_on_contact_continuing Sample.canSetFire Sample.addFire Sample.addWet
              sample_addFire_keeps sample_addWet_keeps 0 (9 # 10) w
              (Stage.mkBody 10 (Some 1%nat)) (Stage.mkBody 20 (Some 2%nat)) 1 2
              eq_refl eq_refl) as (_ & H & _).
  apply H; reflexivity.
Defined.

(** C6 as stated fails: the rule does not fire at contact-begin.  A
    contact that begins and ends with no contact-continuing event in
    between leaves the key rusted. *)
Lemma conduction_skips_contact_begin :
  let bolt := Stage.mkEntity Stage.PlainWorldObject "bolt" (Some {["lightning" := JBool true]})
                (Some "bolt") 1 0 ∅ ∅ None in
  let key := Stage.mkEntity Stage.RustedKey "key" (Some {["rusted" := JBool true]})
               (Some "rusted_key") 1 0 ∅ ∅ None in
  let w := Stage.mkWorld (<[1%nat := bolt]> (<[2%nat := key]> ∅)) ∅ [] in
  let pair := (Stage.mkBody 10 (Some 1%nat), Stage.mkBody 20 (Some 2%nat)) in
  let begun := Stage.collisionstart Sample.addWet 0 (9 # 10) [pair] w in
  let ended := Stage.collisionend 0 0 [pair] (snd begun) in
  Stage.lightning_of w 1 = true ∧ Stage.rusted_of w 2 = true
  ∧ fst begun = Ret tt ∧ fst ended = Ret tt
  ∧ Stage.rusted_of (snd ended) 2 = true
  ∧ Stage.texture_of (snd ended) 2 = Some (Some "rusted_key").
Proof. cbv zeta. repeat split; vm_compute; reflexivity. Qed.

(** ** The drawing pipeline *)

Section PipelineFacts.

Import Stage.

Variable getZeroWorldObjProp getDefaultWorldObjProp : propbag.
Variable userobject : Z -> Z -> string -> propbag -> Entity.
Variable newWorldObject : Z -> Z -> string -> propbag -> Entity.
Variable updateObject : option string -> option propbag -> Entity -> Entity.
Variable md5 : string -> string.
Variable constructServerUrl : string -> string.

Local Abbreviation processCanvas :=
  (Stage.processCanvas getZeroWorldObjProp getDefaultWorldObjProp userobject newWorldObject
     updateObject md5 constructServerUrl).

(** The first backend never throws and touches nothing but the console. *)
Lemma analyzeDrawingWithOllama_frame (fetched : outcome http_response) (s : Scene) :
  ∃ v log, analyzeDrawingWithOllama fetched s = (Ret v, with_consoleErrors log s).
Proof.
  destruct s. unfold analyzeDrawingWithOllama, try_catch, bind, lift, console_error, modify, ret.
  destruct fetched as [response | e]; cbn; [ | by eexists _, _].
  destruct (resp_ok response); cbn.
  - destruct (resp_json response) as [result | e]; cbn; [ | by eexists _, _].
    destruct (get_field result "success") as [success | e] eqn:Hs; cbn; [ | by eexists _, _].
    destruct (truthy success); cbn; [ | by eexists _, _].
    destruct result; try discriminate; cbn; by eexists _, _.
  - destruct (resp_json response) as [errorData | e]; cbn; by eexists _, _.
Qed.

(** The second backend leaves the scene as it is. *)
Lemma sendImageDataToServerForAnalysis_frame (fetched : outcome http_response) (s : Scene) :
  snd (sendImageDataToServerForAnalysis fetched s) = s.
Proof.
  unfold sendImageDataToServerForAnalysis, bind, lift, ret.
  destruct fetched as [response | e]; cbn; [ | done].
  destruct (resp_ok response); cbn; [ | done].
  destruct (resp_has_body response); cbn; [ | done].
  by destruct (resp_json response).
Qed.

Lemma alter_stop_destroy (p : nat) (m : gmap nat Emitter) :
  alter (fun em => mkEmitter (em_texture em) (em_emitting em) true (em_follow em)) p
    (alter (fun em => mkEmitter (em_texture em) false (em_destroyed em) (em_follow em)) p m)
  = alter (fun em => mkEmitter (em_texture em) false true (em_follow em)) p m.
Proof. rewrite alter_alter_eq. apply alter_ext. by intros [ ]. Qed.

Lemma processCanvas_catch_cleans (loadingParticles phaserObj : nat) (e : exn) (s : Scene) :
  fst (processCanvas_catch loadingParticles phaserObj e s) = Ret tt
  ∧ cleaned_up loadingParticles phaserObj s (snd (processCanvas_catch loadingParticles phaserObj e s)).
Proof.
  unfold processCanvas_catch, cleaned_up, console_error, particles_stop, particles_destroy,
    update_entity, destroy_entity, bind, modify. cbn.
  split; [done | ]. split; [apply alter_stop_destroy | ].
  split; [by rewrite !delete_alter_eq | done].
Qed.

Lemma remove_drawing_cleans (loadingParticles phaserObj : nat) (s : Scene) :
  fst (remove_drawing loadingParticles phaserObj s) = Ret tt
  ∧ cleaned_up loadingParticles phaserObj s (snd (remove_drawing loadingParticles phaserObj s)).
Proof.
  unfold remove_drawing, cleaned_up, particles_stop, particles_destroy,
    destroy_entity, bind, modify. cbn.
  split; [done | ]. split; [apply alter_stop_destroy | done].
Qed.

Lemma cleaned_up_console (lp obj : nat) (log : list string) (s s' : Scene) :
  cleaned_up lp obj (with_consoleErrors log s) s' -> cleaned_up lp obj s s'.
Proof. by destruct s. Qed.

Lemma place_drawing_run (run : CanvasRun) (s : Scene) :
  ∃ s1 tex,
    place_drawing getDefaultWorldObjProp userobject run s = (Ret (nextId s, S (nextId s)), s1)
    ∧ particles s1 = <[S (nextId s) := mkEmitter tex true false (Some (nextId s))]> (particles s)
    ∧ objs s1 = <[nextId s :=
        userobject (lastPointerX run) (lastPointerY run) (drawing run)
          (<["generating" := JBool true]> (<["solid" := JBool false]> getDefaultWorldObjProp))]>
        (objs s)
    ∧ children s1 = children s ++ [nextId s]
    ∧ textures s1 = textures s ∧ loadQueue s1 = loadQueue s
    ∧ onceComplete s1 = onceComplete s ∧ consoleErrors s1 = consoleErrors s.
Proof.
  unfold place_drawing, add_entity, createLoadingParticles, add_particles,
    particles_startFollow, bind, modify, ret. cbn.
  eexists _, _. split; [reflexivity | ]. cbn.
  split; [by rewrite alter_insert_eq | done].
Qed.

Lemma classify_nothing (run : CanvasRun) (s : Scene) :
  (∀ s0 v s', analyzeDrawingWithOllama (ollamaFetch run) s0 = (Ret v, s') → truthy v = false) →
  (∀ s0 v s', sendImageDataToServerForAnalysis (analysisFetch run) s0 = (Ret v, s') →
              truthy v = false) →
  ∃ o log, classify run s = (o, with_consoleErrors log s)
           ∧ match o with Ret v => truthy v = false | Throw _ => True end.
Proof.
  intros Hfirst Hsecond. unfold classify, bind.
  destruct (analyzeDrawingWithOllama_frame (ollamaFetch run) s) as (v & log & Hrun).
  rewrite Hrun. rewrite (Hfirst _ _ _ Hrun). cbn.
  pose proof (sendImageDataToServerForAnalysis_frame (analysisFetch run) (with_consoleErrors log s)) as Hs.
  destruct (sendImageDataToServerForAnalysis (analysisFetch run) (with_consoleErrors log s))
    as [o s2] eqn:Hsend.
  cbn in Hs. subst s2. exists o, log. split; [done | ].
  destruct o as [v2 | e]; [ | done]. by eapply Hsecond.
Qed.


(** C2.  When the first classification backend returns no result and
    the fallback returns no result either (or fails), the run ends
    without an exception and with everything it made cleaned up: the
    loading-particle emitter is stopped and destroyed, the placeholder
    is destroyed, the display list and the objects of the scene are
    those from before the run without the placeholder, and the two
    drawing flags are down. *)
Theorem processCanvas_no_classification_cleans_up (run : CanvasRun) (s : Scene) :
  (∀ s0 v s', analyzeDrawingWithOllama (ollamaFetch run) s0 = (Ret v, s') → truthy v = false) →
  (∀ s0 v s', sendImageDataToServerForAnalysis (analysisFetch run) s0 = (Ret v, s') →
              truthy v = false) →
  let placeholder := nextId s in
  let loadingParticles := S (nextId s) in
  let after := snd (processCanvas run s) in
  fst (processCanvas run s) = Ret tt
  ∧ (∃ tex, particles after
            = <[loadingParticles := mkEmitter tex false true (Some placeholder)]> (particles s))
  ∧ objs after = delete placeholder (objs s)
  ∧ children after = filter (fun i => i ≠ placeholder) (children s)
  ∧ ((placeholder ∉ children after) ∧ objs after !! placeholder = None)
  ∧ drawingInProgress after = false ∧ mouseDown after = false.
Proof.
  intros Hfirst Hsecond placeholder loadingParticles after.
  subst after.
  destruct (place_drawing_run run s) as (s1 & tex & Hplace & Hp & Ho & Hc & _).
  subst placeholder loadingParticles.
  set (placeholder := nextId s) in *. set (loadingParticles := S placeholder) in *.
  destruct (classify_nothing run s1 Hfirst Hsecond) as (o & log & Hcl & Hno).
  assert (Htry : ∃ e, processCanvas_try getZeroWorldObjProp getDefaultWorldObjProp newWorldObject
                        updateObject md5 constructServerUrl run loadingParticles placeholder s1
                      = (Throw e, with_consoleErrors log s1)).
  { unfold processCanvas_try, bind. rewrite Hcl.
    destruct o as [v | e]; [ | by eexists]. rewrite Hno. cbn. by eexists. }
  destruct Htry as [e Htry].
  assert (Hrun : processCanvas run s
                 = processCanvas_catch loadingParticles placeholder e (with_consoleErrors log s1)).
  { unfold Stage.processCanvas, bind. rewrite Hplace. cbv zeta. cbn [fst snd].
    unfold try_catch. by rewrite Htry. }
  rewrite Hrun.
  destruct (processCanvas_catch_cleans loadingParticles placeholder e (with_consoleErrors log s1))
    as [Hret Hclean].
  apply cleaned_up_console in Hclean.
  destruct Hclean as (Hp' & Ho' & Hc' & Hd & Hm).
  split; [exact Hret | ].
  split. { exists tex. rewrite Hp', Hp. by rewrite alter_insert_eq. }
  split. { rewrite Ho', Ho. by rewrite delete_insert_eq. }
  assert (Hch : children (snd (processCanvas_catch loadingParticles placeholder e
                                 (with_consoleErrors log s1)))
                = filter (fun i => i ≠ placeholder) (children s)).
  { rewrite Hc', Hc. rewrite filter_app. rewrite filter_cons_False by (intros H; by apply H).
    by rewrite filter_nil, app_nil_r. }
  split; [exact Hch | ].
  split; [ | by split].
  split.
  - rewrite Hch. intros Hin. apply list_elem_of_filter in Hin as [Hne _]. by apply Hne.
  - rewrite Ho'. apply lookup_delete_eq.
Qed.

End PipelineFacts.

Lemma sample_first_backend_nothing (s0 : Stage.Scene) (v : jsval) (s' : Stage.Scene) :
  Stage.analyzeDrawingWithOllama (Stage.ollamaFetch Sample.unclassified_run) s0 = (Ret v, s')
  → truthy v = false.
Proof. intros H. vm_compute in H. by inversion H. Qed.

Lemma sample_second_backend_nothing (s0 : Stage.Scene) (v : jsval) (s' : Stage.Scene) :
  Stage.sendImageDataToServerForAnalysis (Stage.analysisFetch Sample.unclassified_run) s0
    = (Ret v, s')
  → truthy v = false.
Proof. intros H. vm_compute in H. by inversion H. Qed.

(** An instance of [processCanvas_no_classification_cleans_up]: both
    backends answer with an error status; the scene ends empty. *)
Lemma processCanvas_no_classification_witness :
  let after := snd (Sample.processCanvas Sample.unclassified_run Sample.emptyScene) in
  fst (Sample.processCanvas Sample.unclassified_run Sample.emptyScene) = Ret tt
  ∧ Stage.objs after = delete 0%nat ∅
  ∧ Stage.children after = [].
Proof.
  intros after.
  destruct (processCanvas_no_classification_cleans_up
              Sample.zeroProp Sample.defaultProp Sample.userobject Sample.userobject
              Sample.updateObject Sample.md5 Sample.constructServerUrl
              Sample.unclassified_run Sample.emptyScene
              sample_first_backend_nothing sample_second_backend_nothing)
    as (Hret & _ & Hobjs & Hch & _).
  split; [exact Hret | ]. split; [exact Hobjs | exact Hch].
Defined.

Lemma static_generation_gives_text (generator : string)
    (fetched : outcome Stage.http_response) (s : Stage.Scene) (v : jsval) (s' : Stage.Scene) :
  generator ≠ "veo" →
  Stage.sendToImageGenerationBackend generator fetched s = (Ret v, s') →
  ∃ b64, v = JStr b64.
Proof.
  intros Hgen. apply String.eqb_neq in Hgen.
  unfold Stage.sendToImageGenerationBackend, try_catch, bind, lift, throw, ret,
    Stage.console_error, modify.
  rewrite Hgen.
  destruct fetched as [response | e]; cbv beta iota; [ | discriminate].
  destruct (Stage.resp_ok response); cbn [negb]; cbv beta iota; [ | discriminate].
  destruct (Str.startsWith "Error:" (Stage.resp_text response)); cbv beta iota; [discriminate | ].
  destruct (String.eqb (Stage.resp_text response) ""); cbv beta iota; [discriminate | ].
  intros [= <- _]. by eexists.
Qed.


(** ** Frame polling *)

Section PollFacts.

Import Stage.

Variable newWorldObject : Z -> Z -> string -> propbag -> Entity.
Variable updateObject : option string -> option propbag -> Entity -> Entity.
Variable constructServerUrl : string -> string.

(** [updateObject] with a texture key shows that texture, and it leaves
    the opacity, the tweens and the animation of the object alone. *)
Hypothesis updateObject_texture : ∀ k p e, texture (updateObject (Some k) p e) = Some k.
Hypothesis updateObject_keeps : ∀ k p e,
  alpha (updateObject k p e) = alpha e
  ∧ tweens (updateObject k p e) = tweens e
  ∧ anim (updateObject k p e) = anim e.

Variable hash : string.
Variable id : nat.

Local Abbreviation waiting := (Stage.waiting id).
Local Abbreviation gentle := (Stage.gentle hash id).
Local Abbreviation fallen_back := (Stage.fallen_back updateObject constructServerUrl hash id).

Lemma waiting_console (e0 : Entity) (kids : list nat) (log : list string) (s : Scene) :
  waiting e0 kids s -> waiting e0 kids (with_consoleErrors log s).
Proof. by destruct s. Qed.

Lemma run_callback_update (cb : callback) (s : Scene) :
  is_update cb ->
  ∃ f, run_callback updateObject cb s = (Ret tt, with_objs (f (objs s)) s)
       ∧ ∀ m e, m !! id = Some e →
           ∃ e', f m !! id = Some e'
                 ∧ alpha e' = alpha e ∧ tweens e' = tweens e ∧ anim e' = anim e
                 ∧ (cb = CbUpdateIfAlive id hash → texture e' = Some hash).
Proof.
  destruct cb as [target key props | target key | | | ]; try done; intros _;
    unfold run_callback, update_entity, modify; cbn.
  - eexists (alter _ target). split; [reflexivity | ].
    intros m e He. destruct (decide (target = id)) as [-> | Hne].
    + rewrite lookup_alter_eq, He. cbn. eexists. split; [reflexivity | ].
      destruct (updateObject_keeps (Some key) (Some props) e) as (-> & -> & ->).
      repeat split; discriminate.
    + rewrite lookup_alter_ne by done. exists e. repeat split; try done; discriminate.
  - eexists (alter _ target). split; [reflexivity | ].
    intros m e He. destruct (decide (target = id)) as [-> | Hne].
    + rewrite lookup_alter_eq, He. cbn. eexists. split; [reflexivity | ].
      destruct (updateObject_keeps (Some key) (prop e) e) as (-> & -> & ->).
      repeat split; intros [= ->]; apply updateObject_texture.
    + rewrite lookup_alter_ne by done. exists e. repeat split; try done.
      intros [= -> _]; done.
Qed.

Lemma run_callbacks_updates (cbs : list callback) (s : Scene) :
  Forall is_update cbs ->
  ∃ f, run_callbacks updateObject cbs s = (Ret tt, with_objs (f (objs s)) s) ∧ gentle cbs f.
Proof.
  intros Hall. revert s. induction Hall as [ | cb cbs Hcb Hall IH]; intros s.
  - exists (fun m => m). split; [by destruct s | ].
    intros m e He. exists e. repeat split; try done.
    intros pre Hpre. by destruct pre.
  - destruct (run_callback_update cb s Hcb) as (f1 & Hrun1 & Hf1).
    destruct (IH (with_objs (f1 (objs s)) s)) as (f2 & Hrun2 & Hf2).
    exists (fun m => f2 (f1 m)). split.
    + cbn [run_callbacks]. unfold bind. rewrite Hrun1, Hrun2. by destruct s.
    + intros m e He.
      destruct (Hf1 m e He) as (e1 & He1 & Ha1 & Ht1 & Hn1 & Hx1).
      destruct (Hf2 (f1 m) e1 He1) as (e2 & He2 & Ha2 & Ht2 & Hn2 & Hnil & Hx2).
      exists e2. split; [exact He2 | ].
      split; [congruence | ]. split; [congruence | ]. split; [congruence | ].
      split; [discriminate | ].
      intros pre Hpre. destruct pre as [ | cb' pre]; cbn in Hpre.
      * injection Hpre as -> ->. rewrite (Hnil eq_refl). by apply Hx1.
      * injection Hpre as -> ->. by apply (Hx2 pre).
Qed.

(** The loader, when only updates wait for it: the queue and the
    listeners are emptied, textures may appear, and the object is only
    updated. *)
Lemma loader_run_updates (loads : string -> bool) (s : Scene) :
  Forall is_update (onceComplete s) ->
  ∃ f b T,
    loader_run updateObject loads s
      = (Ret b, with_objs (f (objs s))
                  (with_onceComplete [] (with_loadQueue [] (with_textures T s))))
    ∧ gentle (onceComplete s) f
    ∧ (∀ k, k ∈ T ↔ k ∈ textures s ∨ (k ∈ map fst (loadQueue s) ∧ loads k = true)).
Proof.
  intros Hall. unfold loader_run, bind, gets, modify, ret. cbn.
  match goal with
  | |- context [run_callbacks _ _ ?s2] =>
      destruct (run_callbacks_updates (onceComplete s) s2 Hall) as (f & Hrun & Hf)
  end.
  rewrite Hrun. eexists f, _, _. split; [by destruct s | ]. split; [exact Hf | ].
  intros k. rewrite elem_of_union, elem_of_list_to_set, !list_elem_of_fmap.
  split.
  - intros [(x & -> & Hx) | Hk]; [ | by left].
    apply list_elem_of_filter in Hx as [Hl Hx].
    apply list_elem_of_filter in Hx as [_ Hx].
    right. split; [ | done]. by exists x.
  - intros [Hk | [(x & -> & Hx) Hl] ]; [by right | ].
    destruct (decide (x.1 ∈ textures s)) as [Hin | Hnin]; [by right | left].
    exists x. split; [done | ].
    apply list_elem_of_filter. split; [done | ]. by apply list_elem_of_filter.
Qed.

Lemma loader_run_waiting (e0 : Entity) (kids : list nat) (loads : string -> bool) (s : Scene) :
  waiting e0 kids s ->
  ∃ b, fst (loader_run updateObject loads s) = Ret b
       ∧ waiting e0 kids (snd (loader_run updateObject loads s)).
Proof.
  intros ([e (He & Hb & Ha)] & Hall & Hk).
  destruct (loader_run_updates loads s Hall) as (f & b & T & Hrun & Hf & _).
  rewrite Hrun. exists b. split; [done | ].
  destruct (Hf (objs s) e He) as (e' & He' & _ & Ht & Hn & _).
  split; [ | split; [by constructor | by destruct s] ].
  exists e'. split; [by destruct s | ]. split; [by rewrite Ht | congruence].
Qed.

Lemma remove_frame_textures_removes (n i : nat) (s : Scene) :
  ∃ T, remove_frame_textures hash i n s = (Ret tt, with_textures T s)
       ∧ T ⊆ textures s
       ∧ ∀ j, (i ≤ j < i + n)%nat → frameKey hash j ∉ T.
Proof.
  revert i s. induction n as [ | n IH]; intros i s.
  - exists (textures s). split; [by destruct s | ]. split; [done | ]. intros j Hj. lia.
  - cbn [remove_frame_textures]. unfold bind, textures_exists, textures_remove, gets, modify, ret.
    cbn. case_bool_decide as Hin; cbn.
    + destruct (IH (S i) (with_textures (textures s ∖ {[frameKey hash i]}) s)) as (T & Hrun & Hsub & Hout).
      rewrite Hrun. exists T. split; [by destruct s | ].
      cbn in Hsub. split; [set_solver | ].
      intros j Hj. destruct (decide (j = i)) as [-> | Hne]; [set_solver | apply Hout; lia].
    + destruct (IH (S i) s) as (T & Hrun & Hsub & Hout).
      rewrite Hrun. exists T. split; [done | ]. split; [done | ].
      intros j Hj. destruct (decide (j = i)) as [-> | Hne]; [set_solver | apply Hout; lia].
Qed.

Lemma handleVeoFailure_settles (e0 : Entity) (kids : list nat) (s : Scene) :
  waiting e0 kids s ->
  fst (handleVeoFailure updateObject constructServerUrl hash (Some id) s) = Ret tt
  ∧ fallen_back e0 kids (snd (handleVeoFailure updateObject constructServerUrl hash (Some id) s)).
Proof.
  intros ([e (He & Hb & Ha)] & Hall & Hk).
  destruct (remove_frame_textures_removes 4 0 s) as (T & Hrun & Hsub & Hout).
  set (e1 := setAlpha 1 (stop_tween "blinkTween" e)).
  assert (Hstop : stop_blinking id (with_textures T s)
                  = (Ret tt, with_objs (<[id := e1]> (objs s)) (with_textures T s))).
  { unfold stop_blinking, bind, gets, update_entity, modify, ret.
    replace (objs (with_textures T s) !! id) with (Some e) by (by destruct s).
    rewrite bool_decide_eq_true_2 by done.
    replace (objs (with_textures T s)) with (objs s) by (by destruct s).
    f_equal. f_equal. apply map_eq. intros j. destruct (decide (j = id)) as [-> | Hne].
    - by rewrite lookup_alter_eq, lookup_insert_eq, He.
    - by rewrite lookup_alter_ne, lookup_insert_ne. }
  assert (Hwhole : handleVeoFailure updateObject constructServerUrl hash (Some id) s
                   = show_static_image updateObject constructServerUrl hash id
                       (with_objs (<[id := e1]> (objs s)) (with_textures T s))).
  { unfold handleVeoFailure, bind. by rewrite Hrun, Hstop. }
  rewrite Hwhole. clear Hwhole Hstop Hrun.
  assert (Hset1 : settled e0 e1).
  { unfold settled, e1. cbn. by rewrite lookup_insert_eq. }
  assert (Hkeys : ∀ i, (i < 4)%nat → frameKey hash i ∉ T) by (intros i Hi; apply Hout; lia).
  unfold show_static_image, bind, textures_exists, gets. cbn.
  replace (textures (with_objs (<[id:=e1]> (objs s)) (with_textures T s))) with T by (by destruct s).
  case_bool_decide as Hin; cbn.
  - unfold update_entity, modify. cbn. split; [done | ].
    split; [by destruct s | ]. split; [by destruct s | ].
    exists (updateObject (Some hash) (prop e1) e1).
    split. { destruct s; cbn. by rewrite lookup_alter_eq, lookup_insert_eq. }
    split; [ | left; apply updateObject_texture].
    destruct (updateObject_keeps (Some hash) (prop e1) e1) as (Ha' & Ht' & Hn').
    unfold settled. rewrite Ha', Ht', Hn'. exact Hset1.
  - unfold load_image, load_once_complete, modify, bind. cbn. split; [done | ].
    split; [by destruct s | ]. split; [by destruct s | ].
    exists e1. split. { destruct s; cbn. by rewrite lookup_insert_eq. }
    split; [exact Hset1 | right].
    split; [by destruct s | ].
    split; [eexists; by destruct s | ].
    split; [exists (onceComplete s); split; [by destruct s | exact Hall] | ].
    intros loads.
    match goal with
    | |- context [loader_run _ _ ?t] => set (s2 := t)
    end.
    assert (Hall2 : Forall is_update (onceComplete s2)).
    { replace (onceComplete s2) with (onceComplete s ++ [CbUpdateIfAlive id hash]) by (by destruct s).
      apply Forall_app. split; [exact Hall | by repeat constructor]. }
    destruct (loader_run_updates loads s2 Hall2) as (f & b & T2 & Hrun2 & Hf & _).
    rewrite Hrun2.
    destruct (Hf (objs s2) e1) as (e' & He' & Ha' & Ht' & Hn' & _ & Hx).
    { subst s2. destruct s; cbn. by rewrite lookup_insert_eq. }
    exists e'. split; [by destruct s | ].
    split.
    + unfold settled in *. rewrite Ha', Ht', Hn'. exact Hset1.
    + apply (Hx (onceComplete s)). subst s2. by destruct s.
Qed.

Lemma checkFrameStatus_frame (r : PollRound) (s : Scene) :
  ∃ o log, checkFrameStatus r s = (o, with_consoleErrors log s).
Proof.
  destruct s. unfold checkFrameStatus, try_catch, bind, lift, throw, console_error, modify. cbn.
  destruct (errorFetch r) as [errorResponse | e]; cbn; [ | by eexists _, _].
  destruct (resp_ok errorResponse); cbn.
  - destruct (resp_json errorResponse) as [errorData | e]; cbn; [ | by eexists _, _].
    destruct (get_field errorData "error"); cbn; by eexists _, _.
  - destruct (negb _); cbn; [by eexists _, _ | ].
    destruct (framesFetch r) as [response | e]; cbn; [ | by eexists _, _].
    destruct (negb _); cbn; [by eexists _, _ | ].
    destruct (resp_json response); cbn; by eexists _, _.
Qed.

Lemma poll_failure_handler (e0 : Entity) (kids : list nat) (msg : string) (s : Scene) :
  waiting e0 kids s ->
  let r := bind (console_error msg)
             (fun _ => bind (handleVeoFailure updateObject constructServerUrl hash (Some id))
                         (fun _ => ret false)) s in
  fst r = Ret false ∧ fallen_back e0 kids (snd r).
Proof.
  intros Hw.
  apply (waiting_console e0 kids (consoleErrors s ++ [msg])) in Hw.
  destruct (handleVeoFailure_settles e0 kids _ Hw) as [Hret Hfb].
  cbv beta iota zeta delta [bind console_error modify].
  destruct (handleVeoFailure updateObject constructServerUrl hash (Some id)
              (with_consoleErrors (consoleErrors s ++ [msg]) s)) as [o s'].
  cbn in Hret, Hfb. subst o. cbn. by split.
Qed.

Lemma poll_round_not_ready (e0 : Entity) (kids : list nat) (r : PollRound) (s : Scene) :
  not_ready r -> waiting e0 kids s ->
  let res := poll_round newWorldObject updateObject constructServerUrl hash (Some id) r s in
  (∃ log, res = (Ret true, with_consoleErrors log s))
  ∨ (fst res = Ret false ∧ fallen_back e0 kids (snd res)).
Proof.
  intros Hnr Hw. cbv zeta.
  destruct (checkFrameStatus_frame r s) as (o & log & Hcheck).
  unfold poll_round.
  match goal with
  | |- context [try_catch ?b ?h] => set (body := b); set (handler := h)
  end.
  assert (Hbody : ∃ o', body s = (o', with_consoleErrors log s)
                        ∧ (o' = Ret true ∨ ∃ e, o' = Throw e)).
  { subst body. unfold bind at 1. rewrite Hcheck.
    destruct o as [status | e]; cbv beta iota; [ | eexists; split; [reflexivity | right; by eexists] ].
    unfold bind at 1, lift at 1.
    destruct (get_field status "ready") as [v | e] eqn:Hready; cbv beta iota;
      [ | eexists; split; [reflexivity | right; by eexists] ].
    rewrite (Hnr _ _ _ Hcheck v Hready). eexists; split; [reflexivity | by left]. }
  unfold try_catch. destruct Hbody as (o' & -> & [-> | [e ->] ]).
  - left. by exists log.
  - right. subst handler. cbv beta. apply poll_failure_handler. by apply waiting_console.
Qed.

Lemma loader_tick_waiting (e0 : Entity) (kids : list nat) (r : PollRound) (s : Scene) :
  waiting e0 kids s ->
  fst (loader_tick updateObject r s) = Ret tt
  ∧ waiting e0 kids (snd (loader_tick updateObject r s)).
Proof.
  intros Hw. unfold loader_tick. destruct (loaderEvent r) as [loads | ]; [ | by split].
  destruct (loader_run_waiting e0 kids loads s Hw) as (b & Hret & Hw').
  unfold bind. destruct (loader_run updateObject loads s) as [o s']. cbn in *. subst o. by split.
Qed.

Lemma poll_loop_falls_back (e0 : Entity) (kids : list nat) (rounds : nat -> PollRound)
    (fuel retryCount : nat) (s : Scene) :
  (∀ i, (retryCount ≤ i < retryCount + fuel)%nat → not_ready (rounds i)) ->
  waiting e0 kids s ->
  let res := poll_loop newWorldObject updateObject constructServerUrl hash (Some id)
               rounds fuel retryCount s in
  fst res = Ret tt ∧ fallen_back e0 kids (snd res).
Proof.
  revert retryCount s. induction fuel as [ | fuel IH]; intros retryCount s Hnr Hw; cbv zeta.
  - cbn [poll_loop]. cbv beta iota zeta delta [bind console_error modify].
    apply handleVeoFailure_settles. by apply waiting_console.
  - cbn [poll_loop]. cbv zeta.
    destruct (loader_tick_waiting e0 kids (rounds retryCount) s Hw) as [Hret Hw1].
    unfold bind.
    destruct (loader_tick updateObject (rounds retryCount) s) as [o s1]. cbn in Hret, Hw1. subst o.
    assert (Hr : not_ready (rounds retryCount)) by (apply Hnr; lia).
    destruct (poll_round_not_ready e0 kids (rounds retryCount) s1 Hr Hw1) as [ [log Hgo] | [Hret Hfb] ].
    + rewrite Hgo. apply IH; [intros i Hi; apply Hnr; lia | by apply waiting_console].
    + destruct (poll_round newWorldObject updateObject constructServerUrl hash (Some id)
                  (rounds retryCount) s1) as [o s2].
      cbn in Hret, Hfb. subst o. by split.
Qed.


End PollFacts.

Lemma sample_updateObject_texture (k : string) (p : option propbag) (e : Stage.Entity) :
  Stage.texture (Sample.updateObject (Some k) p e) = Some k.
Proof. reflexivity. Qed.

Lemma sample_updateObject_keeps (k : option string) (p : option propbag) (e : Stage.Entity) :
  Stage.alpha (Sample.updateObject k p e) = Stage.alpha e
  ∧ Stage.tweens (Sample.updateObject k p e) = Stage.tweens e
  ∧ Stage.anim (Sample.updateObject k p e) = Stage.anim e.
Proof. by destruct k. Qed.

Lemma sample_never_ready (i : nat) : Stage.not_ready (Sample.never_ready i).
Proof.
  intros s status s' Hcheck v Hready.
  vm_compute in Hcheck. injection Hcheck as <- _.
  vm_compute in Hready. by injection Hready as <-.
Qed.


(** ** The image cache *)

Section CacheFacts.

Import Cache.

Variable join : list string -> string.
Variable cwd : string.
Variable FS : Type.
Variable existsSync : string -> FS -> bool.
Variable readFileSync : string -> FS -> outcome string.
Variable writeFileSync : string -> string -> ST FS unit.
Variable mkdirSync : string -> ST FS unit.
Variable fromBase64 : string -> string.
Variable toBase64 : string -> string.
Variable enabled : bool.
Variable poolSize : nat.

Local Abbreviation slot o v g i := (variation_path join cwd o v g (Some i)).
Local Abbreviation held o v g := (variations join cwd FS existsSync poolSize o v g).

Lemma floor_mul_lt (rnd : Q) (n : nat) :
  (0 <= rnd)%Q -> (rnd < 1)%Q -> (0 < n)%nat -> (floor_mul rnd n < n)%nat.
Proof.
  intros H0 H1 Hn. unfold floor_mul.
  set (x := (rnd * inject_Z (Z.of_nat n))%Q).
  assert (Hlo : (0 <= Qfloor x)%Z).
  { change 0%Z with (Qfloor (inject_Z 0)). apply Qfloor_resp_le.
    unfold x. apply Qmult_le_0_compat; [done|].
    change 0%Q with (inject_Z 0). rewrite <- Zle_Qle. lia. }
  assert (Hhi : (Qfloor x < Z.of_nat n)%Z).
  { rewrite Zlt_Qlt. eapply Qle_lt_trans; [apply Qfloor_le|].
    unfold x. rewrite <- (Qmult_1_l (inject_Z (Z.of_nat n))) at 2.
    apply Qmult_lt_compat_r; [|done].
    change 0%Q with (inject_Z 0). rewrite <- Zlt_Qlt. lia. }
  lia.
Qed.

Lemma filter_all {A} (P : A -> Prop) `{forall x, Decision (P x)} (l : list A) :
  Forall P l -> filter P l = l.
Proof.
  induction 1 as [|x l Hx _ IH]; [done|].
  by rewrite filter_cons_True, IH.
Qed.

Lemma held_spec (o v g : string) (fs : FS) (i : nat) :
  i ∈ held o v g fs <-> (i < poolSize)%nat /\ existsSync (slot o v g i) fs = true.
Proof.
  unfold variations. rewrite list_elem_of_filter, elem_of_seq. split.
  - intros [? ?]. split; [lia|done].
  - intros [? ?]. split; [done|lia].
Qed.

Lemma held_full (o v g : string) (fs : FS) :
  (forall i, (i < poolSize)%nat -> existsSync (slot o v g i) fs = true) ->
  held o v g fs = seq 0 poolSize.
Proof.
  intros Hall. unfold variations. apply filter_all.
  apply Forall_forall. intros i Hi. apply elem_of_seq in Hi. apply Hall. lia.
Qed.

Lemma held_short (o v g : string) (fs : FS) (i : nat) :
  (i < poolSize)%nat -> existsSync (slot o v g i) fs = false ->
  (length (held o v g fs) < poolSize)%nat.
Proof.
  intros Hi Hno. unfold variations.
  pose proof (length_filter_lt (fun i => existsSync (slot o v g i) fs = true)
                (seq 0 poolSize) i) as Hlt.
  rewrite length_seq in Hlt. apply Hlt.
  - apply elem_of_seq. lia.
  - rewrite Hno. discriminate.
Qed.

Lemma getCachedImage_short (rnd : Q) (o v g : string) (fs : FS) (i : nat) :
  enabled = true -> (i < poolSize)%nat -> existsSync (slot o v g i) fs = false ->
  getCachedImage join cwd FS existsSync readFileSync toBase64 enabled poolSize rnd o v g fs
  = (Ret (failed "No cached images found"), fs).
Proof.
  intros Hon Hi Hno. unfold getCachedImage. rewrite Hon. cbn [negb].
  unfold try_catch, bind, gets, ret.
  pose proof (held_short o v g fs i Hi Hno) as Hlt.
  destruct (Nat.eqb (length (held o v g fs)) poolSize) eqn:Hlen; [|done].
  apply Nat.eqb_eq in Hlen. lia.
Qed.

Lemma getCachedImage_full (rnd : Q) (o v g : string) (fs : FS) :
  enabled = true -> (0 < poolSize)%nat -> (0 <= rnd)%Q -> (rnd < 1)%Q ->
  (forall i, (i < poolSize)%nat -> existsSync (slot o v g i) fs = true) ->
  getCachedImage join cwd FS existsSync readFileSync toBase64 enabled poolSize rnd o v g fs
  = (Ret (match readFileSync (slot o v g (floor_mul rnd poolSize)) fs with
          | Ret imageBuffer => mkCacheResult true (Some (Image (toBase64 imageBuffer))) None
          | Throw e => failed ("Error getting cached image: " +:+ Text.error_text e)
          end), fs).
Proof.
  intros Hon Hpos H0 H1 Hall. unfold getCachedImage. rewrite Hon. cbn [negb].
  unfold try_catch, bind, gets, ret, read.
  rewrite (held_full o v g fs Hall), length_seq, Nat.eqb_refl.
  rewrite lookup_seq_lt by by apply floor_mul_lt.
  cbn. by destruct (readFileSync _ fs).
Qed.

(** X1 ([getCachedImage]): with the cache on, a pool of positive size
    and [Math.random()] in its range, the lookup never throws and leaves
    the file system as it was; it answers "No cached images found" as
    soon as one variation of the pool has no file, however many others
    are there; and when every variation has its file it reads exactly
    one of them, the one [Math.floor(rnd * poolSize)] names, and hands
    back its content in base64, or the read's error as a failure. *)
Theorem getCachedImage_needs_full_pool (rnd : Q) (o v g : string) (fs : FS) :
  enabled = true -> (0 < poolSize)%nat -> (0 <= rnd)%Q -> (rnd < 1)%Q ->
  let run := getCachedImage join cwd FS existsSync readFileSync toBase64 enabled poolSize
               rnd o v g fs in
  snd run = fs
  /\ ((exists i, (i < poolSize)%nat /\ existsSync (slot o v g i) fs = false)
      -> fst run = Ret (failed "No cached images found"))
  /\ ((forall i, (i < poolSize)%nat -> existsSync (slot o v g i) fs = true)
      -> (floor_mul rnd poolSize < poolSize)%nat
         /\ fst run
            = Ret (match readFileSync (slot o v g (floor_mul rnd poolSize)) fs with
                   | Ret imageBuffer =>
                       mkCacheResult true (Some (Image (toBase64 imageBuffer))) None
                   | Throw e => failed ("Error getting cached image: " +:+ Text.error_text e)
                   end)).
Proof.
  intros Hon Hpos H0 H1. cbn zeta.
  assert (Hcases : (exists i, (i < poolSize)%nat /\ existsSync (slot o v g i) fs = false)
                   \/ (forall i, (i < poolSize)%nat -> existsSync (slot o v g i) fs = true)).
  { destruct (decide (Forall (fun i => existsSync (slot o v g i) fs = true) (seq 0 poolSize)))
      as [Hall|Hsome].
    - right. intros i Hi. eapply Forall_forall in Hall; [done|]. apply elem_of_seq. lia.
    - left. apply not_Forall_Exists in Hsome; [|solve_decision].
      apply Exists_exists in Hsome as (i & Hi & Hno). apply elem_of_seq in Hi.
      exists i. split; [lia|]. by apply not_true_is_false. }
  destruct Hcases as [(i & Hi & Hno)|Hall].
  - rewrite (getCachedImage_short rnd o v g fs i Hon Hi Hno). split; [done|]. split; [done|].
    intros Hall. rewrite Hall in Hno by done. done.
  - rewrite (getCachedImage_full rnd o v g fs Hon Hpos H0 H1 Hall). split; [done|]. split.
    + intros (i & Hi & Hno). rewrite Hall in Hno by done. done.
    + intros _. split; [by apply floor_mul_lt|done].
Qed.

Lemma next_variation_spec (l : list nat) (fuel v : nat) :
  let r := next_variation l fuel v in
  (v <= r <= v + fuel)%nat
  /\ (forall i, (v <= i < r)%nat -> i ∈ l)
  /\ ((r < v + fuel)%nat -> r ∉ l).
Proof.
  revert v. induction fuel as [|fuel IH]; intros v; cbn.
  - repeat split; [lia..|lia|lia].
  - case_bool_decide as Hv; cbn [negb].
    + destruct (IH (S v)) as (Hr & Hin & Hout). repeat split; [lia..| |].
      * intros i Hi. destruct (decide (i = v)) as [->|]; [done|]. apply Hin. lia.
      * intros Hlt. apply Hout. lia.
    + repeat split; [lia..| |]; [intros i Hi; lia | done].
Qed.

(** The slot [cacheImage] writes to. *)
Lemma chosen_slot (rnd : Q) (o v g : string) (fs : FS) :
  (0 < poolSize)%nat -> (0 <= rnd)%Q -> (rnd < 1)%Q ->
  let first := next_variation (held o v g fs) poolSize 0 in
  let j := if Nat.leb poolSize first then floor_mul rnd poolSize else first in
  (j < poolSize)%nat
  /\ ((exists i, (i < poolSize)%nat /\ existsSync (slot o v g i) fs = false)
      -> existsSync (slot o v g j) fs = false
         /\ forall i, (i < j)%nat -> existsSync (slot o v g i) fs = true)
  /\ ((forall i, (i < poolSize)%nat -> existsSync (slot o v g i) fs = true)
      -> j = floor_mul rnd poolSize).
Proof.
  intros Hpos H0 H1. cbn zeta.
  destruct (next_variation_spec (held o v g fs) poolSize 0) as (Hr & Hin & Hout).
  set (first := next_variation (held o v g fs) poolSize 0) in *.
  pose proof (floor_mul_lt rnd poolSize H0 H1 Hpos) as Hj.
  destruct (Nat.leb poolSize first) eqn:Hfull.
  - apply Nat.leb_le in Hfull. split; [done|]. split; [|done].
    intros (i & Hi & Hno). exfalso.
    assert (i ∈ held o v g fs) as Hheld by (apply Hin; lia).
    apply held_spec in Hheld as [_ Hyes]. congruence.
  - apply Nat.leb_gt in Hfull. split; [done|]. split.
    + intros _. split.
      * destruct (existsSync (slot o v g first) fs) eqn:Hyes; [|done].
        exfalso. apply Hout; [lia|]. by apply held_spec.
      * intros i Hi. assert (i ∈ held o v g fs) as Hheld by (apply Hin; lia).
        by apply held_spec in Hheld as [_ Hyes].
    + intros Hall. exfalso. apply Hout; [lia|]. apply held_spec. split; [done|].
      by apply Hall.
Qed.

(** X2 ([cacheImage]): with the cache on, a pool of positive size and
    [Math.random()] in its range, caching an image never throws and is
    exactly one write, to a variation of the pool: the first one that has
    no file while there is one, so that no cached image is overwritten
    before the pool is full, and the variation
    [Math.floor(rnd * poolSize)] once every variation has its file.  A
    write that throws is reported as a failure. *)
Theorem cacheImage_picks_a_pool_slot (rnd : Q) (o v img g : string) (fs : FS) :
  enabled = true -> (0 < poolSize)%nat -> (0 <= rnd)%Q -> (rnd < 1)%Q ->
  exists j, (j < poolSize)%nat
    /\ cacheImage join cwd FS existsSync writeFileSync fromBase64 enabled poolSize
         rnd o v img g fs
       = (let w := writeFileSync (slot o v g j) (fromBase64 img) fs in
          (Ret (match fst w with
                | Ret _ => mkCacheResult true None None
                | Throw e => failed ("Error caching image: " +:+ Text.error_text e)
                end), snd w))
    /\ ((exists i, (i < poolSize)%nat /\ existsSync (slot o v g i) fs = false)
        -> existsSync (slot o v g j) fs = false
           /\ forall i, (i < j)%nat -> existsSync (slot o v g i) fs = true)
    /\ ((forall i, (i < poolSize)%nat -> existsSync (slot o v g i) fs = true)
        -> j = floor_mul rnd poolSize).
Proof.
  intros Hon Hpos H0 H1.
  destruct (chosen_slot rnd o v g fs Hpos H0 H1) as (Hj & Hfree & Hfull).
  eexists. split; [exact Hj|]. split; [|split; [exact Hfree|exact Hfull]].
  unfold cacheImage. rewrite Hon. cbn [negb].
  unfold try_catch, bind, gets, ret. cbn zeta.
  by destruct (writeFileSync _ _ fs) as [[[]|e] fs'].
Qed.

(** What the cache needs of the file system: a write that returns
    leaves the file there with the content written, and a write, whether
    it returns or throws, leaves every other path as it was. *)
Hypothesis write_exists : forall p d fs fs',
  writeFileSync p d fs = (Ret tt, fs') ->
  existsSync p fs' = true /\ readFileSync p fs' = Ret d.
Hypothesis write_others : forall p d fs q, q <> p ->
  existsSync q (snd (writeFileSync p d fs)) = existsSync q fs
  /\ readFileSync q (snd (writeFileSync p d fs)) = readFileSync q fs.

Local Abbreviation full o v g k := (filled join cwd FS existsSync poolSize o v g k).

Lemma first_free_filled (o v g : string) (k : nat) (fs : FS) :
  full o v g k fs -> (k < poolSize)%nat ->
  next_variation (held o v g fs) poolSize 0 = k.
Proof.
  intros Hfill Hk.
  destruct (next_variation_spec (held o v g fs) poolSize 0) as (Hr & Hin & Hout).
  set (r := next_variation (held o v g fs) poolSize 0) in *.
  destruct (Nat.lt_trichotomy r k) as [Hlt|[->|Hgt]]; [|done|].
  - exfalso. apply Hout; [lia|]. apply held_spec. split; [lia|].
    rewrite Hfill by lia. by apply bool_decide_eq_true.
  - exfalso. assert (k ∈ held o v g fs) as Hheld by (apply Hin; lia).
    apply held_spec in Hheld as [_ Hyes]. rewrite Hfill in Hyes by done.
    apply bool_decide_eq_true in Hyes. lia.
Qed.

(** From [(Ret a, s) = (Ret b, s')] to the two equations, used; closes
    the goal when the two outcomes differ. *)
Ltac run_inv H :=
  let E1 := fresh "E" in
  let E2 := fresh "E" in
  unfold ret in H;
  apply pair_equal_spec in H as [E1 E2];
  first [ discriminate E1
        | try (injection E1 as E1); try (rewrite <- E1 in * ); try (rewrite <- E2 in * ) ].

Lemma cacheImage_fills (rnd : Q) (o v img g : string) (k : nat) (fs fs' : FS) (r : CacheResult) :
  enabled = true ->
  (forall i j, (i < poolSize)%nat -> (j < poolSize)%nat ->
     slot o v g i = slot o v g j -> i = j) ->
  full o v g k fs -> (k < poolSize)%nat ->
  cacheImage join cwd FS existsSync writeFileSync fromBase64 enabled poolSize
    rnd o v img g fs = (Ret r, fs') ->
  success r = true ->
  full o v g (S k) fs'
  /\ readFileSync (slot o v g k) fs' = Ret (fromBase64 img)
  /\ forall i, (i < poolSize)%nat -> i <> k ->
       readFileSync (slot o v g i) fs' = readFileSync (slot o v g i) fs.
Proof.
  intros Hon Hinj Hfill Hk Hrun Hok.
  unfold cacheImage in Hrun. rewrite Hon in Hrun. cbn [negb] in Hrun.
  unfold try_catch, bind, gets, ret in Hrun. cbn zeta in Hrun.
  rewrite (first_free_filled o v g k fs Hfill Hk) in Hrun.
  replace (Nat.leb poolSize k) with false in Hrun by (symmetry; apply Nat.leb_gt; lia).
  pose proof (write_others (slot o v g k) (fromBase64 img) fs) as Hothers.
  destruct (writeFileSync (slot o v g k) (fromBase64 img) fs) as [[[]|e] fs1] eqn:Hw;
    run_inv Hrun; [|done].
  cbn [snd] in Hothers.
  destruct (write_exists _ _ _ _ Hw) as [Hthere Hread].
  split; [|split; [done|]].
  - intros i Hi. destruct (decide (i = k)) as [->|Hne].
    + rewrite Hthere. symmetry. apply bool_decide_eq_true. lia.
    + destruct (Hothers (slot o v g i)) as [-> _].
      { intros Heq. apply Hne. by apply Hinj. }
      rewrite Hfill by done. apply bool_decide_ext. lia.
  - intros i Hi Hne. destruct (Hothers (slot o v g i)) as [_ ->]; [|done].
    intros Heq. apply Hne. by apply Hinj.
Qed.

Lemma cacheImages_fill (o v g : string) (images : list (Q * string)) (k : nat)
    (fs fs' : FS) (rs : list CacheResult) :
  enabled = true ->
  (forall i j, (i < poolSize)%nat -> (j < poolSize)%nat ->
     slot o v g i = slot o v g j -> i = j) ->
  full o v g k fs -> (k + length images <= poolSize)%nat ->
  cacheImages join cwd FS existsSync writeFileSync fromBase64 enabled poolSize
    o v g images fs = (Ret rs, fs') ->
  Forall (fun r => success r = true) rs ->
  full o v g (k + length images) fs'
  /\ (forall i img, images !! i = Some img ->
        readFileSync (slot o v g (k + i)%nat) fs' = Ret (fromBase64 (snd img)))
  /\ forall i, (i < k)%nat -> readFileSync (slot o v g i) fs' = readFileSync (slot o v g i) fs.
Proof.
  intros Hon Hinj. revert k fs fs' rs.
  induction images as [|[rnd img] images IH]; intros k fs fs' rs Hfill Hlen Hrun Hok.
  - cbn in Hrun. run_inv Hrun. rewrite Nat.add_0_r. by repeat split.
  - cbn [cacheImages length] in *. unfold bind at 1 in Hrun.
    destruct (cacheImage _ _ _ _ _ _ _ _ rnd o v img g fs) as [[r|e] fs1] eqn:Hone;
      [|by inversion Hrun].
    unfold bind, ret in Hrun.
    destruct (cacheImages _ _ _ _ _ _ _ _ o v g images fs1) as [[rs1|e] fs2] eqn:Hrest;
      run_inv Hrun.
    apply Forall_cons in Hok as [Hr Hrs].
    destruct (cacheImage_fills rnd o v img g k fs fs1 r Hon Hinj Hfill ltac:(lia) Hone Hr)
      as (Hfill1 & Hread1 & Hkeep1).
    destruct (IH (S k) fs1 _ rs1 Hfill1 ltac:(lia) Hrest Hrs) as (Hfill2 & Hread2 & Hkeep2).
    split; [|split].
    + by replace (k + S (length images))%nat with (S k + length images)%nat by lia.
    + intros [|i] im Him; cbn in Him.
      * injection Him as <-. rewrite Nat.add_0_r, Hkeep2 by lia. done.
      * replace (k + S i)%nat with (S k + i)%nat by lia. by apply Hread2.
    + intros i Hi. rewrite Hkeep2 by lia. apply Hkeep1; lia.
Qed.

(** X3 ([cacheImage], [getCachedImage]): the pool fills variation by
    variation and serves nothing before it is full.  With the cache on,
    from a pool none of whose variations has a file, images cached one
    after the other, each reported a success and no more of them than the
    pool holds, go to the variations 0, 1, 2, ... in order: afterwards
    exactly the first [length images] variations have a file, each holds
    the decoded image cached at its turn, a lookup answers "No cached
    images found" while fewer images than the pool size were cached, and
    once as many were cached it hands back, re-encoded, the image cached
    at the turn [Math.floor(rnd * poolSize)]. *)
Theorem pool_fills_before_it_serves (o v g : string) (images : list (Q * string))
    (fs fs' : FS) (rs : list CacheResult) :
  enabled = true -> (0 < poolSize)%nat ->
  (forall i j, (i < poolSize)%nat -> (j < poolSize)%nat ->
     slot o v g i = slot o v g j -> i = j) ->
  (forall i, (i < poolSize)%nat -> existsSync (slot o v g i) fs = false) ->
  (length images <= poolSize)%nat ->
  cacheImages join cwd FS existsSync writeFileSync fromBase64 enabled poolSize
    o v g images fs = (Ret rs, fs') ->
  Forall (fun r => success r = true) rs ->
  (forall i, (i < poolSize)%nat ->
     existsSync (slot o v g i) fs' = bool_decide (i < length images)%nat)
  /\ (forall i img, images !! i = Some img ->
        readFileSync (slot o v g i) fs' = Ret (fromBase64 (snd img)))
  /\ forall rnd, (0 <= rnd)%Q -> (rnd < 1)%Q ->
       let lookup := getCachedImage join cwd FS existsSync readFileSync toBase64
                       enabled poolSize rnd o v g fs' in
       snd lookup = fs'
       /\ ((length images < poolSize)%nat ->
           fst lookup = Ret (failed "No cached images found"))
       /\ (length images = poolSize ->
           exists img, images !! floor_mul rnd poolSize = Some img
             /\ fst lookup
                = Ret (mkCacheResult true
                         (Some (Image (toBase64 (fromBase64 (snd img))))) None)).
Proof.
  intros Hon Hpos Hinj Hempty Hlen Hrun Hok.
  assert (Hfill0 : full o v g 0 fs).
  { intros i Hi. rewrite Hempty by done. symmetry. apply bool_decide_eq_false. lia. }
  destruct (cacheImages_fill o v g images 0 fs fs' rs Hon Hinj Hfill0 ltac:(lia) Hrun Hok)
    as (Hfill & Hread & _).
  cbn [Nat.add] in Hfill, Hread.
  split; [exact Hfill|]. split; [exact Hread|].
  intros rnd H0 H1. cbn zeta.
  destruct (decide (length images = poolSize)) as [Hfull|Hshort].
  - assert (Hall : forall i, (i < poolSize)%nat -> existsSync (slot o v g i) fs' = true).
    { intros i Hi. rewrite Hfill by done. apply bool_decide_eq_true. lia. }
    rewrite (getCachedImage_full rnd o v g fs' Hon Hpos H0 H1 Hall).
    pose proof (floor_mul_lt rnd poolSize H0 H1 Hpos) as Hj.
    split; [done|]. split; [lia|]. intros _.
    destruct (lookup_lt_is_Some_2 images (floor_mul rnd poolSize) ltac:(lia)) as [img Himg].
    exists img. split; [done|]. cbn [fst]. by rewrite (Hread _ _ Himg).
  - assert (Hno : existsSync (slot o v g (length images)) fs' = false).
    { rewrite Hfill by lia. apply bool_decide_eq_false. lia. }
    rewrite (getCachedImage_short rnd o v g fs' (length images) Hon ltac:(lia) Hno).
    split; [done|]. split; [done|]. intros Heq. lia.
Qed.

Local Abbreviation frame dir i := (join [dir; frame_name i]).
Local Abbreviation frames_dir o v :=
  (getFramesCachePath join (framesCacheDir join cwd) o v).
Local Abbreviation stored l := (mkCacheResult true (Some (FrameList l)) None).

(** The loop of [getCachedFrames] only reads. *)
Lemma read_frames_reads (dir : string) (n i : nat) (acc : list string) (fs : FS) :
  snd (read_frames join FS existsSync readFileSync toBase64 dir n i acc fs) = fs.
Proof.
  revert i acc. induction n as [|n IH]; intros i acc; [done|].
  cbn [read_frames]. unfold bind, gets, ret, read.
  destruct (existsSync (frame dir i) fs); [|done]. cbn [negb].
  destruct (readFileSync (frame dir i) fs); [apply IH|done].
Qed.

Lemma read_frames_step (dir : string) (n i : nat) (acc : list string) (fs : FS) (b : string) :
  existsSync (frame dir i) fs = true -> readFileSync (frame dir i) fs = Ret b ->
  read_frames join FS existsSync readFileSync toBase64 dir (S n) i acc fs
  = read_frames join FS existsSync readFileSync toBase64 dir n (S i) (acc ++ [toBase64 b]) fs.
Proof.
  intros Hex Hrd. cbn [read_frames]. unfold bind, gets, read.
  rewrite Hex. cbn [negb]. by rewrite Hrd.
Qed.

Lemma read_frames_all (dir : string) (contents : nat -> string) (n i : nat)
    (acc : list string) (fs : FS) :
  (forall j, (i <= j < i + n)%nat ->
     existsSync (frame dir j) fs = true /\ readFileSync (frame dir j) fs = Ret (contents j)) ->
  read_frames join FS existsSync readFileSync toBase64 dir n i acc fs
  = (Ret (stored (acc ++ map (fun j => toBase64 (contents j)) (seq i n))), fs).
Proof.
  revert i acc. induction n as [|n IH]; intros i acc Hall.
  - cbn. by rewrite app_nil_r.
  - destruct (Hall i ltac:(lia)) as [Hex Hrd].
    rewrite (read_frames_step dir n i acc fs _ Hex Hrd). cbn [seq map].
    rewrite IH; [by rewrite <- app_assoc|]. intros j Hj. apply Hall. lia.
Qed.

Lemma read_frames_gap (dir : string) (n i k : nat) (acc : list string) (fs : FS) :
  (k < n)%nat ->
  (forall j, (i <= j < i + k)%nat ->
     existsSync (frame dir j) fs = true /\ exists b, readFileSync (frame dir j) fs = Ret b) ->
  existsSync (frame dir (i + k)%nat) fs = false ->
  read_frames join FS existsSync readFileSync toBase64 dir n i acc fs
  = (Ret (failed ("Missing frame " +:+ pretty (i + k)%nat)), fs).
Proof.
  revert n i acc. induction k as [|k IH]; intros n i acc Hk Hbefore Hgap.
  - destruct n as [|n]; [lia|]. rewrite Nat.add_0_r in *.
    cbn [read_frames]. unfold bind, gets, ret. by rewrite Hgap.
  - destruct n as [|n]; [lia|].
    destruct (Hbefore i ltac:(lia)) as [Hex [b Hrd]].
    rewrite (read_frames_step dir n i acc fs b Hex Hrd).
    replace (i + S k)%nat with (S i + k)%nat in * by lia.
    apply IH; [lia| |done]. intros j Hj. apply Hbefore. lia.
Qed.

Lemma getCachedFrames_run (o v : string) (fs : FS) :
  enabled = true ->
  getCachedFrames join cwd FS existsSync readFileSync toBase64 enabled o v fs
  = if existsSync (frames_dir o v) fs then
      match read_frames join FS existsSync readFileSync toBase64 (frames_dir o v) 4 0 [] fs with
      | (Ret r, fs') => (Ret r, fs')
      | (Throw e, fs') =>
          (Ret (failed ("Error reading cached frames: " +:+ Text.error_text e)), fs')
      end
    else (Ret (failed "No cached frames found"), fs).
Proof.
  intros Hon. unfold getCachedFrames. rewrite Hon. cbn [negb].
  unfold try_catch, bind at 1, gets.
  by destruct (existsSync (frames_dir o v) fs).
Qed.

(** X4 ([getCachedFrames]): with the cache on, the lookup of the frames
    never throws and leaves the file system as it was; it answers "No
    cached frames found" when the directory of the object and style is
    not there, "Missing frame k" for the first of the four frames that
    has no file, the earlier ones being there and readable, whatever
    frames follow, and the four frames in base64, in order, when all
    four are there and readable. *)
Theorem getCachedFrames_reports_first_gap (o v : string) (fs : FS) :
  enabled = true ->
  let dir := frames_dir o v in
  let run := getCachedFrames join cwd FS existsSync readFileSync toBase64 enabled o v fs in
  snd run = fs
  /\ (exists r, fst run = Ret r)
  /\ (existsSync dir fs = false -> fst run = Ret (failed "No cached frames found"))
  /\ (existsSync dir fs = true ->
      (forall k, (k < 4)%nat ->
         (forall j, (j < k)%nat ->
            existsSync (frame dir j) fs = true
            /\ exists b, readFileSync (frame dir j) fs = Ret b) ->
         existsSync (frame dir k) fs = false ->
         fst run = Ret (failed ("Missing frame " +:+ pretty k)))
      /\ (forall contents : nat -> string,
           (forall j, (j < 4)%nat ->
              existsSync (frame dir j) fs = true
              /\ readFileSync (frame dir j) fs = Ret (contents j)) ->
           fst run = Ret (stored (map (fun j => toBase64 (contents j)) (seq 0 4))))).
Proof.
  intros Hon. cbn zeta. rewrite (getCachedFrames_run o v fs Hon).
  destruct (existsSync (frames_dir o v) fs) eqn:Hdir.
  - pose proof (read_frames_reads (frames_dir o v) 4 0 [] fs) as Hsame.
    split; [|split; [|split; [done|intros _; split]]].
    + by destruct (read_frames _ _ _ _ _ _ _ _ _ fs) as [[r|e] fs1].
    + destruct (read_frames _ _ _ _ _ _ _ _ _ fs) as [[r|e] fs1]; by eexists.
    + intros k Hk Hbefore Hgap.
      rewrite (read_frames_gap (frames_dir o v) 4 0 k [] fs Hk); [done| |done].
      intros j Hj. apply Hbefore. lia.
    + intros contents Hall.
      rewrite (read_frames_all (frames_dir o v) contents 4 0 [] fs); [done|].
      intros j Hj. apply Hall. lia.
  - split; [done|]. split; [by eexists|]. split; [done|]. done.
Qed.

(** What the round trip needs besides: a directory made is there
    afterwards, and making a directory neither creates nor removes a
    frame file inside it. *)
Hypothesis mkdir_exists : forall p fs fs',
  mkdirSync p fs = (Ret tt, fs') -> existsSync p fs' = true.
Hypothesis mkdir_inside : forall p fs i,
  existsSync (frame p i) (snd (mkdirSync p fs)) = existsSync (frame p i) fs.

Lemma write_frames_run (dir : string) (frames : list string) (i : nat) (fs fs' : FS) :
  (forall a b, (a < i + length frames)%nat -> (b < i + length frames)%nat ->
     frame dir a = frame dir b -> a = b) ->
  write_frames join FS writeFileSync fromBase64 dir frames i fs = (Ret tt, fs') ->
  (forall j f, frames !! j = Some f ->
     existsSync (frame dir (i + j)%nat) fs' = true
     /\ readFileSync (frame dir (i + j)%nat) fs' = Ret (fromBase64 f))
  /\ (forall q, (forall j, (j < length frames)%nat -> q <> frame dir (i + j)%nat) ->
       existsSync q fs' = existsSync q fs /\ readFileSync q fs' = readFileSync q fs).
Proof.
  revert i fs. induction frames as [|f frames IH]; intros i fs Hinj Hrun.
  - cbn in Hrun. run_inv Hrun. split; [by intros j ? ?|done].
  - cbn [write_frames length] in *. unfold bind in Hrun.
    pose proof (write_others (frame dir i) (fromBase64 f) fs) as Hothers.
    destruct (writeFileSync (frame dir i) (fromBase64 f) fs) as [[[]|e] fs1] eqn:Hw;
      [|by run_inv Hrun].
    cbn [snd] in Hothers.
    destruct (write_exists _ _ _ _ Hw) as [Hthere Hread].
    destruct (IH (S i) fs1) as [Hin Hout]; [|done|].
    { intros a b Ha Hb. apply Hinj; lia. }
    split.
    + intros [|j] f' Hf; cbn in Hf.
      * injection Hf as <-. rewrite Nat.add_0_r.
        destruct (Hout (frame dir i)) as [-> ->]; [|done].
        intros j Hj Heq. apply Hinj in Heq; lia.
      * replace (i + S j)%nat with (S i + j)%nat by lia. by apply Hin.
    + intros q Hq. destruct (Hout q) as [-> ->].
      { intros j Hj. replace (S i + j)%nat with (i + S j)%nat by lia. apply Hq. lia. }
      apply Hothers. specialize (Hq 0%nat ltac:(lia)). by rewrite Nat.add_0_r in Hq.
Qed.


End CacheFacts.

(** *** The example file system keeps the laws *)

Lemma sample_write_exists (p d : string) (fs fs' : SampleDisk.Disk) :
  SampleDisk.writeFileSync p d fs = (Ret tt, fs') ->
  SampleDisk.existsSync p fs' = true /\ SampleDisk.readFileSync p fs' = Ret d.
Proof.
  unfold SampleDisk.writeFileSync, modify. intros [= <-].
  unfold SampleDisk.existsSync, SampleDisk.readFileSync. cbn.
  rewrite lookup_insert_eq. split; [|done]. apply bool_decide_eq_true. left. by eexists.
Qed.

Lemma sample_write_others (p d : string) (fs : SampleDisk.Disk) (q : string) :
  q <> p ->
  SampleDisk.existsSync q (snd (SampleDisk.writeFileSync p d fs)) = SampleDisk.existsSync q fs
  /\ SampleDisk.readFileSync q (snd (SampleDisk.writeFileSync p d fs))
     = SampleDisk.readFileSync q fs.
Proof.
  intros Hne. unfold SampleDisk.existsSync, SampleDisk.readFileSync. cbn.
  by rewrite lookup_insert_ne.
Qed.

Lemma sample_mkdir_exists (p : string) (fs fs' : SampleDisk.Disk) :
  SampleDisk.mkdirSync p fs = (Ret tt, fs') -> SampleDisk.existsSync p fs' = true.
Proof.
  unfold SampleDisk.mkdirSync, modify. intros [= <-].
  unfold SampleDisk.existsSync. cbn. apply bool_decide_eq_true. right. set_solver.
Qed.

Lemma append_longer (a b : string) : b <> "" -> a +:+ b <> a.
Proof.
  intros Hb. induction a as [|c a IH]; cbn; [done|].
  intros [= Heq]. by apply IH.
Qed.

Lemma sample_mkdir_inside (p : string) (fs : SampleDisk.Disk) (i : nat) :
  SampleDisk.existsSync (SampleDisk.join [p; Cache.frame_name i])
    (snd (SampleDisk.mkdirSync p fs))
  = SampleDisk.existsSync (SampleDisk.join [p; Cache.frame_name i]) fs.
Proof.
  unfold SampleDisk.existsSync. cbn. apply bool_decide_ext.
  assert (p +:+ "/" +:+ Cache.frame_name i <> p) as Hne by by apply append_longer.
  set_solver.
Qed.

(** Closes a goal about concrete data by evaluating it. *)
Ltac by_run := vm_compute; first [reflexivity | discriminate].

(** The pool of two, full: half of the draws read the second image. *)
Lemma getCachedImage_needs_full_pool_witness :
  fst (SampleDisk.getCachedImage (1#2) "FIRE" "realistic" "local" SampleDisk.two_cached)
  = Ret (Cache.mkCacheResult true (Some (Cache.Image "two")) None).
Proof.
  destruct (getCachedImage_needs_full_pool SampleDisk.join "/srv" SampleDisk.Disk
              SampleDisk.existsSync SampleDisk.readFileSync SampleDisk.base64 true 2
              (1#2) "FIRE" "realistic" "local" SampleDisk.two_cached)
    as (_ & _ & Hfull); [reflexivity | lia | by_run | by_run |].
  destruct Hfull as [_ Hrun].
  - intros [|[|i]] Hi; [by_run | by_run | lia].
  - unfold SampleDisk.getCachedImage. rewrite Hrun. by_run.
Defined.

(** The first image cached goes to the variation 0, which had no file. *)
Lemma cacheImage_picks_a_pool_slot_witness :
  exists j, (j < 2)%nat
    /\ fst (SampleDisk.cacheImage 0 "Fire" "Realistic" "one" "local" SampleDisk.blank)
       = Ret (Cache.mkCacheResult true None None)
    /\ SampleDisk.existsSync
         (Cache.variation_path SampleDisk.join "/srv" "Fire" "Realistic" "local" (Some j))
         SampleDisk.blank = false.
Proof.
  destruct (cacheImage_picks_a_pool_slot SampleDisk.join "/srv" SampleDisk.Disk
              SampleDisk.existsSync SampleDisk.writeFileSync SampleDisk.base64 true 2
              0 "Fire" "Realistic" "one" "local" SampleDisk.blank)
    as (j & Hj & Hrun & Hfree & _); [reflexivity | lia | by_run | by_run |].
  exists j. split; [exact Hj|]. split.
  - unfold SampleDisk.cacheImage. by rewrite Hrun.
  - apply Hfree. exists 0%nat. split; [lia | by_run].
Defined.

(** Two images into the pool of two: the lookup then serves the second
    for a draw of one half. *)
Lemma pool_fills_before_it_serves_witness :
  exists img, [(0%Q, "one"); ((1#2)%Q, "two")] !! Cache.floor_mul (1#2) 2 = Some img
    /\ fst (SampleDisk.getCachedImage (1#2) "Fire" "Realistic" "local" SampleDisk.two_cached)
       = Ret (Cache.mkCacheResult true (Some (Cache.Image (snd img))) None).
Proof.
  destruct (pool_fills_before_it_serves SampleDisk.join "/srv" SampleDisk.Disk
              SampleDisk.existsSync SampleDisk.readFileSync SampleDisk.writeFileSync
              SampleDisk.base64 SampleDisk.base64 true 2
              sample_write_exists sample_write_others
              "Fire" "Realistic" "local" [(0%Q, "one"); ((1#2)%Q, "two")]
              SampleDisk.blank SampleDisk.two_cached
              [Cache.mkCacheResult true None None; Cache.mkCacheResult true None None])
    as (_ & _ & Hlookup).
  - reflexivity.
  - lia.
  - intros [|[|i]] [|[|j]] Hi Hj Heq; try lia; try reflexivity; (vm_compute in Heq; discriminate Heq).
  - intros [|[|i]] Hi; [by_run | by_run | lia].
  - cbn. lia.
  - by_run.
  - repeat constructor.
  - destruct (Hlookup (1#2)%Q) as (_ & _ & Hfull); [by_run | by_run |].
    apply Hfull. reflexivity.
Defined.

(** Two frames cached: the lookup misses the third. *)
Lemma getCachedFrames_reports_first_gap_witness :
  fst (SampleDisk.getCachedFrames "Fire" "Realistic" SampleDisk.two_frames)
  = Ret (Cache.failed "Missing frame 2").
Proof.
  destruct (getCachedFrames_reports_first_gap SampleDisk.join "/srv" SampleDisk.Disk
              SampleDisk.existsSync SampleDisk.readFileSync SampleDisk.base64 true
              "Fire" "Realistic" SampleDisk.two_frames)
    as (_ & _ & _ & Hthere); [reflexivity|].
  destruct Hthere as [Hgap _]; [by_run|].
  unfold SampleDisk.getCachedFrames. rewrite (Hgap 2%nat); [done | lia | | by_run].
  intros [|[|j]] Hj; [| |lia]; (split; [by_run | eexists; by_run]).
Defined.


(** ** The configuration *)

Section ConfigFacts.

Import Config.

Variable parseInt : string -> option Z.
Variable env : gmap string string.

Lemma is_set_default (v : option string) : is_set v = negb (String.eqb (default "" v) "").
Proof. destruct v as [s|]; [done|reflexivity]. Qed.

(** X6 ([validateConfig] on [config]): the server refuses to start
    exactly when [USE_LOCAL_BACKEND] is the string "false" and one of the
    three Google Cloud variables is unset or empty; it then throws the
    message that names the variables missing, in their fixed order.  Any
    other value of [USE_LOCAL_BACKEND], or none, selects the local
    backend, which needs nothing; and [googleCloud.enabled] is true
    exactly when the three variables are set and not empty, so that the
    validation passes if and only if the local backend is selected or
    Google Cloud is enabled. *)
Theorem validateConfig_refuses_exactly :
  let c := config parseInt env in
  let names := ["GOOGLE_CLOUD_PROJECT_ID"; "GOOGLE_CLOUD_LOCATION"; "GOOGLE_API_KEY"] in
  let missing := filter (fun k => is_set (env !! k) = false) names in
  (useLocalBackend (server c) = false <-> env !! "USE_LOCAL_BACKEND" = Some "false")
  /\ (enabled (googleCloud c) = true <-> missing = [])
  /\ validateConfig c
     = (if useLocalBackend (server c) then Ret LocalModels
        else if enabled (googleCloud c) then Ret GoogleCloud
        else Throw (Error (missing_message missing))).
Proof.
  cbn zeta. split; [|split].
  - cbn. rewrite negb_false_iff, bool_decide_eq_true. done.
  - cbn [config googleCloud enabled].
    rewrite !filter_cons, filter_nil.
    destruct (is_set (env !! "GOOGLE_CLOUD_PROJECT_ID")),
             (is_set (env !! "GOOGLE_CLOUD_LOCATION")),
             (is_set (env !! "GOOGLE_API_KEY")); cbn; split; done.
  - unfold validateConfig, requiredVars. cbn [config googleCloud server useLocalBackend
      enabled projectId location apiKey].
    destruct (negb (bool_decide (env !! "USE_LOCAL_BACKEND" = Some "false"))); [done|].
    rewrite !filter_cons, !filter_nil. cbn [snd].
    destruct (env !! "GOOGLE_CLOUD_PROJECT_ID") as [[|? ?]|],
             (env !! "GOOGLE_CLOUD_LOCATION") as [[|? ?]|],
             (env !! "GOOGLE_API_KEY") as [[|? ?]|]; reflexivity.
Qed.

End ConfigFacts.

(** ** Strings *)

Section StringFacts.

Lemma lower_ascii_idem (c : ascii) : Str.lower_ascii (Str.lower_ascii c) = Str.lower_ascii c.
Proof. by destruct c as [[] [] [] [] [] [] [] []]. Qed.

Lemma lower_ascii_not_upper (c : ascii) : Text.is_upper (Str.lower_ascii c) = false.
Proof. by destruct c as [[] [] [] [] [] [] [] []]. Qed.

Lemma toLowerCase_idem (s : string) : Str.toLowerCase (Str.toLowerCase s) = Str.toLowerCase s.
Proof.
  induction s as [|c s IH]; cbn [Str.toLowerCase]; [done|]. by rewrite lower_ascii_idem, IH.
Qed.

Lemma string_app_cons (c : ascii) (a b : string) : String c a +:+ b = String c (a +:+ b).
Proof. reflexivity. Qed.

Lemma string_app_nil_l (b : string) : "" +:+ b = b.
Proof. reflexivity. Qed.

Lemma toLowerCase_app (a b : string) :
  Str.toLowerCase (a +:+ b) = Str.toLowerCase a +:+ Str.toLowerCase b.
Proof.
  induction a as [|c a IH]; [done|].
  rewrite string_app_cons. cbn [Str.toLowerCase]. by rewrite string_app_cons, IH.
Qed.

Lemma toLowerCase_no_upper (s : string) : Text.has_upper (Str.toLowerCase s) = false.
Proof.
  induction s as [|c s IH]; cbn [Str.toLowerCase Text.has_upper]; [done|].
  by rewrite lower_ascii_not_upper, IH.
Qed.

Lemma string_app_assoc (a b c : string) : (a +:+ b) +:+ c = a +:+ (b +:+ c).
Proof. induction a as [|x a IH]; [done|]. by rewrite !string_app_cons, IH. Qed.

Lemma string_app_nil_r (a : string) : a +:+ "" = a.
Proof. induction a as [|x a IH]; [done|]. by rewrite string_app_cons, IH. Qed.

Lemma string_length_app (a b : string) :
  String.length (a +:+ b) = (String.length a + String.length b)%nat.
Proof.
  induction a as [|x a IH]; [done|]. rewrite string_app_cons. cbn [String.length].
  by rewrite IH.
Qed.

Lemma startsWith_app_r (p s b : string) :
  Str.startsWith p s = true -> Str.startsWith p (s +:+ b) = true.
Proof.
  revert s. induction p as [|x p IH]; intros [|y s]; try done.
  rewrite string_app_cons. cbn [Str.startsWith].
  intros [Hxy Hp]%andb_prop. rewrite Hxy. cbn [andb]. by apply IH.
Qed.

Lemma includes_cons (k : string) (c : ascii) (s : string) :
  Text.includes k s = true -> Text.includes k (String c s) = true.
Proof. intros H. cbn [Text.includes]. rewrite H. apply orb_true_r. Qed.

Lemma includes_app_r (k s b : string) :
  Text.includes k s = true -> Text.includes k (s +:+ b) = true.
Proof.
  induction s as [|c s IH].
  - cbn [Text.includes]. rewrite orb_false_r, string_app_nil_l.
    intros H. destruct k; [by destruct b|done].
  - rewrite string_app_cons. cbn [Text.includes]. rewrite <- string_app_cons.
    intros [H|H]%orb_prop.
    + by rewrite (startsWith_app_r k (String c s) b H).
    + rewrite (IH H). apply orb_true_r.
Qed.

Lemma includes_app_l (k a s : string) :
  Text.includes k s = true -> Text.includes k (a +:+ s) = true.
Proof.
  intros H. induction a as [|c a IH]; [done|]. rewrite string_app_cons. by apply includes_cons.
Qed.

Lemma includes_empty (s : string) : Text.includes "" s = true.
Proof. by destruct s. Qed.

Lemma startsWith_upper (p s : string) :
  Str.startsWith p s = true -> Text.has_upper p = true -> Text.has_upper s = true.
Proof.
  revert s. induction p as [|x p IH]; intros [|y s]; cbn; try done.
  intros [Hxy Hp]%andb_prop. apply Ascii.eqb_eq in Hxy as ->.
  intros [->|H]%orb_prop; [done|]. rewrite (IH s Hp H). apply orb_true_r.
Qed.

Lemma includes_upper (k s : string) :
  Text.includes k s = true -> Text.has_upper k = true -> Text.has_upper s = true.
Proof.
  induction s as [|c s IH]; cbn [Text.includes].
  - rewrite orb_false_r. apply startsWith_upper.
  - intros [H|H]%orb_prop Hk; [by apply (startsWith_upper k)|].
    cbn. rewrite (IH H Hk). apply orb_true_r.
Qed.

Lemma startsWith_spec (p s : string) :
  Str.startsWith p s = true <-> exists r, s = p +:+ r.
Proof.
  revert s. induction p as [|x p IH]; intros s; cbn.
  - split; [by exists s|done].
  - destruct s as [|y s]; [split; [done|by intros [r Hr]]|].
    rewrite andb_true_iff, Ascii.eqb_eq, IH. split.
    + intros [-> [r ->]]. by exists r.
    + intros [r [= -> ->]]. split; [done|by exists r].
Qed.

Lemma includes_spec (k s : string) :
  Text.includes k s = true <-> exists a b, s = a +:+ k +:+ b.
Proof.
  induction s as [|c s IH]; cbn [Text.includes].
  - rewrite orb_false_r, startsWith_spec. split.
    + intros [r Hr]. by exists "", r.
    + intros (a & b & Hab). destruct a; [by exists b|done].
  - rewrite orb_true_iff, startsWith_spec, IH. split.
    + intros [[r Hr]|(a & b & Hr)]; [by exists "", r|].
      exists (String c a), b. by rewrite Hr.
    + intros ([|x a] & b & Hr); [left; by exists b|].
      right. injection Hr as -> ->. by exists a, b.
Qed.

End StringFacts.

(** ** Moderation *)

Section ModerationFacts.

Import AIConfig.

Variable inappropriateKeywords : list string.

Local Abbreviation flagged := (isInappropriateContent inappropriateKeywords).


End ModerationFacts.

(** ** Templates *)

Section TemplateFacts.

Import AIConfig.

Variable prompts : gmap string string.
Variable valueObj : gmap string string.

Lemma name_char_no_space (c : ascii) : is_name_char c = true -> Str.is_space c = false.
Proof.
  unfold is_name_char. rewrite negb_true_iff, !orb_false_iff. by intros [_ ?].
Qed.

Lemma take_name_app (name rest : string) :
  is_name name = true ->
  match rest with
  | String c _ => is_name_char c = false
  | EmptyString => True
  end ->
  take_name (name +:+ rest) = (name, rest).
Proof.
  intros Hname Hrest. induction name as [|c name IH].
  - rewrite string_app_nil_l. destruct rest as [|c rest]; [done|]. cbn [take_name].
    by rewrite Hrest.
  - cbn [is_name] in Hname. apply andb_prop in Hname as [Hc Hname].
    rewrite string_app_cons. cbn [take_name]. by rewrite Hc, (IH Hname).
Qed.

Lemma match_placeholder_shape (sp1 name sp2 post : string) :
  is_name name = true -> opt_space sp1 = true -> opt_space sp2 = true ->
  match_placeholder ("{{" +:+ sp1 +:+ name +:+ sp2 +:+ "}}" +:+ post) = Some (name, post).
Proof.
  intros Hname Hsp1 Hsp2.
  change ("{{" +:+ sp1 +:+ name +:+ sp2 +:+ "}}" +:+ post)
    with (String "{" (String "{" (sp1 +:+ name +:+ sp2 +:+ "}}" +:+ post))).
  cbn [match_placeholder].
  assert (Htail : skip_space (sp2 +:+ "}}" +:+ post) = "}}" +:+ post).
  { destruct sp2 as [|c [|? ?]]; [done| |done]. cbn in Hsp2.
    rewrite string_app_cons, string_app_nil_l. cbn [skip_space]. by rewrite Hsp2. }
  assert (Hbreak : match sp2 +:+ "}}" +:+ post with
                   | String c _ => is_name_char c = false
                   | EmptyString => True
                   end).
  { destruct sp2 as [|c [|? ?]]; [done| |done]. cbn in Hsp2.
    rewrite string_app_cons. unfold is_name_char. rewrite Hsp2.
    by rewrite !orb_true_r. }
  assert (Hgo : forall s, s = name +:+ sp2 +:+ "}}" +:+ post ->
            (let '(n, s3) := take_name s in
             match skip_space s3 with
             | String "}" (String "}" rest) => Some (n, rest)
             | _ => None
             end) = Some (name, post)).
  { intros s ->. rewrite (take_name_app name _ Hname Hbreak). by rewrite Htail. }
  destruct sp1 as [|c [|? ?]]; [|cbn in Hsp1|done].
  - rewrite string_app_nil_l. destruct name as [|x name].
    + rewrite string_app_nil_l. destruct sp2 as [|c [|? ?]]; [done| |done].
      cbn in Hsp2. rewrite string_app_cons, string_app_nil_l.
      cbn [skip_space]. rewrite Hsp2. done.
    + cbn [is_name] in Hname. apply andb_prop in Hname as [Hx Hname'].
      rewrite string_app_cons. cbn [skip_space]. rewrite (name_char_no_space x Hx).
      rewrite <- string_app_cons. apply Hgo. done.
  - rewrite string_app_cons, string_app_nil_l. cbn [skip_space]. rewrite Hsp1.
    by apply Hgo.
Qed.

Lemma replace_skip (a b : string) :
  replace_placeholders valueObj (a +:+ b) (String.length a)
  = replace_placeholders valueObj b 0.
Proof.
  induction a as [|c a IH]; [done|].
  rewrite string_app_cons. cbn [String.length replace_placeholders]. apply IH.
Qed.

Lemma replace_plain (pre s : string) :
  plain pre = true ->
  replace_placeholders valueObj (pre +:+ s) 0 = pre +:+ replace_placeholders valueObj s 0.
Proof.
  intros Hplain. induction pre as [|c pre IH]; [done|].
  cbn [plain] in Hplain. apply andb_prop in Hplain as [Hc Hplain].
  rewrite !string_app_cons. cbn [replace_placeholders].
  assert (Hnone : match_placeholder (String c (pre +:+ s)) = None).
  { unfold match_placeholder. apply negb_true_iff, Ascii.eqb_neq in Hc.
    destruct c as [[] [] [] [] [] [] [] []]; try done. }
  by rewrite Hnone, (IH Hplain).
Qed.


End TemplateFacts.

(** ** Drawing and command analysis *)

(** From [(Ret a, s) = (Ret b, s')] to the two equations, used; closes
    the goal when the two outcomes differ. *)
Ltac outcome_inv H :=
  let E1 := fresh "E" in
  let E2 := fresh "E" in
  unfold ret, throw, lift in H;
  apply pair_equal_spec in H as [E1 E2];
  first [ discriminate E1
        | try (injection E1 as E1); try (rewrite <- E1 in * ); try (rewrite <- E2 in * ) ].

Section AnalysisFacts.

Import Analysis.

Variable model : list request -> request -> ai_answer.
Variable JSON_parse : string -> outcome jsval.
Variable member : jsval -> string -> outcome jsval.
Variable prompts : gmap string string.
Variable types : list (string * list string).
Variable attributes : list (string * option string).
Variable verbs : list string.
Variable inappropriateKeywords : list string.
Variable safetySettingsResponse : jsval.

Local Abbreviation send := (sendMultimodalRequest model).
Local Abbreviation judge := (moderate inappropriateKeywords).
Local Abbreviation words := (vocabulary types attributes).

Lemma send_inv (p : string) (img : option jsval) (sch : string)
    (log log' : list request) (o : outcome string) :
  send p img sch log = (o, log') ->
  (p = "" /\ log' = log /\ o = Throw (Error "No text prompt provided"))
  \/ (p <> "" /\ log' = log ++ [mkRequest p img sch "gemini-2.0-flash-exp"]
      /\ o <> Ret "").
Proof.
  unfold sendMultimodalRequest. destruct (String.eqb p "") eqn:Hp.
  - apply String.eqb_eq in Hp. unfold throw. intros [= <- <-]. by left.
  - apply String.eqb_neq in Hp. intros Hrun. right. split; [done|].
    destruct (model log _) as [reason text|code msg].
    + case_bool_decide; [by injection Hrun as <- <-|].
      destruct (String.eqb (default "" text) "") eqn:Htext; injection Hrun as <- <-;
        [done|]. split; [done|]. apply String.eqb_neq in Htext. congruence.
    + by injection Hrun as <- <-.
Qed.

Lemma send_empty (img : option jsval) (sch : string) (log : list request) :
  send "" img sch log = (Throw (Error "No text prompt provided"), log).
Proof. reflexivity. Qed.

(** X9 ([buildPrompt], [sendMultimodalRequest], [imageToConfig],
    [textToCommand]): without its prompt, the analysis fails before it
    asks.  When the configuration has no prompt, or an empty one, under
    [analysis_initialGuess], every call of [imageToConfig] on an image
    throws "No text prompt provided" and makes no request to the model;
    likewise [textToCommand] under [analysis_textToCommand].  With the
    default configuration, which has no prompt at all, this is the fate
    of every analysis. *)
Theorem no_prompt_no_request :
  (prompts !! "analysis_initialGuess" = None \/ prompts !! "analysis_initialGuess" = Some "" ->
     forall img log, truthy img = true ->
       imageToConfig model JSON_parse member prompts types attributes inappropriateKeywords
         safetySettingsResponse img log
       = (Throw (Error "No text prompt provided"), log))
  /\ (prompts !! "analysis_textToCommand" = None
      \/ prompts !! "analysis_textToCommand" = Some "" ->
     forall text targets log,
       textToCommand model JSON_parse prompts verbs text targets log
       = (Throw (Error "No text prompt provided"), log))
  /\ (forall img text targets log, truthy img = true ->
       imageToConfig model JSON_parse member AIConfig.default_prompts types attributes
         inappropriateKeywords safetySettingsResponse img log
       = (Throw (Error "No text prompt provided"), log)
       /\ textToCommand model JSON_parse AIConfig.default_prompts verbs text targets log
          = (Throw (Error "No text prompt provided"), log)).
Proof.
  assert (Hkey : forall (ps : gmap string string) key vals,
            ps !! key = None \/ ps !! key = Some "" -> AIConfig.buildPrompt ps key vals = "").
  { intros ps key vals [Hk|Hk]; unfold AIConfig.buildPrompt; rewrite Hk; [done|].
    by rewrite !andb_false_r. }
  assert (Himage : forall ps : gmap string string,
            ps !! "analysis_initialGuess" = None \/ ps !! "analysis_initialGuess" = Some "" ->
            forall img log, truthy img = true ->
              imageToConfig model JSON_parse member ps types attributes inappropriateKeywords
                safetySettingsResponse img log
              = (Throw (Error "No text prompt provided"), log)).
  { intros ps Hps img log Himg. unfold imageToConfig. rewrite Himg. cbn [negb].
    rewrite (Hkey _ _ _ Hps). unfold bind. by rewrite send_empty. }
  assert (Hcommand : forall ps : gmap string string,
            ps !! "analysis_textToCommand" = None \/ ps !! "analysis_textToCommand" = Some "" ->
            forall text targets log,
              textToCommand model JSON_parse ps verbs text targets log
              = (Throw (Error "No text prompt provided"), log)).
  { intros ps Hps text targets log. unfold textToCommand.
    rewrite (Hkey _ _ _ Hps). unfold bind. by rewrite send_empty. }
  split; [apply Himage|]. split; [apply Hcommand|].
  intros img text targets log Himg. split.
  - apply Himage; [by left|done].
  - apply Hcommand. by left.
Qed.

Lemma includes_trans (a b c : string) :
  Text.includes a b = true -> Text.includes b c = true -> Text.includes a c = true.
Proof.
  rewrite !includes_spec. intros (x & y & ->) (u & w & ->).
  exists (u +:+ x), (y +:+ w). by rewrite !string_app_assoc.
Qed.

Lemma includes_lower (a b : string) :
  Text.includes a b = true ->
  Text.includes (Str.toLowerCase a) (Str.toLowerCase b) = true.
Proof.
  rewrite !includes_spec. intros (x & y & ->).
  exists (Str.toLowerCase x), (Str.toLowerCase y). by rewrite !toLowerCase_app.
Qed.

(** A type that passed the filter contains no type the filter would
    stop. *)
Lemma judge_contained (type : jsval) (word : string) :
  judge type = Ret false -> value_includes type word = Ret true ->
  judge (JStr word) = Ret false.
Proof.
  unfold moderate. destruct inappropriateKeywords as [|k0 ks] eqn:Hks; [done|].
  rewrite <- Hks. clear Hks.
  destruct type as [| | | |s| |]; try done. cbn [Stage.call_toLowerCase obind value_includes].
  intros [= Hclean] [= Hin]. f_equal.
  apply not_true_is_false. intros Hflag. apply not_true_iff_false in Hclean. apply Hclean.
  apply existsb_exists in Hflag as (k & Hk & Hhit). apply existsb_exists.
  exists k. split; [done|]. apply (includes_trans _ _ _ Hhit). by apply includes_lower.
Qed.

Lemma first_type_spec (type : jsval) (l : list (string * list string))
    (t : string * list string) :
  first_type type l = Ret (Some t) -> t ∈ l /\ value_includes type (fst t) = Ret true.
Proof.
  induction l as [|t0 l IH]; [done|]. cbn [first_type].
  destruct (value_includes type (fst t0)) as [[]|e] eqn:Hhit; cbn [obind]; [| |done].
  - intros [= <-]. split; [left|done].
  - intros Hrest. destruct (IH Hrest). split; [by right|done].
Qed.

Lemma true_attributes_vocabulary (g : jsval) (l : list (string * option string))
    (names : list string) :
  true_attributes member g l = Ret names ->
  forall n, n ∈ names -> n ∈ map (fun a => default (fst a) (snd a)) l.
Proof.
  revert names. induction l as [|a l IH]; intros names; cbn [true_attributes].
  - intros [= <-] n Hn. by apply elem_of_nil in Hn.
  - destruct (has_field "attributes" g) as [nested|e]; cbn [obind]; [|done].
    destruct (if nested then get_field g "attributes" else Ret g) as [dict|e];
      cbn [obind]; [|done].
    destruct (member dict (fst a)) as [value|e]; cbn [obind]; [|done].
    destruct (true_attributes member g l) as [rest|e]; cbn [obind]; [|done].
    intros [= <-] n Hn. cbn [map]. destruct (truthy value).
    + apply elem_of_cons in Hn as [->|Hn]; [left|right; by apply (IH rest)].
    + right. by apply (IH rest).
Qed.

Local Abbreviation well_formed :=
  (well_formed_answer types attributes inappropriateKeywords safetySettingsResponse).

Lemma genericAnalysis_answer (img : jsval) (log log' : list request) (r : jsval) :
  genericAnalysis model JSON_parse member prompts attributes inappropriateKeywords
    safetySettingsResponse img log = (Ret r, log') ->
  well_formed r
  /\ exists sent, log' = log ++ sent /\ (1 <= length sent <= 2)%nat.
Proof.
  unfold genericAnalysis. intros Hrun. unfold bind at 1 in Hrun.
  destruct (send _ _ _ log) as [[text1|e] log1] eqn:Hsend1; [|outcome_inv Hrun].
  apply send_inv in Hsend1 as [(_ & _ & [=])|(_ & -> & _)].
  destruct (String.eqb text1 "__BLOCKED__").
  { outcome_inv Hrun. split; [by left|]. eexists. split; [done|]. cbn. lia. }
  destruct (String.eqb text1 ""); [outcome_inv Hrun|].
  unfold bind at 1, lift at 1 in Hrun.
  destruct (parse_or JSON_parse _ text1) as [guess|e]; [|outcome_inv Hrun].
  unfold bind at 1, lift at 1 in Hrun.
  destruct (get_field guess "type") as [type|e]; [|outcome_inv Hrun].
  unfold bind at 1, lift at 1 in Hrun.
  destruct (judge type) as [[]|e] eqn:Hjudge; [| |outcome_inv Hrun].
  { outcome_inv Hrun. split; [by left|]. eexists. split; [done|]. cbn. lia. }
  cbn zeta in Hrun. unfold bind at 1 in Hrun.
  destruct (send _ _ _ (log ++ _)) as [[text2|e] log2] eqn:Hsend2; [|outcome_inv Hrun].
  apply send_inv in Hsend2 as [(_ & _ & [=])|(_ & -> & _)].
  assert (Hsent : exists sent, (log ++ [mkRequest (default "" (prompts !! "analysis_genericGuess"))
                    (Some img) "imageToConfig" "gemini-2.0-flash-exp"]) ++
                    [mkRequest
                       (AIConfig.buildPrompt prompts "analysis_attributesGuess"
                          (<["type" := Stage.to_string type]>
                             (<["attributes" := getAttributes attributes]> ∅)))
                       None "attributesList" "gemini-2.0-flash-exp"]
                    = log ++ sent /\ (1 <= length sent <= 2)%nat).
  { eexists. rewrite <- app_assoc. split; [done|]. cbn. lia. }
  destruct (String.eqb text2 "__BLOCKED__").
  { outcome_inv Hrun. split; [by left|done]. }
  destruct (String.eqb text2 ""); [outcome_inv Hrun|].
  unfold bind at 1, lift at 1 in Hrun.
  destruct (parse_or JSON_parse _ text2) as [guess2|e]; [|outcome_inv Hrun].
  unfold bind at 1, lift at 1 in Hrun.
  destruct (true_attributes member guess2 attributes) as [names|e] eqn:Hnames;
    [|outcome_inv Hrun].
  outcome_inv Hrun. split; [|done]. right.
  eexists _, type, names. split; [done|]. split; [by simplify_map_eq|].
  split; [by simplify_map_eq|]. split; [|done].
  intros n Hn. unfold vocabulary. apply elem_of_app. right.
  by apply (true_attributes_vocabulary guess2 attributes names).
Qed.


Lemma indexOf_found_elem (l : list jsval) (t : string) :
  indexOf_found l t = true -> JStr t ∈ l.
Proof.
  unfold indexOf_found. intros (x & Hx & Hstr)%existsb_exists.
  apply list_elem_of_In in Hx. destruct x as [| | | |s| |]; try done.
  cbn in Hstr. by apply String.eqb_eq in Hstr as ->.
Qed.

Lemma validate_command_spec (command targets : jsval) (verb target : string) :
  validate_command verbs command targets = Ret (verb, target) ->
  exists v t given,
    get_field command "verb" = Ret (JStr v) /\ get_field command "target" = Ret (JStr t)
    /\ v ∈ verbs /\ verb = Str.toLowerCase v
    /\ spread_or_empty targets = Ret given
    /\ JStr t ∈ given ++ [JStr "LAST_OBJECT"; JStr "LAST_CREATED"; JStr "ALL"]
    /\ target = Str.toLowerCase t.
Proof.
  unfold validate_command.
  destruct (negb (truthy command) || negb (typeof_object command))%bool; [done|].
  destruct (has_field "verb" command) as [hasVerb|e]; cbn [obind]; [|done].
  destruct (has_field "target" command) as [hasTarget|e]; cbn [obind]; [|done].
  destruct (Nat.ltb 0 _); [done|].
  destruct (get_field command "verb") as [[| | | |v| |]|e]; cbn [obind]; try done;
    destruct (get_field command "target") as [[| | | |t| |]|e]; cbn [obind]; try done.
  destruct (spread_or_empty targets) as [given|e]; cbn [obind]; [|done].
  case_bool_decide as Hverb; cbn [negb]; [|done].
  destruct (indexOf_found _ t) eqn:Htarget; cbn [negb]; [|done].
  intros [= <- <-]. exists v, t, given. repeat split; try done.
  by apply indexOf_found_elem.
Qed.

(** X11 ([textToCommand]): a command that is returned is valid and
    normalised.  Whatever the model answers, when [textToCommand]
    returns a verb and a target, the verb is, in lower case, one of the
    configured verbs, and the target is, in lower case, one of the
    current targets given or one of LAST_OBJECT, LAST_CREATED and ALL;
    both are left as they are by a further lower-casing, as the
    client's [processCommand] does; and exactly one request was made, for
    a command, without an image. *)
Theorem textToCommand_returns_valid_command (text : option string) (targets : jsval)
    (log log' : list request) (verb target : string) :
  textToCommand model JSON_parse prompts verbs text targets log = (Ret (verb, target), log') ->
  (exists v, v ∈ verbs /\ verb = Str.toLowerCase v)
  /\ (exists t given,
        spread_or_empty targets = Ret given
        /\ JStr t ∈ given ++ [JStr "LAST_OBJECT"; JStr "LAST_CREATED"; JStr "ALL"]
        /\ target = Str.toLowerCase t)
  /\ Str.toLowerCase verb = verb /\ Str.toLowerCase target = target
  /\ exists prompt, prompt <> ""
       /\ log' = log ++ [mkRequest prompt None "textToCommand" "gemini-2.0-flash-exp"].
Proof.
  unfold textToCommand. cbn zeta. intros Hrun. unfold bind at 1 in Hrun.
  destruct (send _ _ _ log) as [[commandText|e] log1] eqn:Hsend; [|outcome_inv Hrun].
  apply send_inv in Hsend as [(_ & _ & [=])|(Hprompt & -> & _)].
  destruct (String.eqb commandText ""); [outcome_inv Hrun|].
  unfold bind at 1, lift at 1 in Hrun.
  destruct (parse_or JSON_parse _ _) as [command|e]; [|outcome_inv Hrun].
  unfold lift in Hrun.
  destruct (validate_command verbs command targets) as [[verb' target']|e] eqn:Hvalid;
    [|outcome_inv Hrun].
  injection Hrun as -> -> <-.
  apply validate_command_spec in Hvalid
    as (v & t & given & _ & _ & Hv & -> & Hgiven & Ht & ->).
  split; [by exists v|]. split; [by exists t, given|].
  rewrite !toLowerCase_idem. split; [done|]. split; [done|].
  by eexists.
Qed.

End AnalysisFacts.


(** "Burn it all", answered inside a fence, is the command to set fire
    to everything. *)
Lemma textToCommand_returns_valid_command_witness :
  (exists v, v ∈ SampleAI.verbs /\ "setfire" = Str.toLowerCase v)
  /\ Str.toLowerCase "all" = "all".
Proof.
  destruct (textToCommand_returns_valid_command SampleAI.model SampleAI.JSON_parse
              SampleAI.prompts SampleAI.verbs (Some "Burn it all") (JArr [JStr "key"]) []
              (snd (SampleAI.textToCommand (Some "Burn it all") (JArr [JStr "key"]) []))
              "setfire" "all")
    as (Hverb & _ & _ & Htarget & _); [by_run|].
  split; [exact Hverb|exact Htarget].
Defined.

(** ** The routes *)

Section PollingAgainstTheServer.

Import Stage Server Routes.

Variable newWorldObject : Z -> Z -> string -> propbag -> Entity.
Variable updateObject : option string -> option propbag -> Entity -> Entity.
Variable constructServerUrl : string -> string.

Hypothesis updateObject_texture : ∀ k p e, texture (updateObject (Some k) p e) = Some k.
Hypothesis updateObject_keeps : ∀ k p e,
  alpha (updateObject k p e) = alpha e
  ∧ tweens (updateObject k p e) = tweens e
  ∧ anim (updateObject k p e) = anim e.

Variable join : list string -> string.
Variable JSON_parse : string -> outcome jsval.

Lemma checkFrames_answer (exists_ : string -> bool) (c : ascii) (h : string) :
  let hash := String c h in
  fst (checkFrames join exists_ (Some hash))
  = mkResponse 200
      (JObj (<["ready" := JBool (forallb (fun i => exists_ (frame_path join hash i)) (seq 0 4))]>
            (<["progress" := JNum (Z.of_nat (length (filter (fun i => exists_ (frame_path join hash i) = true) (seq 0 4))))]>
            (<["total" := JNum 4]> ∅)))).
Proof.
  intros hash. unfold checkFrames. fold hash. cbn [count_frames seq forallb].
  unfold frame_path. rewrite !filter_cons, filter_nil.
  destruct (exists_ (join [join ["generated"]; frame_file hash 0])),
           (exists_ (join [join ["generated"]; frame_file hash 1])),
           (exists_ (join [join ["generated"]; frame_file hash 2])),
           (exists_ (join [join ["generated"]; frame_file hash 3]));
    repeat case_decide; try congruence; reflexivity.
Qed.

Lemma all_frames_spec (exists_ : string -> bool) (hash : string) :
  forallb (fun i => exists_ (frame_path join hash i)) (seq 0 4) = true
  <-> forall k, (k < 4)%nat -> exists_ (frame_path join hash k) = true.
Proof.
  rewrite forallb_forall. split.
  - intros H k Hk. apply H, in_seq. lia.
  - intros H k Hk. apply H. apply in_seq in Hk. lia.
Qed.

Lemma served_not_ready (c : ascii) (h : string) (files : Files) (r : PollRound) :
  let hash := String c h in
  served join JSON_parse hash files r ->
  existsSync files (error_file join hash) = true
  \/ (exists k, (k < 4)%nat /\ existsSync files (frame_path join hash k) = false) ->
  not_ready r.
Proof.
  intros hash [Herr Hfr] Hfiles s status s' Hcheck v Hready.
  unfold checkFrameStatus, try_catch, bind, lift, throw, console_error, modify in Hcheck.
  destruct (errorFetch r) as [h1|e]; [|discriminate Hcheck].
  destruct Herr as (Hst1 & Hok1 & Hbody1).
  destruct (resp_ok h1) eqn:Eok1.
  { destruct (resp_json h1) as [errorData|e]; [|discriminate Hcheck].
    destruct (get_field errorData "error"); discriminate Hcheck. }
  destruct (negb (Nat.eqb (resp_status h1) 404)) eqn:E404; [discriminate Hcheck|].
  apply negb_false_iff, Nat.eqb_eq in E404.
  destruct (framesFetch r) as [h2|e]; [|discriminate Hcheck].
  destruct Hfr as (Hst2 & Hok2 & Hbody2).
  unfold hash in Hst2, Hok2, Hbody2. rewrite checkFrames_answer in Hst2, Hok2, Hbody2.
  cbn [res_status res_body] in Hst2, Hok2, Hbody2.
  rewrite Hok2 in Hcheck. cbn in Hcheck. rewrite Hbody2 in Hcheck by done.
  injection Hcheck as <- _.
  cbn in Hready. rewrite lookup_insert_eq in Hready. injection Hready as <-. cbn [truthy].
  destruct Hfiles as [Hfile|(k & Hk & Hmiss)].
  - exfalso. rewrite E404 in Hst1. unfold checkError, hash, error_file in Hst1.
    fold (error_file join (String c h)) in Hst1. fold hash in Hst1.
    rewrite Hfile in Hst1. cbn [obind] in Hst1.
    destruct (readFileSync files _) as [text|e]; cbn [obind handled] in Hst1;
      [destruct (JSON_parse text); cbn [handled] in Hst1|]; discriminate Hst1.
  - apply not_true_is_false. intros Hall.
    pose proof (proj1 (all_frames_spec (existsSync files) (String c h)) Hall) as Hall'.
    specialize (Hall' k Hk). unfold hash in Hmiss. congruence.
Qed.

Lemma served_ready (c : ascii) (h : string) (files : Files) (r : PollRound)
    (h1 h2 : http_response) (s : Scene) :
  let hash := String c h in
  served join JSON_parse hash files r ->
  errorFetch r = Ret h1 -> framesFetch r = Ret h2 ->
  existsSync files (error_file join hash) = false ->
  (forall k, (k < 4)%nat -> existsSync files (frame_path join hash k) = true) ->
  exists status,
    checkFrameStatus r s = (Ret status, s)
    /\ get_field status "ready" = Ret (JBool true).
Proof.
  intros hash [Herr Hfr] E1 E2 Hfile Hall.
  rewrite E1 in Herr. rewrite E2 in Hfr.
  destruct Herr as (Hst1 & Hok1 & _). destruct Hfr as (Hst2 & Hok2 & Hbody2).
  unfold hash in Hst2, Hok2, Hbody2. rewrite checkFrames_answer in Hst2, Hok2, Hbody2.
  cbn [res_status res_body] in Hst2, Hok2, Hbody2.
  unfold checkError in Hst1, Hok1. fold (error_file join (String c h)) in Hst1, Hok1.
  fold hash in Hst1, Hok1. rewrite Hfile in Hst1, Hok1. cbn in Hst1, Hok1.
  apply all_frames_spec in Hall. fold hash in Hbody2. rewrite Hall in Hbody2.
  eexists. split.
  - unfold checkFrameStatus, try_catch, bind, lift. rewrite E1, Hok1, Hst1. cbn.
    rewrite E2, Hok2. cbn. rewrite Hbody2 by done. reflexivity.
  - cbn. by rewrite lookup_insert_eq.
Qed.

(** X12 ([GET /checkError/:hash], [GET /checkFrames/:hash],
    [errorHandler], [pollForFramesAndShowAnimation]): the client polling
    the two routes.  A round in which the server has the error file of
    the hash, readable or not, or lacks one of the four frame files,
    never reports the frames ready; so when this is the case in each of
    the [maxRetries] = 30 rounds, for an object of the scene that blinks
    while it waits, the polling returns after the fallback to the static
    image.  And a round in which the server has no error file and all
    four frames, both requests being answered, reports the frames
    ready. *)
Theorem polling_follows_the_server_files (c : ascii) (h : string) (id : nat)
    (files : nat -> Files) (rounds : nat -> PollRound) (s : Scene) (e0 : Entity) :
  let hash := String c h in
  objs s !! id = Some e0 ->
  is_Some (tweens e0 !! "blinkTween") ->
  Forall is_update (onceComplete s) ->
  (forall i, (i < maxRetries)%nat -> served join JSON_parse hash (files i) (rounds i)) ->
  ((forall i, (i < maxRetries)%nat ->
      existsSync (files i) (error_file join hash) = true
      \/ exists k, (k < 4)%nat /\ existsSync (files i) (frame_path join hash k) = false) ->
   let res := pollForFramesAndShowAnimation newWorldObject updateObject constructServerUrl
                hash (Some id) rounds s in
   fst res = Ret tt
   /\ fallen_back updateObject constructServerUrl hash id e0 (children s) (snd res))
  /\ (forall i h1 h2 s',
        (i < maxRetries)%nat ->
        errorFetch (rounds i) = Ret h1 -> framesFetch (rounds i) = Ret h2 ->
        existsSync (files i) (error_file join hash) = false ->
        (forall k, (k < 4)%nat -> existsSync (files i) (frame_path join hash k) = true) ->
        exists status,
          checkFrameStatus (rounds i) s' = (Ret status, s')
          /\ get_field status "ready" = Ret (JBool true)).
Proof.
  intros hash He0 Hblink Hall Hserved. split.
  - intros Hfiles res.
    assert (Hw : waiting id e0 (children s) s).
    { split; [by exists e0 | by split]. }
    destruct (poll_loop_falls_back newWorldObject updateObject constructServerUrl
                updateObject_texture updateObject_keeps hash id e0 (children s) rounds
                maxRetries 0 s) as [Hret Hfb]; [ | exact Hw | ].
    { intros i Hi. apply (served_not_ready c h (files i)); [apply Hserved | apply Hfiles]; lia. }
    cbv zeta in Hret, Hfb. subst res.
    unfold pollForFramesAndShowAnimation, try_catch.
    destruct (poll_loop newWorldObject updateObject constructServerUrl hash (Some id)
                rounds maxRetries 0 s) as [o s1].
    cbn in Hret, Hfb. subst o. by split.
  - intros i h1 h2 s' Hi E1 E2 Hfile Hframes.
    by apply (served_ready c h (files i) (rounds i) h1 h2 s'); [apply Hserved | ..].
Qed.

End PollingAgainstTheServer.

(** An instance of [polling_follows_the_server_files]: a server without
    any file, polled for a blinking placeholder. *)
Lemma polling_follows_the_server_files_witness :
  let blinking := Stage.mkEntity Stage.PlainWorldObject "cat" (Some Sample.defaultProp) None
                    (3 # 10) 0 ∅ {["blinkTween" := true]} None in
  let s := Stage.with_children [0%nat]
             (Stage.with_objs {[0%nat := blinking]} Sample.emptyScene) in
  let res := Stage.pollForFramesAndShowAnimation Sample.userobject Sample.updateObject
               Sample.constructServerUrl "abc" (Some 0%nat) Sample.never_ready s in
  fst res = Ret tt
  /\ Stage.fallen_back Sample.updateObject Sample.constructServerUrl "abc" 0 blinking [0%nat]
       (snd res).
Proof.
  intros blinking s res.
  pose (files := fun _ : nat =>
          Routes.mkFiles (fun _ => false) (fun _ => Throw (Error "ENOENT")) "now").
  destruct (polling_follows_the_server_files Sample.userobject Sample.updateObject
              Sample.constructServerUrl sample_updateObject_texture sample_updateObject_keeps
              SampleDisk.join (fun _ => Throw (SyntaxError "Unexpected token"))
              "a"%char "bc" 0%nat files Sample.never_ready s blinking
              eq_refl (ex_intro _ true eq_refl) (List.Forall_nil _))
    as [Hfall _].
  - intros i _. split; cbn; (split; [by_run | split; [by_run | ] ]).
    + intros Hbody. exfalso. by apply Hbody.
    + intros _. by_run.
  - apply Hfall. intros i _. right. exists 0%nat. split; [lia | reflexivity].
Defined.

(** ** The analysis routes *)

Section AnalysisRouteFacts.

Import Server Routes Analysis AnalysisRoutes.

Variable model : list request -> request -> ai_answer.
Variable JSON_parse : string -> outcome jsval.
Variable member : jsval -> string -> outcome jsval.
Variable prompts : gmap string string.
Variable types : list (string * list string).
Variable attributes : list (string * option string).
Variable verbs : list string.
Variable inappropriateKeywords : list string.
Variable safetySettingsResponse : jsval.

Local Abbreviation analyse :=
  (imageToConfig model JSON_parse member prompts types attributes inappropriateKeywords
     safetySettingsResponse).
Local Abbreviation judge := (moderate inappropriateKeywords).

(** What the route reads of an answer of [imageToConfig]. *)
Lemma imageToConfig_type_passes (img : jsval) (log log' : list request) (r : jsval) :
  analyse img log = (Ret r, log') ->
  r = safetySettingsResponse
  \/ exists type, get_field r "type" = Ret type /\ judge type = Ret false.
Proof.
  unfold imageToConfig. intros Hrun.
  destruct (truthy img); cbn [negb] in Hrun; [|outcome_inv Hrun].
  cbn zeta in Hrun. unfold bind at 1 in Hrun.
  destruct (sendMultimodalRequest model _ _ _ log) as [[text|e] log1]; [|outcome_inv Hrun].
  destruct (String.eqb text "__BLOCKED__"); [outcome_inv Hrun; by left|].
  destruct (String.eqb text ""); [outcome_inv Hrun|].
  unfold bind at 1, lift at 1 in Hrun.
  destruct (parse_or JSON_parse _ text) as [finalResult|e]; [|outcome_inv Hrun].
  unfold bind at 1, lift at 1 in Hrun.
  destruct (get_field finalResult "type") as [type|e] eqn:Htype; [|outcome_inv Hrun].
  unfold bind at 1, lift at 1 in Hrun.
  destruct (judge type) as [[]|e] eqn:Hjudge; [| |outcome_inv Hrun].
  { outcome_inv Hrun. by left. }
  unfold bind at 1, lift at 1 in Hrun.
  destruct (first_type type types) as [[t|]|e] eqn:Hfirst; [| |outcome_inv Hrun].
  - outcome_inv Hrun. right.
    apply first_type_spec in Hfirst as [Hin Hhit].
    assert (Hobj : exists m : propbag, finalResult = JObj m).
    { destruct finalResult;
        try (cbn in Htype; first [discriminate Htype | injection Htype as <-; discriminate Hhit]).
      by eexists. }
    destruct Hobj as [m ->]. cbn [with_type].
    exists (JStr (fst t)). split; [cbn; by simplify_map_eq|].
    by apply (judge_contained inappropriateKeywords type).
  - apply (genericAnalysis_answer _ _ _ _ types) in Hrun as [Hwf _].
    unfold well_formed_answer in Hwf.
    destruct Hwf as [->|(m & type' & names & -> & Ht & _ & _ & Hj)].
    + by left.
    + right. exists type'. split; [cbn; by rewrite Ht|done].
Qed.

Lemma substring_from_short (n : nat) (s : string) :
  (String.length s <= n)%nat -> Str.substring_from n s = "".
Proof.
  revert s. induction n as [|n IH]; intros [|c s] Hlen; cbn in *; try done; try lia.
  apply IH. lia.
Qed.


End AnalysisRouteFacts.

(** ** The drawing analysis with Ollama *)

Section OllamaFacts.

Import Server Routes Ollama.

Variable fetch : list call -> call -> outcome reply.
Variable parseFloat : string -> option Q.
Variable inappropriateKeywords : list string.
Variable safetySettingsResponse : jsval.

Lemma find_field_label (label s : string) (value : string) :
  find_field label s = Some value -> Text.includes label (Str.toLowerCase s) = true.
Proof.
  induction s as [|c s IH]; cbn [find_field Str.toLowerCase Text.includes].
  - destruct (Str.startsWith label ""); [by rewrite orb_true_l|].
    by intros [=].
  - destruct (Str.startsWith label (String (Str.lower_ascii c) (Str.toLowerCase s)));
      [by rewrite orb_true_l|].
    intros Hrest. rewrite orb_false_l. by apply IH.
Qed.

Lemma clamp_range (x : option Q) (q : Q) :
  Math_min (Some 1%Q) (Math_max (Some 0%Q) x) = Some q -> (0 <= q)%Q /\ (q <= 1)%Q.
Proof.
  destruct x as [x|]; [|done]. cbn [Math_max Math_min].
  destruct (Qle_bool 0 x) eqn:Hlow.
  - apply Qle_bool_iff in Hlow.
    destruct (Qle_bool 1 x) eqn:Hhigh; intros [= <-]; [done|].
    split; [done|]. apply Qlt_le_weak, Qnot_le_lt. intros Hle.
    apply Qle_bool_iff in Hle. congruence.
  - by destruct (Qle_bool 1 0) eqn:Hhigh; intros [= <-].
Qed.

Lemma read_analysis_traits (text : string) :
  dom (properties (read_analysis parseFloat text)) = trait_set.
Proof.
  unfold read_analysis. cbn [properties]. unfold parsePropertiesFromString.
  apply apply_overrides_dom, foldl_apply_word_dom, initial_properties_dom.
Qed.

Lemma drawing_analysis_requests (imageBase64 : jsval) (log log' : list call)
    (a : DrawingAnalysis) :
  analyzeDrawingWithOllama fetch parseFloat imageBase64 log = (Ret a, log') ->
  exists image, log' = log ++ [Generate image].
Proof.
  unfold analyzeDrawingWithOllama. intros Hrun.
  unfold bind at 1, lift at 1 in Hrun.
  destruct (clean_image imageBase64) as [image|e]; [|outcome_inv Hrun].
  unfold bind at 1, request at 1 in Hrun.
  destruct (fetch log (Generate image)) as [response|e]; [|outcome_inv Hrun].
  destruct (reply_ok response); cbn [negb] in Hrun; [|outcome_inv Hrun].
  unfold bind at 1, lift at 1 in Hrun.
  destruct (reply_json response) as [data|e]; [|outcome_inv Hrun].
  unfold bind at 1, lift at 1 in Hrun.
  destruct (get_field data "response") as [[| | | |text| |]|e]; outcome_inv Hrun.
  by exists image.
Qed.


(** X15 ([POST /analyze-drawing], [isOllamaAvailable]): the route
    always answers and never throws.  Without a truthy [imageData] it
    answers 400 and Ollama is not contacted; when the request for the
    tags fails or is not answered with a success it answers 503 with
    [fallback] and asks for no analysis; every error of the analysis
    becomes an answer 500 with the message of the error; and an
    analysis is sent only after the two requests, in this order, and
    only with a type the keyword filter lets through. *)
Theorem analyzeDrawing_always_answers (body : propbag) (log : list call) :
  let imageData := default JUndefined (body !! "imageData") in
  let run := analyzeDrawing fetch parseFloat inappropriateKeywords safetySettingsResponse
               body log in
  (exists sent, fst run = Ret sent)
  /\ (truthy imageData = false ->
      run = (Ret (Plain (json_error 400 "No image data provided")), log))
  /\ (truthy imageData = true ->
      (forall r, fetch log Tags = Ret r -> reply_ok r = false) ->
      exists r, run = (Ret (Plain r), log ++ [Tags]) /\ res_status r = 503%nat)
  /\ (forall e log', truthy imageData = true ->
      isOllamaAvailable fetch log = (Ret true, log ++ [Tags]) ->
      analyzeDrawingWithOllama fetch parseFloat imageData (log ++ [Tags]) = (Throw e, log') ->
      run = (Ret (Plain (mkResponse 500
                    (JObj (<["error" := JStr (Analysis.message_of e)]>
                          (<["success" := JBool false]> ∅))))), log'))
  /\ (forall a, fst run = Ret (Recognised a) ->
      AIConfig.isInappropriateContent inappropriateKeywords (objectType a) = false
      /\ exists image,
           snd run = log ++ [Tags; Generate image]
           /\ analyzeDrawingWithOllama fetch parseFloat imageData (log ++ [Tags])
              = (Ret a, snd run)).
Proof.
  intros imageData run.
  remember run as res eqn:Hres. subst run.
  unfold analyzeDrawing, try_catch in Hres. cbn zeta in Hres. fold imageData in Hres.
  destruct (truthy imageData) eqn:Hdata; cbn [negb] in Hres.
  2: { unfold ret in Hres. subst res. cbn [fst snd].
       refine (conj _ (conj _ (conj _ (conj _ _)))); try done; by eexists. }
  unfold bind at 1 in Hres.
  assert (Havail : exists up, isOllamaAvailable fetch log = (Ret up, log ++ [Tags])
                    /\ (up = true -> exists r, fetch log Tags = Ret r /\ reply_ok r = true)).
  { unfold isOllamaAvailable, try_catch, bind, request, ret.
    destruct (fetch log Tags) as [r|e]; eexists; (split; [done|]); [|done].
    intros Hup. by exists r. }
  destruct Havail as (up & Havail & Hup). rewrite Havail in Hres.
  destruct up; cbn [negb] in Hres.
  2: { unfold ret in Hres. subst res. cbn [fst snd].
       refine (conj _ (conj _ (conj _ (conj _ _)))); try done; [by eexists | by eexists | ].
       intros e log' _ Hav. rewrite Havail in Hav. discriminate Hav. }
  destruct (Hup eq_refl) as (r & Hr & Hok).
  unfold bind at 1 in Hres.
  destruct (analyzeDrawingWithOllama fetch parseFloat imageData (log ++ [Tags]))
    as [[a|e] log1] eqn:Hrun.
  - assert (Hlog : exists image, log1 = log ++ [Tags; Generate image]).
    { destruct (drawing_analysis_requests imageData (log ++ [Tags]) log1 a Hrun) as [image ->].
      exists image. by rewrite <- app_assoc. }
    destruct (AIConfig.isInappropriateContent inappropriateKeywords (objectType a)) eqn:Hflag;
      unfold ret in Hres; subst res; cbn [fst snd];
      refine (conj _ (conj _ (conj _ (conj _ _))));
      [ by eexists | done
      | intros _ Hfail; rewrite (Hfail r Hr) in Hok; discriminate Hok
      | by intros e log' _ _ [=]
      | by intros a' [=]
      | by eexists | done
      | intros _ Hfail; rewrite (Hfail r Hr) in Hok; discriminate Hok
      | by intros e log' _ _ [=]
      | ].
    intros a' [= <-]. split; [done|]. destruct Hlog as [image ->]. by exists image.
  - unfold ret in Hres. subst res. cbn [fst snd].
    refine (conj _ (conj _ (conj _ (conj _ _))));
      [ by eexists | done
      | intros _ Hfail; rewrite (Hfail r Hr) in Hok; discriminate Hok
      | by intros e' log' _ _ [= <- <-]
      | by intros a' [=] ].
Qed.

End OllamaFacts.


(** ** The generation route *)

Section GenerationFacts.

Import Server Routes Generation.

Variable W : Type.
Variable join : list string -> string.
Variable existsSync : string -> W -> bool.
Variable unlinkSync : string -> ST W unit.
Variable writeFileSync : string -> string -> ST W unit.
Variable copyFileSync : string -> string -> ST W unit.
Variable readFileSync : string -> ST W string.
Variable fromBase64 : string -> string.
Variable toBase64 : string -> string.
Variable request_hash : jsval -> jsval -> string.
Variable generateImageLocal : jsval -> jsval -> string -> ST W string.
Variable applyRoundedCornersAndBorder : string -> string -> ST W unit.
Variable resizeImage : string -> string -> ST W unit.
Variable generateStaticImage : jsval -> jsval -> string -> string -> string -> ST W jsval.
Variable generateVideoAndFrames : string -> string -> W -> W.
Variable generateImageWithGemini : string -> jsval -> jsval -> jsval -> string -> ST W unit.
Variable generateImageWithImagen : string -> jsval -> jsval -> string -> ST W unit.
Variable isLocalBackendEnabled : bool.
Variable inappropriateKeywords : list string.
Variable safetySettingsResponse : jsval.

Local Abbreviation Srv := (Srv W).
Local Abbreviation route :=
  (generateImage W join existsSync unlinkSync writeFileSync copyFileSync readFileSync
     fromBase64 toBase64 request_hash generateImageLocal applyRoundedCornersAndBorder
     resizeImage generateStaticImage generateVideoAndFrames generateImageWithGemini
     generateImageWithImagen isLocalBackendEnabled inappropriateKeywords
     safetySettingsResponse).

Lemma quiet_world {A} (m : ST W A) : quiet W (world W m).
Proof. intros [w sent]. unfold world. cbn [fst snd]. by destruct (m w). Qed.

Lemma quiet_ret {A} (a : A) : quiet W (ret a).
Proof. by intros s. Qed.

Lemma quiet_throw {A} (e : exn) : quiet W (@throw _ A e).
Proof. by intros s. Qed.

Lemma quiet_lift {A} (o : outcome A) : quiet W (lift o).
Proof. by intros s. Qed.

Lemma quiet_exists (p : string) : quiet W (fs_existsSync W existsSync p).
Proof. by intros s. Qed.

Lemma quiet_bind {A B} (m : Srv A) (k : A -> Srv B) :
  quiet W m -> (forall a, quiet W (k a)) -> quiet W (bind m k).
Proof.
  intros Hm Hk s. unfold bind. specialize (Hm s).
  destruct (m s) as [[a|e] s1]; cbn [snd] in Hm; [|done].
  by rewrite Hk.
Qed.

Lemma quiet_try_catch {A} (m : Srv A) (h : exn -> Srv A) :
  quiet W m -> (forall e, quiet W (h e)) -> quiet W (try_catch m h).
Proof.
  intros Hm Hh s. unfold try_catch. specialize (Hm s).
  destruct (m s) as [[a|e] s1]; cbn [snd] in Hm; [done|].
  by rewrite Hh.
Qed.

Lemma once_quiet {A} (m : Srv A) : quiet W m -> answers_once W m.
Proof. intros Hm s. left. apply Hm. Qed.

Lemma once_send (r : response) : answers_once W (send W r).
Proof. intros s. right. by exists r. Qed.

Lemma once_after {A B} (m : Srv A) (k : A -> Srv B) :
  quiet W m -> (forall a, answers_once W (k a)) -> answers_once W (bind m k).
Proof.
  intros Hm Hk s. unfold bind. specialize (Hm s).
  destruct (m s) as [[a|e] s1]; cbn [snd] in Hm; [|by left].
  rewrite <- Hm. apply Hk.
Qed.

Lemma once_before {A B} (m : Srv A) (k : A -> Srv B) :
  answers_once W m -> (forall a, quiet W (k a)) -> answers_once W (bind m k).
Proof.
  intros Hm Hk s. unfold bind. specialize (Hm s).
  destruct (m s) as [[a|e] s1]; cbn [snd] in Hm; [|done].
  by rewrite (Hk a s1).
Qed.

Lemma once_try_catch {A} (m : Srv A) (h : exn -> Srv A) :
  answers_once W m -> (forall e, quiet W (h e)) -> answers_once W (try_catch m h).
Proof.
  intros Hm Hh s. unfold try_catch. specialize (Hm s).
  destruct (m s) as [[a|e] s1]; cbn [snd] in Hm; [done|].
  by rewrite (Hh e s1).
Qed.

Lemma quiet_clean_up (a b c : string) : quiet W (clean_up W existsSync unlinkSync a b c).
Proof.
  unfold clean_up. apply quiet_try_catch; [|intros; apply quiet_ret].
  repeat first
    [ apply quiet_bind; [|intros ?]
    | apply quiet_exists | apply quiet_world | apply quiet_ret
    | match goal with |- quiet _ (if ?b then _ else _) => destruct b end ].
Qed.

Lemma once_generate_locally (o v : jsval) (a b c : string) :
  answers_once W (generate_locally W writeFileSync copyFileSync readFileSync fromBase64
                    toBase64 generateImageLocal applyRoundedCornersAndBorder resizeImage
                    o v a b c).
Proof.
  unfold generate_locally. apply once_try_catch; [|intros; apply quiet_throw].
  repeat (apply once_after; [apply quiet_world|intros ?]).
  apply once_send.
Qed.

Lemma once_generate_veo (o v : jsval) (h a c : string) :
  answers_once W (generate_veo W join copyFileSync generateStaticImage
                    generateVideoAndFrames o v h a c).
Proof.
  unfold generate_veo. apply once_try_catch; [|intros; apply quiet_throw].
  cbn zeta. apply once_after; [apply quiet_world|intros static].
  apply once_after; [apply quiet_lift|intros processedImage].
  apply once_before; [apply once_send|intros _].
  apply quiet_bind; [apply quiet_world|intros _; apply quiet_world].
Qed.

Lemma once_finish (a b c : string) :
  answers_once W (finish W existsSync copyFileSync readFileSync toBase64
                    applyRoundedCornersAndBorder resizeImage a b c).
Proof.
  unfold finish.
  apply once_after; [apply quiet_exists|intros []]; cbn [negb];
    [|apply once_quiet, quiet_throw].
  apply once_after; [apply quiet_world|intros _].
  apply once_after; [apply quiet_exists|intros []]; cbn [negb];
    [|apply once_quiet, quiet_throw].
  apply once_after; [apply quiet_world|intros _].
  apply once_after; [apply quiet_exists|intros []]; cbn [negb];
    [|apply once_quiet, quiet_throw].
  apply once_after; [apply quiet_world|intros _].
  apply once_after; [apply quiet_world|intros bitmap].
  apply once_send.
Qed.

Lemma once_dispatch (backend img o v : jsval) (h a b c : string) :
  answers_once W (dispatch W join existsSync writeFileSync copyFileSync readFileSync
                    fromBase64 toBase64 generateImageLocal applyRoundedCornersAndBorder
                    resizeImage generateStaticImage generateVideoAndFrames
                    generateImageWithGemini generateImageWithImagen isLocalBackendEnabled
                    backend img o v h a b c).
Proof.
  unfold dispatch.
  destruct (is_text "local" backend || isLocalBackendEnabled)%bool;
    [apply once_generate_locally|].
  destruct (is_text "veo" backend); [apply once_generate_veo|].
  destruct (is_text "gemini" backend);
    [apply once_after; [apply quiet_world|intros _; apply once_finish]|].
  destruct (is_text "imagen" backend);
    [apply once_after; [apply quiet_world|intros _; apply once_finish]|].
  destruct (negb (truthy backend)); [|apply once_quiet, quiet_throw].
  destruct isLocalBackendEnabled; [apply once_generate_locally|apply once_quiet, quiet_throw].
Qed.

Lemma once_generateImage (body : propbag) : answers_once W (route body).
Proof.
  unfold generateImage. apply once_try_catch; [|intros; apply quiet_throw].
  cbn zeta. destruct (negb (truthy _)); [apply once_send|].
  apply once_after; [apply quiet_lift|intros []]; [apply once_send|].
  apply once_after; [apply quiet_clean_up|intros _]. apply once_dispatch.
Qed.

(** X16 ([POST /generateImage]): the route throws nothing but "Error
    in generateImage" and sends at most one answer.  Without a truthy
    [prompt] it answers 400, and for a prompt the keyword filter flags
    the safety response, each time before any file is touched and any
    generator called.  While the local backend is enabled the backend
    the request names is ignored: the run is that of the request
    without a backend.  While it is disabled, a request that names none
    of local, veo, gemini and imagen, or no backend at all, gets no
    answer: the route throws, having at most removed the old files. *)
Theorem generateImage_checks_then_dispatches (body : propbag) (w : W) (sent : list response) :
  let prompt := default JUndefined (body !! "prompt") in
  let backend := default JUndefined (body !! "backend") in
  let run := route body (w, sent) in
  (forall e, fst run = Throw e -> e = Error "Error in generateImage")
  /\ (snd (snd run) = sent \/ exists r, snd (snd run) = sent ++ [r])
  /\ (truthy prompt = false ->
      run = (Ret tt, (w, sent ++ [json_error 400 "Prompt is required"])))
  /\ (Analysis.moderate inappropriateKeywords prompt = Ret true -> truthy prompt = true ->
      run = (Ret tt, (w, sent ++ [mkResponse 200 safetySettingsResponse])))
  /\ (isLocalBackendEnabled = true ->
      forall named, route (<["backend" := named]> body) (w, sent) = run)
  /\ (isLocalBackendEnabled = false ->
      truthy prompt = true -> Analysis.moderate inappropriateKeywords prompt = Ret false ->
      is_text "local" backend = false -> is_text "veo" backend = false ->
      is_text "gemini" backend = false -> is_text "imagen" backend = false ->
      fst run = Throw (Error "Error in generateImage") /\ snd (snd run) = sent).
Proof.
  intros prompt backend run.
  refine (conj _ (conj _ (conj _ (conj _ (conj _ _))))).
  - subst run. unfold generateImage, try_catch. intros e.
    match goal with |- context [let '(o, s') := ?m in _] => destruct m as [[[]|e0] s1] end;
      [done|]. by intros [= <-].
  - apply (once_generateImage body (w, sent)).
  - intros Hp. subst run. unfold generateImage, try_catch. cbn zeta. fold prompt.
    by rewrite Hp.
  - intros Hflag Hp. subst run. unfold generateImage, try_catch. cbn zeta. fold prompt.
    rewrite Hp. cbn [negb]. unfold bind, lift. by rewrite Hflag.
  - intros Hlocal named. subst run. unfold generateImage, try_catch. cbn zeta.
    rewrite !lookup_insert_ne by done. fold prompt.
    destruct (negb (truthy prompt)); [done|].
    unfold bind at 1 3, lift.
    destruct (Analysis.moderate inappropriateKeywords prompt) as [[]|e]; [done| |done].
    unfold bind at 1 2.
    match goal with |- context [clean_up ?W ?ex ?un ?a ?b ?c ?s] =>
      destruct (clean_up W ex un a b c s) as [[[]|e] s1] end; [|done].
    unfold dispatch. rewrite Hlocal, !orb_true_r. done.
  - intros Hlocal Hp Hclean Hl Hv Hg Hi.
    assert (Hrun : exists s1, run = (Throw (Error "Error in generateImage"), s1)
                          /\ snd s1 = sent).
    { subst run. unfold generateImage, try_catch. cbn zeta. fold prompt. fold backend.
      rewrite Hp. cbn [negb]. unfold bind at 1, lift. rewrite Hclean. unfold bind at 1.
      match goal with |- context [clean_up ?W ?ex ?un ?a ?b ?c ?s] =>
        pose proof (quiet_clean_up a b c s) as Hquiet;
        destruct (clean_up W ex un a b c s) as [[[]|e] s1] end; cbn [snd] in Hquiet.
      - unfold dispatch. rewrite Hl, Hv, Hg, Hi, Hlocal. cbn [orb].
        destruct (negb (truthy backend)); unfold throw; by eexists.
      - unfold throw. by eexists. }
    destruct Hrun as (s1 & -> & Hsent). by split.
Qed.

End GenerationFacts.

(** ** The frames of the local service *)

Section FrameFacts.

Import Server Routes Ollama LocalModels.

Variable FS : Type.
Variable join : list string -> string.
Variable existsSync : string -> FS -> bool.
Variable writeFileSync : string -> string -> ST FS unit.
Variable bufferFrom : jsval -> outcome string.
Variable indexed : jsval -> outcome (list jsval).
Variable fetch_frames : string -> string -> outcome reply.

(** A write that returns leaves its file in place and no other path
    changed; [path.join] of one segment without dots is that
    segment. *)
Hypothesis write_exists : forall p b fs fs',
  writeFileSync p b fs = (Ret tt, fs') -> existsSync p fs' = true.
Hypothesis write_others : forall p b fs o fs' q,
  writeFileSync p b fs = (o, fs') -> q <> p -> existsSync q fs' = existsSync q fs.
Hypothesis join_generated : join ["generated"] = "generated".

Variable hash : string.

Local Abbreviation path := (frame_path join hash).
Local Abbreviation save := (save_frame FS join writeFileSync bufferFrom "generated" hash).

Lemma save_frames_run (elements : list jsval) (k : nat) (fs fs' : FS) :
  for_each (imap (fun i frame => ((k + i)%nat, frame)) elements) save fs = (Ret tt, fs') ->
  (forall i, (i < length elements)%nat -> existsSync (path (k + i)) fs' = true)
  /\ (forall q, (forall i, (i < length elements)%nat -> q <> path (k + i)) ->
        existsSync q fs' = existsSync q fs).
Proof.
  revert k fs. induction elements as [|frame elements IH]; intros k fs Hrun.
  - cbn in Hrun. injection Hrun as <-. split; [cbn; lia|done].
  - cbn [imap for_each] in Hrun. unfold bind at 1 in Hrun.
    destruct (save (_, frame) fs) as [[[]|e] fs1] eqn:Hsave; [|discriminate Hrun].
    unfold save_frame, bind, lift in Hsave. cbn [fst snd] in Hsave.
    destruct (bufferFrom frame) as [buffer|e]; [|discriminate Hsave].
    rewrite Nat.add_0_r in Hsave.
    assert (Hpath : join ["generated"; frame_file hash k] = path k).
    { unfold frame_path. by rewrite join_generated. }
    rewrite Hpath in Hsave.
    assert (Hshift : for_each (imap (fun i frame => ((S k + i)%nat, frame)) elements) save fs1
                     = (Ret tt, fs')).
    { rewrite <- Hrun. f_equal. apply imap_ext. intros i x _. cbn. f_equal. lia. }
    destruct (IH (S k) fs1 Hshift) as [Hthere Hrest]. split.
    + intros [|i] Hi.
      * rewrite Nat.add_0_r.
        destruct (decide (Exists (fun j => path k = path (S k + j))
                            (seq 0 (length elements)))) as [Hsame|Hfresh].
        -- apply Exists_exists in Hsame as (j & Hj & Hsame).
           apply elem_of_seq in Hj. rewrite Hsame. apply Hthere. lia.
        -- rewrite Hrest; [by eapply write_exists|].
           intros j Hj Heq. apply Hfresh, Exists_exists. exists j.
           split; [apply elem_of_seq; lia|done].
      * replace (k + S i)%nat with (S k + i)%nat by lia. apply Hthere. cbn in Hi. lia.
    + intros q Hq. rewrite Hrest.
      * eapply write_others; [exact Hsave|]. specialize (Hq 0%nat). rewrite Nat.add_0_r in Hq.
        apply Hq. cbn. lia.
      * intros i Hi. replace (S k + i)%nat with (k + S i)%nat by lia. apply Hq. cbn. lia.
Qed.


End FrameFacts.

Lemma sample_write_there (p b : string) (fs fs' : SampleDisk.Disk) :
  SampleDisk.writeFileSync p b fs = (Ret tt, fs') -> SampleDisk.existsSync p fs' = true.
Proof. intros Hwrite. by destruct (sample_write_exists p b fs fs' Hwrite). Qed.

Lemma sample_write_elsewhere (p b : string) (fs : SampleDisk.Disk) (o : outcome unit)
    (fs' : SampleDisk.Disk) (q : string) :
  SampleDisk.writeFileSync p b fs = (o, fs') -> q <> p ->
  SampleDisk.existsSync q fs' = SampleDisk.existsSync q fs.
Proof.
  intros Hwrite Hne. destruct (sample_write_others p b fs q Hne) as [Hsame _].
  by rewrite Hwrite in Hsame.
Qed.


(** ** Commands *)

Section CommandFacts.

Import Stage Targets.

Variable addFire : jsval -> Entity -> Entity.
Variable clearEffects : Entity -> Entity.
Variable addWet : Entity -> Entity.
Variable createMagneticForce : Entity -> Entity.
Variable updateMagneticField : Entity -> Entity.

Local Abbreviation command :=
  (processCommand addFire clearEffects addWet createMagneticForce updateMagneticField).

Lemma reshaped_refl (ids : list nat) (s : Scene) : reshaped ids s s.
Proof. split; [by destruct s|by split]. Qed.

Lemma reshaped_trans (ids : list nat) (s1 s2 s3 : Scene) :
  reshaped ids s1 s2 -> reshaped ids s2 s3 -> reshaped ids s1 s3.
Proof.
  intros (Ha & Hb & Hc) (Ha' & Hb' & Hc'). split; [|split].
  - rewrite <- Ha, <- Ha'. by destruct s3.
  - by rewrite Hb', Hb.
  - intros id Hid. by rewrite Hc', Hc.
Qed.

Lemma on_scene_object_reshaped (ids : list nat) (id : nat) (f : Entity -> outcome Entity)
    (s : Scene) :
  id ∈ ids -> reshaped ids s (snd (on_scene_object id f s)).
Proof.
  intros Hid. unfold on_scene_object, on_object, bind, gets, lift, modify, throw.
  destruct (objs s !! id) as [e|] eqn:He; [|apply reshaped_refl].
  destruct (f e) as [e'|err]; [|apply reshaped_refl].
  cbn [snd]. split; [by destruct s|split].
  - destruct s. cbn in *. apply dom_insert_lookup_L. by eexists.
  - intros id' Hid'. destruct s. cbn in *. apply lookup_insert_ne. by intros ->.
Qed.

Lemma for_each_reshaped {A} (ids : list nat) (l : list A) (body : A -> M unit) (s : Scene) :
  (forall x s, x ∈ l -> reshaped ids s (snd (body x s))) ->
  reshaped ids s (snd (for_each l body s)).
Proof.
  revert s. induction l as [|x l IH]; intros s Hbody; [apply reshaped_refl|].
  cbn [for_each]. unfold bind. pose proof (Hbody x s ltac:(left)) as Hx.
  destruct (body x s) as [[[]|e] s1]; cbn [snd] in *; [|done].
  eapply reshaped_trans; [exact Hx|apply IH]. intros y s' Hy. apply Hbody. by right.
Qed.

Lemma world_objects_spec (s : Scene) (id : nat) (e : Entity) :
  (id, e) ∈ world_objects s
  <-> id ∈ children s /\ objs s !! id = Some e /\ instanceof_WorldObject (kind e) = true.
Proof.
  unfold world_objects. rewrite list_elem_of_omap. split.
  - intros (i & Hi & Hsome). destruct (objs s !! i) as [e'|] eqn:He; [|done].
    destruct (instanceof_WorldObject (kind e')) eqn:Hk; [|done].
    by injection Hsome as <- <-.
  - intros (Hi & He & Hk). exists id. split; [done|]. by rewrite He, Hk.
Qed.

Lemma filter_matching_sub (key : string) (l : list (nat * Entity)) (ids : list nat) :
  filter_matching key l = Ret ids -> ids ⊆ map fst l.
Proof.
  revert ids. induction l as [|[id e] l IH]; intros ids; cbn [filter_matching map fst].
  - by intros [= <-].
  - destruct (matches_filter key e) as [hit|err]; cbn [obind]; [|done].
    destruct (filter_matching key l) as [rest|err]; cbn [obind]; [|done].
    intros [= <-]. specialize (IH rest eq_refl).
    destruct hit; set_solver.
Qed.

Lemma last_user_object_sub (l : list (nat * Entity)) (last : option nat) (id : nat) :
  last_user_object l last = Ret (Some id) -> last = Some id \/ id ∈ map fst l.
Proof.
  revert last. induction l as [|[i e] l IH]; intros last; cbn [last_user_object map fst].
  - intros [= ->]. by left.
  - destruct (prop e) as [p|]; [|done].
    intros Hrest. apply IH in Hrest as [Hlast|Hin]; [|right; set_solver].
    destruct (truthy _); [|by left]. injection Hlast as ->. right. set_solver.
Qed.

Lemma resolve_targets_run (target : string) (s : Scene) :
  snd (resolve_targets target s) = s
  /\ forall ids, fst (resolve_targets target s) = Ret (Some ids) -> ids ⊆ world_ids s.
Proof.
  unfold resolve_targets, world_ids.
  destruct (String.eqb target ""); [by split|].
  destruct (String.eqb target "all").
  { split; [done|]. unfold bind, getWorldObjectList, gets, ret. cbn. by intros ids [= <-]. }
  destruct (_ || _)%bool.
  { unfold bind, getLastCreatedObject, gets, lift, ret. cbn.
    destruct (last_user_object (world_objects s) None) as [[id|]|err] eqn:Hlast; cbn;
      [|split; [done|intros ids [= <-]; set_solver]|by split].
    rewrite Hlast. cbn. split; [done|]. intros ids [= <-].
    apply last_user_object_sub in Hlast as [[=]|Hin]. set_solver. }
  unfold bind, getWorldObjectList, gets, lift, ret. cbn.
  destruct (filter_matching target (world_objects s)) as [byProp|err] eqn:Hprop; cbn;
    [|by split].
  split; [done|]. intros ids [= <-]. apply filter_matching_sub in Hprop.
  intros id [Hname|Hp]%elem_of_app; [|by apply Hprop].
  apply list_elem_of_fmap in Hname as ([i e] & -> & Hin).
  apply list_elem_of_filter in Hin as [_ Hin]. apply list_elem_of_fmap. by exists (i, e).
Qed.

Lemma processCommand_reshapes (verb target : string) (between : nat -> Z) (s : Scene) :
  reshaped (world_ids s) s (snd (command verb target between s)).
Proof.
  unfold processCommand. cbn zeta. unfold bind at 1.
  destruct (resolve_targets_run (Str.toLowerCase target) s) as [Hstate Hsub].
  destruct (resolve_targets (Str.toLowerCase target) s) as [[[targets|]|err] s1];
    cbn [fst snd] in *; subst s1; try apply reshaped_refl.
  specialize (Hsub targets eq_refl).
  repeat match goal with
         | |- context [if ?b then _ else _] => destruct b
         end; try apply reshaped_refl;
    apply for_each_reshaped; intros x s' Hx; apply on_scene_object_reshaped;
    first [ by apply Hsub
          | apply elem_of_lookup_imap in Hx as (i & id & -> & Hid);
            apply Hsub; by eapply list_elem_of_lookup_2 ].
Qed.


(** The methods of [WorldObject] leave an object its property bag. *)
Hypothesis addFire_bag : forall v e, is_Some (prop e) -> is_Some (prop (addFire v e)).
Hypothesis clearEffects_bag : forall e, is_Some (prop e) -> is_Some (prop (clearEffects e)).
Hypothesis addWet_bag : forall e, is_Some (prop e) -> is_Some (prop (addWet e)).
Hypothesis createMagneticForce_bag :
  forall e, is_Some (prop e) -> is_Some (prop (createMagneticForce e)).
Hypothesis updateMagneticField_bag :
  forall e, is_Some (prop e) -> is_Some (prop (updateMagneticField e)).

Lemma assign_prop_bag (k : string) (v : jsval) (e : Entity) :
  is_Some (prop e) -> exists e', assign_prop k v e = Ret e' /\ is_Some (prop e').
Proof.
  intros [p Hp]. unfold assign_prop. rewrite Hp. eexists. split; [done|]. by destruct e.
Qed.

Lemma destroy_target_bag (lifeValue : Z) (e : Entity) :
  is_Some (prop e) ->
  exists e', destroy_target addFire clearEffects lifeValue e = Ret e' /\ is_Some (prop e').
Proof.
  intros He. unfold destroy_target.
  destruct (assign_prop_bag "explodes" (JBool true) (addFire (JBool true) (clearEffects e)))
    as (e1 & -> & H1); [by apply addFire_bag, clearEffects_bag|].
  cbn [obind]. eexists. split; [done|]. by destruct e1.
Qed.

Lemma magnetize_bag (e : Entity) :
  is_Some (prop e) ->
  exists e', magnetize createMagneticForce updateMagneticField e = Ret e'
             /\ is_Some (prop e').
Proof.
  intros He. unfold magnetize.
  destruct (assign_prop_bag "metal" (JBool true) e He) as (e1 & -> & H1). cbn [obind].
  destruct (assign_prop_bag "magnetic" (JBool true) e1 H1) as (e2 & -> & H2). cbn [obind].
  eexists. split; [done|]. by apply updateMagneticField_bag, createMagneticForce_bag.
Qed.

Lemma electrify_bag (e : Entity) :
  is_Some (prop e) -> exists e', electrify e = Ret e' /\ is_Some (prop e').
Proof.
  intros He. unfold electrify. destruct (prop_truthy e "rusted"); [|by exists e].
  destruct (assign_prop_bag "rusted" (JBool false) e He) as (e1 & -> & H1). cbn [obind].
  eexists. split; [done|]. destruct (instanceof_RustedKey (kind e1)); [|done]. by destruct e1.
Qed.

Lemma on_scene_object_bagged (ids : list nat) (id : nat) (f : Entity -> outcome Entity)
    (s : Scene) :
  (forall e, is_Some (prop e) -> exists e', f e = Ret e' /\ is_Some (prop e')) ->
  id ∈ ids -> bagged ids s ->
  fst (on_scene_object id f s) = Ret tt /\ bagged ids (snd (on_scene_object id f s)).
Proof.
  intros Hf Hid Hbag. destruct (Hbag id Hid) as (e & He & Hp).
  destruct (Hf e Hp) as (e' & Hfe & Hp').
  unfold on_scene_object, on_object, bind, gets, lift, modify. rewrite He, Hfe. cbn [fst snd].
  split; [done|]. intros id' Hid'. destruct s. cbn in *.
  destruct (decide (id' = id)) as [->|Hne].
  - exists e'. by rewrite lookup_insert_eq.
  - rewrite lookup_insert_ne by done. by apply Hbag.
Qed.

Lemma for_each_bagged {A} (ids : list nat) (l : list A) (body : A -> M unit) (s : Scene) :
  (forall x s, x ∈ l -> bagged ids s ->
     fst (body x s) = Ret tt /\ bagged ids (snd (body x s))) ->
  bagged ids s ->
  fst (for_each l body s) = Ret tt /\ bagged ids (snd (for_each l body s)).
Proof.
  revert s. induction l as [|x l IH]; intros s Hbody Hbag; [by split|].
  cbn [for_each]. unfold bind.
  destruct (Hbody x s ltac:(left) Hbag) as [Hret Hbag1].
  destruct (body x s) as [[[]|e] s1]; cbn [fst snd] in *; [|done].
  apply IH; [|done]. intros y s' Hy. apply Hbody. by right.
Qed.

Lemma bagged_world_objects (s : Scene) (id : nat) (e : Entity) :
  bagged (world_ids s) s -> (id, e) ∈ world_objects s -> is_Some (prop e).
Proof.
  intros Hbag Hin. destruct (Hbag id) as (e' & He' & Hp).
  { apply list_elem_of_fmap. by exists (id, e). }
  apply world_objects_spec in Hin as (_ & He & _). congruence.
Qed.

Lemma filter_matching_total (key : string) (l : list (nat * Entity)) :
  (forall id e, (id, e) ∈ l -> is_Some (prop e)) ->
  exists ids, filter_matching key l = Ret ids.
Proof.
  induction l as [|[id e] l IH]; intros Hl; [by eexists|]. cbn [filter_matching].
  destruct (Hl id e ltac:(left)) as [p Hp]. unfold matches_filter. rewrite Hp. cbn [obind].
  destruct IH as [rest ->]; [intros i x Hx; apply (Hl i x); by right|]. by eexists.
Qed.

Lemma last_user_object_total (l : list (nat * Entity)) (last : option nat) :
  (forall id e, (id, e) ∈ l -> is_Some (prop e)) ->
  exists found, last_user_object l last = Ret found.
Proof.
  revert last. induction l as [|[id e] l IH]; intros last Hl; [by eexists|].
  cbn [last_user_object]. destruct (Hl id e ltac:(left)) as [p ->].
  apply IH. intros i x Hx. apply (Hl i x). by right.
Qed.

Lemma resolve_targets_total (target : string) (s : Scene) :
  bagged (world_ids s) s -> exists found, fst (resolve_targets target s) = Ret found.
Proof.
  intros Hbag. unfold resolve_targets.
  destruct (String.eqb target ""); [by eexists|].
  destruct (String.eqb target "all"); [by eexists|].
  destruct (_ || _)%bool.
  { unfold bind, getLastCreatedObject, gets, lift, ret. cbn.
    destruct (last_user_object_total (world_objects s) None) as [[id|] Hlast];
      [intros i x; by apply bagged_world_objects| |]; rewrite Hlast; cbn;
      [rewrite Hlast; cbn|]; by eexists. }
  unfold bind, getWorldObjectList, gets, lift, ret. cbn.
  destruct (filter_matching_total target (world_objects s)) as [byProp ->];
    [intros i x; by apply bagged_world_objects|]. by eexists.
Qed.

(** X19 ([processCommand]): on a stage whose world objects all carry
    a property bag, no command throws, whatever its verb and its
    target, and the stage is such a stage again afterwards, so that
    neither does the next command; and a target that is, in any letter
    case, the name of a world object of the display list, and none of
    the words "all", "last_created" and "last_object" nor empty,
    resolves to targets that hold this object. *)
Theorem processCommand_never_throws (verb target : string) (between : nat -> Z) (s : Scene) :
  bagged (world_ids s) s ->
  let run := command verb target between s in
  fst run = Ret tt
  /\ bagged (world_ids (snd run)) (snd run)
  /\ forall id e,
       (id, e) ∈ world_objects s ->
       Str.toLowerCase target = Str.toLowerCase (name e) ->
       Str.toLowerCase target ∉ [""; "all"; "last_created"; "last_object"] ->
       exists targets,
         resolve_targets (Str.toLowerCase target) s = (Ret (Some targets), s)
         /\ id ∈ targets.
Proof.
  intros Hbag run.
  assert (Hrun : fst run = Ret tt /\ bagged (world_ids s) (snd run)).
  { subst run. unfold processCommand. cbn zeta. unfold bind.
    destruct (resolve_targets_run (Str.toLowerCase target) s) as [Hstate Hsub].
    destruct (resolve_targets_total (Str.toLowerCase target) s Hbag) as [found Hfound].
    destruct (resolve_targets (Str.toLowerCase target) s) as [o s1].
    cbn [fst snd] in *. subst o s1. destruct found as [targets|]; [|by split].
    specialize (Hsub targets eq_refl).
    repeat match goal with
           | |- context [if ?b then _ else _] => destruct b
           end; try (by split);
      apply for_each_bagged; try done; intros x s' Hx Hs';
      apply on_scene_object_bagged; try done;
      first [ intros e; apply destroy_target_bag
            | intros e He; exists (addWet e); split; [done|by apply addWet_bag]
            | intros e; apply magnetize_bag
            | intros e; apply electrify_bag
            | by apply Hsub
            | apply elem_of_lookup_imap in Hx as (i & id & -> & Hid);
              apply Hsub; by eapply list_elem_of_lookup_2 ]. }
  destruct Hrun as [Hret Hbag']. split; [exact Hret|]. split.
  - destruct (processCommand_reshapes verb target between s) as (Hsame & Hdom & Hrest).
    fold run in Hsame, Hdom, Hrest.
    intros id Hid. destruct (decide (id ∈ world_ids s)) as [Hin|Hout]; [by apply Hbag'|].
    exfalso. apply Hout. unfold world_ids in Hid |- *.
    apply list_elem_of_fmap in Hid as ([i e] & -> & Hin).
    apply world_objects_spec in Hin as (Hkid & He & Hk). cbn [fst] in *.
    apply list_elem_of_fmap. exists (i, e). split; [done|]. apply world_objects_spec.
    rewrite <- Hsame. destruct (snd run). cbn in *. split; [done|]. split; [|done].
    destruct (decide (i ∈ map fst (world_objects s))) as [Hw|Hw]; [done|].
    specialize (Hrest i Hw). by rewrite <- Hrest.
  - intros id e Hin Hname Hword.
    assert (Hall : forall i x, (i, x) ∈ world_objects s -> is_Some (prop x)).
    { intros i x. by apply bagged_world_objects. }
    unfold resolve_targets.
    destruct (String.eqb_spec (Str.toLowerCase target) "") as [Heq|_];
      [exfalso; apply Hword; rewrite Heq; set_solver|].
    destruct (String.eqb_spec (Str.toLowerCase target) "all") as [Heq|_];
      [exfalso; apply Hword; rewrite Heq; set_solver|].
    destruct (String.eqb_spec (Str.toLowerCase target) "last_created") as [Heq|_];
      [exfalso; apply Hword; rewrite Heq; set_solver|].
    destruct (String.eqb_spec (Str.toLowerCase target) "last_object") as [Heq|_];
      [exfalso; apply Hword; rewrite Heq; set_solver|].
    cbn [orb]. unfold bind, getWorldObjectList, gets, lift, ret. cbn.
    destruct (filter_matching_total (Str.toLowerCase target) (world_objects s) Hall)
      as [byProp ->].
    eexists. split; [done|]. apply elem_of_app. left.
    apply list_elem_of_fmap. exists (id, e). split; [done|].
    apply list_elem_of_filter. split; [|done]. cbn [snd].
    rewrite toLowerCase_idem, Hname. apply String.eqb_refl.
Qed.

End CommandFacts.

Lemma sample_methods_keep_the_bag :
  (forall v e, is_Some (Stage.prop e) -> is_Some (Stage.prop (Sample.addFire v e)))
  /\ (forall e, is_Some (Stage.prop e) -> is_Some (Stage.prop (Sample.clearEffects e)))
  /\ (forall e, is_Some (Stage.prop e) -> is_Some (Stage.prop (Sample.addWet e)))
  /\ (forall e, is_Some (Stage.prop e) -> is_Some (Stage.prop (Sample.createMagneticForce e)))
  /\ (forall e, is_Some (Stage.prop e) -> is_Some (Stage.prop (Sample.updateMagneticField e))).
Proof. repeat split; intros; by destruct e. Qed.

(** An instance of [processCommand_never_throws]: a candle set on
    fire by its name. *)
Lemma processCommand_never_throws_witness :
  let candle := Stage.mkEntity Stage.PlainWorldObject "Candle" (Some Sample.defaultProp) None
                  1 0 ∅ ∅ None in
  let s := Stage.with_children [0%nat]
             (Stage.with_objs {[0%nat := candle]} Sample.emptyScene) in
  fst (Stage.processCommand Sample.addFire Sample.clearEffects Sample.addWet
         Sample.createMagneticForce Sample.updateMagneticField "setFire" "candle"
         (fun _ => 200) s) = Ret tt.
Proof.
  intros candle s.
  destruct sample_methods_keep_the_bag as (H1 & H2 & H3 & H4 & H5).
  destruct (processCommand_never_throws Sample.addFire Sample.clearEffects Sample.addWet
              Sample.createMagneticForce Sample.updateMagneticField H1 H2 H3 H4 H5
              "setFire" "candle" (fun _ => 200) s) as [Hret _]; [|exact Hret].
  intros id Hid. apply list_elem_of_In in Hid. cbn in Hid. destruct Hid as [<-|[]].
  exists candle. split; [reflexivity|]. by eexists.
Defined.


Section TargetFacts.

Import Stage Targets.

Variable keys_in_order : propbag -> list string.
Variable loosely_true : jsval -> bool.

Lemma addTargetKeys_spec (targets : list string) (key : string) :
  NoDup targets ->
  NoDup (addTargetKeys targets key)
  /\ forall t, t ∈ addTargetKeys targets key <-> t ∈ targets \/ (t = key /\ key ∉ ignoreKey).
Proof.
  intros Hnd. unfold addTargetKeys.
  destruct (bool_decide (key ∈ ignoreKey)) eqn:Hign; cbn [orb].
  { apply bool_decide_eq_true in Hign. split; [done|]. intros t. split; [by left|].
    by intros [Ht|[_ Hk]]. }
  apply bool_decide_eq_false in Hign.
  destruct (bool_decide (key ∈ targets)) eqn:Hin.
  { apply bool_decide_eq_true in Hin. split; [done|]. intros t. split; [by left|].
    by intros [Ht|[-> _]]. }
  apply bool_decide_eq_false in Hin. split.
  - apply NoDup_app. split; [done|]. split; [|apply NoDup_singleton].
    intros t Ht ->%list_elem_of_singleton. done.
  - intros t. rewrite elem_of_app, list_elem_of_singleton. naive_solver.
Qed.

Lemma add_true_keys_spec (p : propbag) (keys targets : list string) :
  NoDup targets ->
  NoDup (foldl (add_true_key loosely_true p) targets keys)
  /\ forall t, t ∈ foldl (add_true_key loosely_true p) targets keys
          <-> t ∈ targets
              \/ ((t ∉ ignoreKey) /\ t ∈ keys
                  /\ loosely_true (default JUndefined (p !! t)) = true).
Proof.
  revert targets. induction keys as [|k keys IH]; intros targets Hnd; cbn [foldl].
  - split; [done|]. intros t. split; [by left|]. intros [Ht|(_ & Hk & _)]; [done|].
    by apply elem_of_nil in Hk.
  - assert (Hstep : NoDup (add_true_key loosely_true p targets k)
                    /\ forall t, t ∈ add_true_key loosely_true p targets k
                          <-> t ∈ targets
                              \/ (t = k /\ (k ∉ ignoreKey)
                                  /\ loosely_true (default JUndefined (p !! k)) = true)).
    { unfold add_true_key. destruct (loosely_true _) eqn:Htrue.
      - destruct (addTargetKeys_spec targets k Hnd) as [Hnd' Hin]. split; [done|].
        intros t. rewrite Hin. naive_solver.
      - split; [done|]. intros t. naive_solver. }
    destruct Hstep as [Hnd1 Hin1]. destruct (IH _ Hnd1) as [Hnd2 Hin2].
    split; [done|]. intros t. rewrite Hin2, Hin1, elem_of_cons. naive_solver.
Qed.

Lemma add_objects_spec (objects : list Entity) (targets : list string) :
  NoDup targets ->
  NoDup (foldl (add_object keys_in_order loosely_true) targets objects)
  /\ forall t, t ∈ foldl (add_object keys_in_order loosely_true) targets objects
          <-> t ∈ targets
              \/ ((t ∉ ignoreKey)
                  /\ exists e, e ∈ objects
                       /\ (t = name e
                           \/ exists p, prop e = Some p /\ t ∈ keys_in_order p
                                /\ loosely_true (default JUndefined (p !! t)) = true)).
Proof.
  revert targets. induction objects as [|e objects IH]; intros targets Hnd; cbn [foldl].
  - split; [done|]. intros t. split; [by left|]. intros [Ht|(_ & e & He & _)]; [done|].
    by apply elem_of_nil in He.
  - assert (Hstep : NoDup (add_object keys_in_order loosely_true targets e)
                    /\ forall t, t ∈ add_object keys_in_order loosely_true targets e
                          <-> t ∈ targets
                              \/ ((t ∉ ignoreKey)
                                  /\ (t = name e
                                      \/ exists p, prop e = Some p /\ t ∈ keys_in_order p
                                           /\ loosely_true (default JUndefined (p !! t))
                                              = true))).
    { unfold add_object. destruct (addTargetKeys_spec targets (name e) Hnd) as [Hnd1 Hin1].
      destruct (prop e) as [p|].
      - destruct (add_true_keys_spec p (keys_in_order p) _ Hnd1) as [Hnd2 Hin2].
        split; [done|]. intros t. rewrite Hin2, Hin1. split.
        + intros [[Ht|[-> Hk]]|(Hign & Hk & Htrue)]; [by left|right; split; [done|by left]|].
          right. split; [done|]. right. by exists p.
        + intros [Ht|(Hign & [->|(p' & [= <-] & Hk & Htrue)])]; [by left; left| |by right].
          left. by right.
      - split; [done|]. intros t. rewrite Hin1. split.
        + intros [Ht|[-> Hk]]; [by left|]. right. split; [done|by left].
        + intros [Ht|(Hign & [->|(p' & [=] & _)])]; [by left|]. by right. }
    destruct Hstep as [Hnd1 Hin1]. destruct (IH _ Hnd1) as [Hnd2 Hin2].
    split; [done|]. intros t. rewrite Hin2, Hin1. split.
    + intros [[Ht|(Hign & Hhit)]|(Hign & x & Hx & Hhit)]; [by left| |].
      * right. split; [done|]. exists e. split; [left|done].
      * right. split; [done|]. exists x. split; [by right|done].
    + intros [Ht|(Hign & x & Hx & Hhit)]; [by left; left|].
      apply elem_of_cons in Hx as [->|Hx]; [left; right; by split|].
      right. split; [done|]. by exists x.
Qed.

Lemma world_objects_entities (s : Scene) :
  omap (fun id => objs s !! id) (map fst (world_objects s)) = map snd (world_objects s).
Proof.
  unfold world_objects. induction (children s) as [|id l IH]; [done|]. cbn [omap list_omap].
  destruct (objs s !! id) as [e|] eqn:He; [|exact IH].
  destruct (instanceof_WorldObject (kind e)); [|exact IH].
  cbn. rewrite He. cbn. by f_equal.
Qed.

(** X20 ([getCurrentTargets], [addTargetKeys]): the targets offered
    for a command.  The function never throws and leaves the scene as
    it is; its list has no duplicate; and a text is in the list exactly
    when it is none of the three ignored keys and is the name of a
    world object of the display list, or a key of the property bag of
    one whose value equals [true] in the loose sense. *)
Theorem getCurrentTargets_lists_names_and_true_keys (s : Scene) :
  exists targets,
    getCurrentTargets keys_in_order loosely_true s = (Ret targets, s)
    /\ NoDup targets
    /\ forall t, t ∈ targets
          <-> (t ∉ ["" ; "generating"; "user_generated_obj"])
              /\ exists id e, (id, e) ∈ world_objects s
                   /\ (t = name e
                       \/ exists p, prop e = Some p /\ t ∈ keys_in_order p
                            /\ loosely_true (default JUndefined (p !! t)) = true).
Proof.
  eexists. split.
  { unfold getCurrentTargets, bind, getWorldObjectList, gets, ret. cbn.
    rewrite world_objects_entities. reflexivity. }
  destruct (add_objects_spec (map snd (world_objects s)) [] NoDup_nil_2) as [Hnd Hin].
  split; [exact Hnd|]. intros t. rewrite Hin. split.
  - intros [Ht|(Hign & e & He & Hhit)]; [by apply elem_of_nil in Ht|].
    split; [exact Hign|]. apply list_elem_of_fmap in He as ([id e'] & -> & He).
    by exists id, e'.
  - intros (Hign & id & e & He & Hhit). right. split; [exact Hign|]. exists e.
    split; [|done]. apply list_elem_of_fmap. by exists (id, e).
Qed.

End TargetFacts.

(** ** The cache with an empty pool *)

Section EmptyPool.

Import Cache.

Variable join : list string -> string.
Variable cwd : string.
Variable FS : Type.
Variable existsSync : string -> FS -> bool.
Variable readFileSync : string -> FS -> outcome string.
Variable writeFileSync : string -> string -> ST FS unit.
Variable fromBase64 : string -> string.
Variable toBase64 : string -> string.

Local Abbreviation slot o v g i := (variation_path join cwd o v g i).
Local Abbreviation lookup rnd o v g :=
  (getCachedImage join cwd FS existsSync readFileSync toBase64 true 0 rnd o v g).
Local Abbreviation store rnd o v img g :=
  (cacheImage join cwd FS existsSync writeFileSync fromBase64 true 0 rnd o v img g).

(** A write leaves what the other files read. *)
Hypothesis write_others : forall p d fs q, q <> p ->
  readFileSync q (snd (writeFileSync p d fs)) = readFileSync q fs.

Lemma floor_mul_zero (rnd : Q) : floor_mul rnd 0 = 0%nat.
Proof.
  unfold floor_mul. destruct rnd as [n d]. cbn.
  rewrite Z.mul_0_r. by rewrite Zdiv.Zdiv_0_l.
Qed.

Lemma lookup_empty_pool (rnd : Q) (o v g : string) (fs : FS) :
  lookup rnd o v g fs
  = (Ret (match readFileSync (slot o v g None) fs with
          | Ret imageBuffer => mkCacheResult true (Some (Image (toBase64 imageBuffer))) None
          | Throw e => failed ("Error getting cached image: " +:+ Text.error_text e)
          end), fs).
Proof.
  assert (Hnone : variations join cwd FS existsSync 0 o v g fs = []) by done.
  unfold getCachedImage, try_catch, bind, gets, read, ret. cbn [negb].
  rewrite Hnone. cbn [length Nat.eqb]. rewrite floor_mul_zero. cbn [lookup].
  by destruct (readFileSync _ fs).
Qed.

Lemma store_empty_pool (rnd : Q) (o v img g : string) (fs : FS) :
  store rnd o v img g fs
  = (let w := writeFileSync (slot o v g (Some 0%nat)) (fromBase64 img) fs in
     (Ret (match fst w with
           | Ret _ => mkCacheResult true None None
           | Throw e => failed ("Error caching image: " +:+ Text.error_text e)
           end), snd w)).
Proof.
  assert (Hnone : variations join cwd FS existsSync 0 o v g fs = []) by done.
  unfold cacheImage, try_catch, bind, gets, ret. cbn [negb].
  rewrite Hnone. cbn [next_variation Nat.leb]. rewrite floor_mul_zero.
  by destruct (writeFileSync _ _ fs) as [[[]|e] fs'].
Qed.

(** X21 ([getCachedImage], [cacheImage] with a pool of size 0): an
    empty pool never serves what is cached.  The lookup finds the
    empty pool full and reads the file of the variation "undefined";
    [cacheImage] writes the file of the variation 0, each time; so,
    the two paths being different, whatever images are cached the
    lookup answers afterwards what it answered before. *)
Theorem empty_pool_never_serves (o v g : string) (images : list (Q * string)) (rnd : Q)
    (fs : FS) :
  slot o v g None <> slot o v g (Some 0%nat) ->
  let fs' := snd (cacheImages join cwd FS existsSync writeFileSync fromBase64 true 0
                    o v g images fs) in
  fst (lookup rnd o v g fs') = fst (lookup rnd o v g fs)
  /\ fst (lookup rnd o v g fs)
     = Ret (match readFileSync (slot o v g None) fs with
            | Ret imageBuffer => mkCacheResult true (Some (Image (toBase64 imageBuffer))) None
            | Throw e => failed ("Error getting cached image: " +:+ Text.error_text e)
            end)
  /\ forall img, snd (store rnd o v img g fs)
       = snd (writeFileSync (slot o v g (Some 0%nat)) (fromBase64 img) fs).
Proof.
  intros Hpaths fs'. split; [|split].
  - rewrite !lookup_empty_pool. cbn [fst]. f_equal.
    assert (Hread : readFileSync (slot o v g None) fs' = readFileSync (slot o v g None) fs);
      [|by rewrite Hread].
    subst fs'. revert fs. induction images as [|[r img] images IH]; intros fs; [done|].
    cbn [cacheImages]. unfold bind at 1. rewrite store_empty_pool. cbv beta iota zeta.
    unfold bind at 1, ret.
    specialize (IH (snd (writeFileSync (slot o v g (Some 0%nat)) (fromBase64 img) fs))).
    destruct (cacheImages _ _ _ _ _ _ _ _ _ _ _ images _) as [[rs|e] fs2];
      cbn [snd] in *; rewrite IH; by apply write_others.
  - by rewrite lookup_empty_pool.
  - intros img. by rewrite store_empty_pool.
Qed.

End EmptyPool.

Lemma sample_write_reads (p d : string) (fs : SampleDisk.Disk) (q : string) :
  q <> p ->
  SampleDisk.readFileSync q (snd (SampleDisk.writeFileSync p d fs))
  = SampleDisk.readFileSync q fs.
Proof. intros Hne. by destruct (sample_write_others p d fs q Hne). Qed.

(** An instance of [empty_pool_never_serves]: two images cached on an
    empty disk. *)
Lemma empty_pool_never_serves_witness :
  let fs' := snd (Cache.cacheImages SampleDisk.join "/srv" SampleDisk.Disk SampleDisk.existsSync
                    SampleDisk.writeFileSync SampleDisk.base64 true 0 "Fire" "Realistic"
                    "local" [(0%Q, "one"); ((1 # 2)%Q, "two")] SampleDisk.blank) in
  fst (Cache.getCachedImage SampleDisk.join "/srv" SampleDisk.Disk SampleDisk.existsSync
         SampleDisk.readFileSync SampleDisk.base64 true 0 0%Q "Fire" "Realistic" "local" fs')
  = fst (Cache.getCachedImage SampleDisk.join "/srv" SampleDisk.Disk SampleDisk.existsSync
           SampleDisk.readFileSync SampleDisk.base64 true 0 0%Q "Fire" "Realistic" "local"
           SampleDisk.blank).
Proof.
  intros fs'.
  destruct (empty_pool_never_serves SampleDisk.join "/srv" SampleDisk.Disk
              SampleDisk.existsSync SampleDisk.readFileSync SampleDisk.writeFileSync
              SampleDisk.base64 SampleDisk.base64 sample_write_reads
              "Fire" "Realistic" "local" [(0%Q, "one"); ((1 # 2)%Q, "two")] 0%Q
              SampleDisk.blank) as [Hsame _]; [by_run | exact Hsame].
Defined.

(** ** The local image service *)

Section LocalImageFacts.

Import Server Ollama LocalImages.

Variable FS : Type.
Variable existsSync : string -> FS -> bool.
Variable writeFileSync : string -> string -> ST FS unit.
Variable bufferFrom : jsval -> outcome string.
Variable fetch : list call -> call -> outcome reply.
Variable fetch_image : string -> jsval -> outcome service_reply.

Local Abbreviation generate :=
  (generateImageLocal FS existsSync writeFileSync bufferFrom fetch fetch_image).

Lemma enhance_run (objectType visualStyle : jsval) (log : list call) :
  exists prompt log',
    enhance fetch objectType visualStyle log = (Ret prompt, log')
    /\ ((forall r, fetch log Tags = Ret r -> reply_ok r = false) ->
        prompt = default_prompt objectType visualStyle /\ log' = log ++ [Tags])
    /\ (prompt = default_prompt objectType visualStyle
        \/ exists s r data enhancePrompt,
             s <> "" /\ prompt = Str.trim s
             /\ fetch (log ++ [Tags]) (Ask enhancePrompt) = Ret r
             /\ reply_json r = Ret data /\ get_field data "response" = Ret (JStr s)).
Proof.
  unfold enhance, try_catch. cbn zeta. unfold bind at 1.
  unfold isOllamaAvailable, try_catch, bind at 1, request at 1, ret at 1 2.
  destruct (fetch log Tags) as [r|e] eqn:Htags.
  2: { eexists _, _. split; [done|]. split; [done|by left]. }
  destruct (reply_ok r) eqn:Hok.
  2: { eexists _, _. split; [done|]. split; [done|by left]. }
  assert (Hup : (forall r0, Ret r = Ret r0 -> reply_ok r0 = false) -> False).
  { intros Hdown. specialize (Hdown r eq_refl). congruence. }
  unfold bind at 1, generateTextWithOllama, bind at 1, request at 1.
  match goal with |- context [fetch (log ++ [Tags]) (Ask ?p)] => set (enhancePrompt := p) end.
  destruct (fetch (log ++ [Tags]) (Ask enhancePrompt)) as [r2|e] eqn:Hask.
  2: { eexists _, _. split; [done|]. split; [by intros Hdown; destruct (Hup Hdown)|by left]. }
  destruct (reply_ok r2); cbn [negb].
  2: { eexists _, _. split; [done|]. split; [by intros Hdown; destruct (Hup Hdown)|by left]. }
  unfold bind at 1, lift at 1.
  destruct (reply_json r2) as [data|e] eqn:Hdata.
  2: { eexists _, _. split; [done|]. split; [by intros Hdown; destruct (Hup Hdown)|by left]. }
  unfold lift at 1.
  destruct (get_field data "response") as [enhanced|e] eqn:Henh.
  2: { eexists _, _. split; [done|]. split; [by intros Hdown; destruct (Hup Hdown)|by left]. }
  unfold bind, lift, ret.
  destruct (trimmed enhanced) as [[text|]|e] eqn:Htrim;
    (eexists _, _; split; [done|]; split; [by intros Hdown; destruct (Hup Hdown)|]);
    [|by left|by left].
  right. destruct enhanced as [| | | |s| |]; try (cbn in Htrim; congruence).
  - cbn in Htrim. destruct (String.eqb_spec s ""); [done|]. injection Htrim as <-.
    by exists s, r2, data, enhancePrompt.
  - cbn in Htrim. by destruct (Nat.eqb _ _).
Qed.


End LocalImageFacts.

(** ** From the targets offered to the targets of a command *)

Section OfferedTargets.

Import Stage Targets.

Variable keys_in_order : propbag -> list string.
Variable loosely_true : jsval -> bool.

Lemma toLowerCase_empty (s : string) : Str.toLowerCase s = "" -> s = "".
Proof. by destruct s. Qed.

Lemma filter_matching_spec (key : string) (l : list (nat * Entity)) (ids : list nat) :
  filter_matching key l = Ret ids ->
  forall id, id ∈ ids
    <-> exists e p, (id, e) ∈ l /\ prop e = Some p /\ p !! key = Some (JBool true).
Proof.
  revert ids. induction l as [|[i e] l IH]; intros ids; cbn [filter_matching].
  - intros [= <-] id. split; [by intros ?%elem_of_nil|].
    by intros (e & p & ?%elem_of_nil & _).
  - unfold matches_filter at 1. destruct (prop e) as [p|] eqn:Hp; cbn [obind]; [|done].
    destruct (filter_matching key l) as [rest|err]; cbn [obind]; [|done].
    intros [= <-] id. specialize (IH rest eq_refl id).
    assert (Hhead : (match p !! key with Some (JBool true) => true | _ => false end) = true
                    <-> p !! key = Some (JBool true)).
    { destruct (p !! key) as [[| |[]| | | |]|]; naive_solver. }
    split.
    + intros Hid.
      assert (Hcase : (id = i /\ p !! key = Some (JBool true)) \/ id ∈ rest).
      { destruct (match p !! key with Some (JBool true) => true | _ => false end) eqn:Hhit;
          [|by right].
        apply elem_of_cons in Hid as [->|Hid]; [left|by right]. split; [done|by apply Hhead]. }
      destruct Hcase as [[-> Hkey]|Hrest].
      * exists e, p. split; [left|done].
      * apply IH in Hrest as (e' & p' & Hin & Hprop & Hkey). exists e', p'.
        split; [by right|done].
    + intros (e' & p' & Hin & Hprop & Hkey).
      apply elem_of_cons in Hin as [[= -> ->]|Hin].
      * rewrite Hp in Hprop. injection Hprop as <-. apply Hhead in Hkey. rewrite Hkey. left.
      * assert (id ∈ rest) by (apply IH; by exists e', p').
        destruct (match p !! key with Some (JBool true) => true | _ => false end);
          [by right|done].
Qed.

(** X23 ([getCurrentTargets], [processCommand]): which of the targets
    offered reach an object.  On a stage whose world objects all carry
    a property bag, a target the stage offers, sent back in any letter
    case, is never empty and, unless it is one of "all", "last_created"
    and "last_object", resolves without an exception to exactly the
    world objects whose name is the target up to letter case and
    those whose property bag holds the value [true] itself under the
    target in lower case.  So a target offered for a name always
    reaches an object, and one offered for a key does when the key is
    in lower case and its value is [true]: a key with a capital
    letter, or a value that only equals [true] loosely, is offered but
    reaches nothing by itself. *)
Theorem offered_targets_resolve (s : Scene) (targets : list string) (t : string) :
  bagged (world_ids s) s ->
  getCurrentTargets keys_in_order loosely_true s = (Ret targets, s) ->
  t ∈ targets ->
  Str.toLowerCase t ∉ ["all"; "last_created"; "last_object"] ->
  exists resolved,
    resolve_targets (Str.toLowerCase t) s = (Ret (Some resolved), s)
    /\ (forall id, id ∈ resolved
          <-> exists e, (id, e) ∈ world_objects s
                /\ (Str.toLowerCase (name e) = Str.toLowerCase t
                    \/ exists p, prop e = Some p
                         /\ p !! Str.toLowerCase t = Some (JBool true)))
    /\ ((exists id e, (id, e) ∈ world_objects s /\ t = name e) -> resolved <> [])
    /\ (forall id e p, (id, e) ∈ world_objects s -> prop e = Some p ->
          p !! t = Some (JBool true) -> Str.toLowerCase t = t -> id ∈ resolved).
Proof.
  intros Hbag Hrun Ht Hword.
  assert (Hne : Str.toLowerCase t <> "").
  { intros Hempty%toLowerCase_empty. subst t.
    unfold getCurrentTargets, bind, getWorldObjectList, gets, ret in Hrun. cbn in Hrun.
    injection Hrun as <-.
    destruct (add_objects_spec keys_in_order loosely_true
                (omap (fun id => objs s !! id) (map fst (world_objects s))) [] NoDup_nil_2)
      as [_ Hin].
    apply Hin in Ht as [Ht|[Hign _]]; [by apply elem_of_nil in Ht|].
    apply Hign. unfold ignoreKey. set_solver. }
  assert (Hall : forall i x, (i, x) ∈ world_objects s -> is_Some (prop x)).
  { intros i x. by apply bagged_world_objects. }
  unfold resolve_targets.
  destruct (String.eqb_spec (Str.toLowerCase t) "") as [Heq|_]; [done|].
  destruct (String.eqb_spec (Str.toLowerCase t) "all") as [Heq|_];
    [exfalso; apply Hword; rewrite Heq; set_solver|].
  destruct (String.eqb_spec (Str.toLowerCase t) "last_created") as [Heq|_];
    [exfalso; apply Hword; rewrite Heq; set_solver|].
  destruct (String.eqb_spec (Str.toLowerCase t) "last_object") as [Heq|_];
    [exfalso; apply Hword; rewrite Heq; set_solver|].
  cbn [orb]. unfold bind, getWorldObjectList, gets, lift, ret. cbn.
  destruct (filter_matching_total (Str.toLowerCase t) (world_objects s) Hall)
    as [byProp HbyProp]. rewrite HbyProp.
  pose proof (filter_matching_spec _ _ _ HbyProp) as Hprop.
  eexists. split; [done|].
  assert (Hspec : forall id,
            id ∈ (filter (fun o => String.eqb (Str.toLowerCase (name (snd o)))
                                  (Str.toLowerCase (Str.toLowerCase t)) = true)
                    (world_objects s)).*1 ++ byProp
            <-> exists e, (id, e) ∈ world_objects s
                  /\ (Str.toLowerCase (name e) = Str.toLowerCase t
                      \/ exists p, prop e = Some p
                           /\ p !! Str.toLowerCase t = Some (JBool true))).
  { intros id. rewrite elem_of_app, Hprop, toLowerCase_idem. split.
    - intros [Hname|(e & p & Hin & Hp & Hkey)].
      + apply list_elem_of_fmap in Hname as ([i e] & -> & Hin).
        apply list_elem_of_filter in Hin as [Heq Hin]. cbn [snd] in Heq.
        apply String.eqb_eq in Heq. exists e. split; [done|by left].
      + exists e. split; [done|]. right. by exists p.
    - intros (e & Hin & [Hname|(p & Hp & Hkey)]).
      + left. apply list_elem_of_fmap. exists (id, e). split; [done|].
        apply list_elem_of_filter. split; [|done]. cbn [snd]. by apply String.eqb_eq.
      + right. by exists e, p. }
  split; [exact Hspec|]. split.
  - intros (id & e & Hin & Heq) Hnil.
    assert (Hhit : exists e, (id, e) ∈ world_objects s
                     /\ (Str.toLowerCase (name e) = Str.toLowerCase t
                         \/ exists p, prop e = Some p
                              /\ p !! Str.toLowerCase t = Some (JBool true))).
    { exists e. split; [done|]. left. by rewrite Heq. }
    apply Hspec in Hhit. apply (proj1 (elem_of_nil id)). rewrite <- Hnil. exact Hhit.
  - intros id e p Hin Hp Hkey Hlow. apply Hspec. exists e. split; [done|]. right.
    exists p. split; [done|]. by rewrite Hlow.
Qed.

End OfferedTargets.

(** An instance of [offered_targets_resolve]: the candle is offered by
    its name and reached under it. *)
Lemma offered_targets_resolve_witness :
  let candle := Stage.mkEntity Stage.PlainWorldObject "Candle" (Some Sample.defaultProp) None
                  1 0 ∅ ∅ None in
  let s := Stage.with_children [0%nat]
             (Stage.with_objs {[0%nat := candle]} Sample.emptyScene) in
  exists resolved,
    Stage.resolve_targets "candle" s = (Ret (Some resolved), s) /\ resolved <> [].
Proof.
  intros candle s.
  destruct (offered_targets_resolve (fun _ => []) (fun _ => false) s ["Candle"] "Candle")
    as (resolved & Hrun & _ & Hsome & _).
  - intros id Hid. apply list_elem_of_In in Hid. cbn in Hid. destruct Hid as [<-|[]].
    exists candle. split; [reflexivity|]. by eexists.
  - by_run.
  - left.
  - intros Hin. apply list_elem_of_In in Hin. cbn in Hin.
    destruct Hin as [Hin|[Hin|[Hin|[]]]]; discriminate Hin.
  - exists resolved. split; [exact Hrun|]. apply Hsome. exists 0%nat, candle.
    split; [|reflexivity]. apply list_elem_of_In. cbn. by left.
Defined.

(** ** The drawing route, seen by the client *)

Section DrawingSeen.

Import Server Routes Ollama DrawingTransport.

Variable fetch : list call -> call -> outcome reply.
Variable parseFloat : string -> option Q.
Variable inappropriateKeywords : list string.
Variable safetySettingsResponse : jsval.
Variable getZeroWorldObjProp : propbag.
Variable getDefaultWorldObjProp : propbag.

Local Abbreviation route :=
  (analyzeDrawing fetch parseFloat inappropriateKeywords safetySettingsResponse).
Local Abbreviation extract :=
  (Stage.extractPropertiesFromGeminiData getZeroWorldObjProp getDefaultWorldObjProp).

Lemma drawing_analysis_traits (imageBase64 : jsval) (log log' : list call)
    (a : DrawingAnalysis) :
  analyzeDrawingWithOllama fetch parseFloat imageBase64 log = (Ret a, log') ->
  dom (properties a) = trait_set.
Proof.
  unfold analyzeDrawingWithOllama. intros Hrun.
  unfold bind at 1, lift at 1 in Hrun.
  destruct (clean_image imageBase64) as [image|e]; [|outcome_inv Hrun].
  unfold bind at 1, request at 1 in Hrun.
  destruct (fetch log (Generate image)) as [response|e]; [|outcome_inv Hrun].
  destruct (reply_ok response); cbn [negb] in Hrun; [|outcome_inv Hrun].
  unfold bind at 1, lift at 1 in Hrun.
  destruct (reply_json response) as [data|e]; [|outcome_inv Hrun].
  unfold bind at 1, lift at 1 in Hrun.
  destruct (get_field data "response") as [[| | | |text| |]|e]; outcome_inv Hrun.
  apply read_analysis_traits.
Qed.

Lemma analyzeDrawing_answers (body : propbag) (log : list call) (sent : answer) :
  fst (route body log) = Ret sent ->
  (exists a, sent = Recognised a /\ dom (properties a) = trait_set)
  \/ (exists r, sent = Plain r /\ ok_status (res_status r) = false)
  \/ sent = Plain (mkResponse 200 safetySettingsResponse).
Proof.
  unfold analyzeDrawing, try_catch. cbn zeta.
  destruct (truthy _); cbn [negb].
  2: { intros [= <-]. right. left. by eexists. }
  unfold bind at 1.
  destruct (isOllamaAvailable fetch log) as [[[]|e] log1].
  - cbn [negb]. unfold bind at 1.
    destruct (analyzeDrawingWithOllama fetch parseFloat _ log1) as [[a|e] log2] eqn:Hrun.
    + destruct (AIConfig.isInappropriateContent _ _); intros [= <-]; [by right; right|].
      left. exists a. split; [done|]. by eapply drawing_analysis_traits.
    + intros [= <-]. right. left. by eexists.
  - cbn [negb]. intros [= <-]. right. left. by eexists.
  - intros [= <-]. right. left. by eexists.
Qed.

Lemma client_sees_nothing (r : response) (fetched : outcome Stage.http_response)
    (s : Stage.Scene) :
  delivers r fetched ->
  ok_status (res_status r) = false
  \/ (res_body r <> JUndefined /\ truthy (get_field_opt (res_body r) "success") = false) ->
  fst (Stage.analyzeDrawingWithOllama fetched s) = Ret JNull.
Proof.
  intros Hsent Hcase.
  unfold Stage.analyzeDrawingWithOllama, try_catch, bind, lift, ret, Stage.console_error, modify.
  destruct fetched as [h|e]; [|done]. destruct Hsent as (Hstatus & Hok & Hbody).
  destruct Hcase as [Hbad|[Hthere Hfield]].
  - rewrite Hok, Hbad. cbn [negb]. by destruct (Stage.resp_json h).
  - destruct (Stage.resp_ok h); cbn [negb]; [|by destruct (Stage.resp_json h)].
    rewrite (Hbody Hthere).
    destruct (res_body r) as [| | | | | |m]; try done.
    cbn [get_field get_field_opt] in *. by rewrite Hfield.
Qed.

(** X24 ([POST /analyze-drawing], the client's
    [analyzeDrawingWithOllama], [extractPropertiesFromGeminiData]):
    what the client makes of the route's answers.  Every answer that
    is not an analysis, the refusals 400, 503 and 500 as well as the
    safety response the route sends for a type the keyword filter
    flags, when that response has no truthy [success], reads on the
    client as no result at all: the client's function returns [null],
    the value on which the stage turns to its second backend.  An
    analysis arrives as
    the object with its type, and the property bag resolved from it
    is the fourteen traits as the server parsed them over the zero
    baseline of the client. *)
Theorem drawing_route_seen_by_the_client (body : propbag) (log : list call) (sent : answer)
    (fetched : outcome Stage.http_response) (s : Stage.Scene) :
  fst (route body log) = Ret sent ->
  answers sent fetched ->
  safetySettingsResponse <> JUndefined ->
  truthy (get_field_opt safetySettingsResponse "success") = false ->
  let seen := fst (Stage.analyzeDrawingWithOllama fetched s) in
  match sent with
  | Plain _ => seen = Ret JNull
  | Recognised a =>
      (exists e, fetched = Throw e /\ seen = Ret JNull)
      \/ exists result bag,
           seen = Ret result
           /\ truthy result = true
           /\ get_field result "type" = Ret (JStr (objectType a))
           /\ get_field result "shouldRemove" = Ret JUndefined
           /\ extract result = Ret bag
           /\ dom bag = dom getZeroWorldObjProp ∪ trait_set
           /\ forall k, bag !! k = match properties a !! k with
                                   | Some v => Some v
                                   | None => getZeroWorldObjProp !! k
                                   end
  end.
Proof.
  intros Hrun Hsent Hsafety Hsuccess seen.
  destruct (analyzeDrawing_answers body log sent Hrun)
    as [(a & -> & Htraits)|[(r & -> & Hbad)| ->]].
  - subst seen. destruct fetched as [h|e]; [right|left; by exists e].
    destruct Hsent as (Hstatus & Hok & fields & number & Hjson & Hs & Ht & Hc & Hd & Hp).
    unfold Stage.analyzeDrawingWithOllama, try_catch, bind, lift, ret.
    rewrite Hok, Hjson. cbn [negb get_field]. rewrite Hs, Ht, Hc, Hd, Hp. cbn [default truthy fst].
    eexists _, _. split; [reflexivity|]. split; [done|].
    split; [cbn; by simplify_map_eq|]. split; [cbn; by simplify_map_eq|].
    split.
    { unfold Stage.extractPropertiesFromGeminiData. cbn [is_nullish get_field obind].
      rewrite lookup_insert_ne, lookup_insert_ne, lookup_insert_ne, lookup_insert_eq by done.
      cbn [default truthy typeof_object andb own_props]. reflexivity. }
    split.
    + unfold id. cbn [own_props]. rewrite spread_dom. by rewrite Htraits.
    + intros k. unfold id. cbn [own_props]. apply spread_lookup.
  - by apply (client_sees_nothing r fetched s Hsent); left.
  - apply (client_sees_nothing _ fetched s Hsent). right. by split.
Qed.

End DrawingSeen.

(** An instance of [drawing_route_seen_by_the_client]: the candle
    recognised by Ollama burns on the client. *)
Lemma drawing_route_seen_by_the_client_witness :
  exists result bag,
    fst (Stage.analyzeDrawingWithOllama SampleDrawing.fetched Sample.emptyScene) = Ret result
    /\ Stage.extractPropertiesFromGeminiData Sample.zeroProp Sample.defaultProp result
       = Ret bag
    /\ bag !! "burns" = Some (JBool true).
Proof.
  pose proof (drawing_route_seen_by_the_client SampleOllama.fetch SampleOllama.parseFloat
                AIConfig.default_inappropriateKeywords AIConfig.default_safetySettingsResponse
                Sample.zeroProp Sample.defaultProp SampleDrawing.request_body []
                (Ollama.Recognised SampleDrawing.analysis) SampleDrawing.fetched
                Sample.emptyScene) as Hseen.
  destruct Hseen as [(e & Hthrow & _)|(result & bag & Hresult & _ & _ & _ & Hbag & _ & Hlookup)].
  - by_run.
  - split; [reflexivity|]. split; [reflexivity|].
    exists SampleDrawing.fields, (JNum 1). repeat split.
  - discriminate.
  - by_run.
  - discriminate Hthrow.
  - exists result, bag. split; [exact Hresult|]. split; [exact Hbag|].
    rewrite Hlookup. by_run.
Defined.

(** ** A refused drawing, from the server to the stage *)

Section BlockedDrawing.

Import Server Routes Analysis AnalysisRoutes.

Variable model : list request -> request -> ai_answer.
Variable JSON_parse : string -> outcome jsval.
Variable member : jsval -> string -> outcome jsval.
Variable prompts : gmap string string.
Variable types : list (string * list string).
Variable attributes : list (string * option string).
Variable inappropriateKeywords : list string.
Variable safetySettingsResponse : jsval.
Variable getZeroWorldObjProp getDefaultWorldObjProp : propbag.
Variable userobject : Z -> Z -> string -> propbag -> Stage.Entity.
Variable newWorldObject : Z -> Z -> string -> propbag -> Stage.Entity.
Variable updateObject : option string -> option propbag -> Stage.Entity -> Stage.Entity.
Variable md5 : string -> string.
Variable constructServerUrl : string -> string.

Local Abbreviation analyse :=
  (imageToConfig model JSON_parse member prompts types attributes inappropriateKeywords
     safetySettingsResponse).
Local Abbreviation route :=
  (analyseImage model JSON_parse member prompts types attributes inappropriateKeywords
     safetySettingsResponse).
Local Abbreviation processCanvas :=
  (Stage.processCanvas getZeroWorldObjProp getDefaultWorldObjProp userobject newWorldObject
     updateObject md5 constructServerUrl).

(** The first backend of the client appends to the console what it
    logs, and nothing of it depends on the scene. *)
Lemma analyzeDrawingWithOllama_log (fetched : outcome Stage.http_response) :
  exists v extra, forall s,
    Stage.analyzeDrawingWithOllama fetched s
    = (Ret v, Stage.with_consoleErrors (Stage.consoleErrors s ++ extra) s).
Proof.
  unfold Stage.analyzeDrawingWithOllama, try_catch, bind, lift, Stage.console_error, modify, ret.
  assert (Hsame : forall s, s = Stage.with_consoleErrors (Stage.consoleErrors s ++ []) s).
  { intros []. cbn. by rewrite app_nil_r. }
  destruct fetched as [response | e]; cbn.
  2: { exists JNull, ["Error calling Ollama analysis endpoint:"]. by intros []. }
  destruct (Stage.resp_ok response); cbn.
  - destruct (Stage.resp_json response) as [result | e]; cbn.
    2: { exists JNull, ["Error calling Ollama analysis endpoint:"]. by intros []. }
    destruct (get_field result "success") as [success | e] eqn:Hs; cbn.
    2: { exists JNull, ["Error calling Ollama analysis endpoint:"]. by intros []. }
    destruct (truthy success); cbn.
    2: { exists JNull, []. intros s. by rewrite <- Hsame. }
    destruct result; try discriminate; cbn;
      (eexists _, []; intros s0; by rewrite <- Hsame).
  - destruct (Stage.resp_json response) as [errorData | e]; cbn.
    + exists JNull, ["Ollama analysis error:"]. by intros [].
    + exists JNull, ["Error calling Ollama analysis endpoint:"]. by intros [].
Qed.

Lemma substring_from_long (n : nat) (s : string) :
  (n < String.length s)%nat -> Str.substring_from n s <> "".
Proof.
  revert s. induction n as [|n IH]; intros [|c s] Hlen; cbn in *; try done; try lia.
  apply IH. lia.
Qed.

(** The route relays the safety response of [imageToConfig]. *)
Lemma analyseImage_relays_refusal (body : propbag) (img : string) (log log' : list request)
    (settings : propbag) (t : string) :
  safetySettingsResponse = JObj settings ->
  settings !! "type" = Some (JStr t) ->
  body !! "prompt" = Some (JStr img) ->
  (22 < String.length img)%nat ->
  analyse (JStr (Str.substring_from 22 img)) log = (Ret safetySettingsResponse, log') ->
  route body log = (Ret (mkResponse 200 safetySettingsResponse), log').
Proof.
  intros Hsafe Htype Hbody Hlen Hrun.
  unfold analyseImage, try_catch, validateImageRequest. rewrite Hbody. cbn [default].
  assert (Himg : truthy (JStr img) = true).
  { destruct img; [cbn in Hlen; lia|done]. }
  assert (Hget : get_field safetySettingsResponse "type" = Ret (JStr t)).
  { rewrite Hsafe. cbn. by rewrite Htype. }
  unfold id. rewrite Himg. cbn [negb]. unfold bind at 1, lift at 1. cbn [slice_from].
  assert (Hdata : truthy (JStr (Str.substring_from 22 img)) = true).
  { pose proof (substring_from_long 22 img Hlen) as Hne.
    destruct (Str.substring_from 22 img); [done|done]. }
  rewrite ?Himg, Hdata. cbn [negb]. unfold bind at 1. rewrite Hrun.
  unfold bind at 1, lift at 1. rewrite Hget.
  unfold bind, lift, ret, moderate. cbn [Stage.call_toLowerCase].
  destruct (truthy (JStr t)); [|done].
  destruct inappropriateKeywords as [|keyword rest]; [done|].
  cbn [obind]. by destruct (existsb _ (keyword :: rest)).
Qed.

Lemma remove_drawing_console (loadingParticles phaserObj : nat) (s : Stage.Scene) :
  Stage.consoleErrors (snd (Stage.remove_drawing loadingParticles phaserObj s))
  = Stage.consoleErrors s.
Proof.
  unfold Stage.remove_drawing, Stage.particles_stop, Stage.particles_destroy,
    Stage.destroy_entity, bind, modify.
  by destruct s.
Qed.

(** X25 ([POST /analyseImage], [sendImageDataToServerForAnalysis],
    [processCanvas]): a refused drawing, from the server to the stage.
    When [imageToConfig] answers the safety response for the drawing
    (the prompt less its first 22 characters), the route sends it with
    status 200, its own keyword check changing nothing.  On the stage,
    when the first backend gave nothing and this answer arrives, the
    run returns without an exception, the placeholder and its loading
    particles are removed as after a failure, the two drawing flags are
    down, and the [catch] block is not run: the console holds only what
    the first backend logged. *)
Theorem refused_drawing_is_removed (body : propbag) (img : string) (log log' : list request)
    (settings : propbag) (t : string) (flag : jsval)
    (run : Stage.CanvasRun) (h : Stage.http_response) (s : Stage.Scene) :
  safetySettingsResponse = JObj settings ->
  settings !! "type" = Some (JStr t) ->
  settings !! "shouldRemove" = Some flag ->
  truthy flag = true ->
  body !! "prompt" = Some (JStr img) ->
  (22 < String.length img)%nat ->
  analyse (JStr (Str.substring_from 22 img)) log = (Ret safetySettingsResponse, log') ->
  (forall s0 v s', Stage.analyzeDrawingWithOllama (Stage.ollamaFetch run) s0 = (Ret v, s') ->
                   truthy v = false) ->
  Stage.analysisFetch run = Ret h ->
  Stage.resp_has_body h = true ->
  delivers (mkResponse 200 safetySettingsResponse) (Ret h) ->
  let placeholder := Stage.nextId s in
  let loadingParticles := S (Stage.nextId s) in
  let after := snd (processCanvas run s) in
  route body log = (Ret (mkResponse 200 safetySettingsResponse), log')
  /\ fst (processCanvas run s) = Ret tt
  /\ (exists tex, Stage.particles after
                  = <[loadingParticles := Stage.mkEmitter tex false true (Some placeholder)]>
                      (Stage.particles s))
  /\ Stage.objs after = delete placeholder (Stage.objs s)
  /\ Stage.children after = filter (fun i => i <> placeholder) (Stage.children s)
  /\ Stage.drawingInProgress after = false /\ Stage.mouseDown after = false
  /\ Stage.consoleErrors after
     = Stage.consoleErrors (snd (Stage.analyzeDrawingWithOllama (Stage.ollamaFetch run) s)).
Proof.
  intros Hsafe Htype Hflag Htruthy Hbody Hlen Hrun Hfirst Hfetch Hhas Hsent
    placeholder loadingParticles after.
  split; [by eapply analyseImage_relays_refusal|].
  subst placeholder loadingParticles.
  set (placeholder := Stage.nextId s) in *. set (loadingParticles := S placeholder) in *.
  destruct Hsent as (_ & Hok & Hjson). cbn [res_status res_body] in Hok, Hjson.
  assert (Hread : Stage.resp_json h = Ret (JObj settings)).
  { rewrite <- Hsafe. apply Hjson. by rewrite Hsafe. }
  destruct (place_drawing_run getDefaultWorldObjProp userobject run s)
    as (s1 & tex & Hplace & Hp & Ho & Hc & _ & _ & _ & Hlog).
  destruct (analyzeDrawingWithOllama_log (Stage.ollamaFetch run)) as (v & extra & Hollama).
  pose proof (Hfirst s1 v _ (Hollama s1)) as Hnothing.
  set (s2 := Stage.with_consoleErrors (Stage.consoleErrors s1 ++ extra) s1).
  assert (Hclassify : Stage.classify run s1 = (Ret (JObj settings), s2)).
  { unfold Stage.classify, bind. rewrite (Hollama s1), Hnothing. cbn [negb].
    unfold Stage.sendImageDataToServerForAnalysis, bind, lift, ret.
    by rewrite Hfetch, Hok, Hhas, Hread. }
  assert (Htry : Stage.processCanvas_try getZeroWorldObjProp getDefaultWorldObjProp
                   newWorldObject updateObject md5 constructServerUrl run
                   loadingParticles placeholder s1
                 = Stage.remove_drawing loadingParticles placeholder s2).
  { unfold Stage.processCanvas_try, bind at 1. rewrite Hclassify. cbn [truthy negb].
    unfold bind at 1, lift at 1. cbn [get_field get_field_opt]. rewrite Hflag. cbn [default].
    unfold id. by rewrite Htruthy. }
  destruct (remove_drawing_cleans loadingParticles placeholder s2) as [Hret Hclean].
  assert (Hwhole : processCanvas run s = (Ret tt, snd (Stage.remove_drawing loadingParticles placeholder s2))).
  { unfold Stage.processCanvas, bind. rewrite Hplace. cbv zeta. cbn [fst snd].
    subst loadingParticles placeholder. unfold try_catch. rewrite Htry.
    destruct (Stage.remove_drawing _ _ s2) as [o s3].
    cbn [fst snd] in *. by rewrite Hret. }
  subst after. rewrite Hwhole. cbn [fst snd].
  pose proof (remove_drawing_console loadingParticles placeholder s2) as Hquiet.
  apply cleaned_up_console in Hclean. destruct Hclean as (Hp' & Ho' & Hc' & Hd & Hm).
  split; [done|].
  split. { exists tex. rewrite Hp', Hp. by rewrite alter_insert_eq. }
  split. { rewrite Ho', Ho. by rewrite delete_insert_eq. }
  split. { rewrite Hc', Hc, filter_app. rewrite filter_cons_False by (intros H; by apply H).
           by rewrite filter_nil, app_nil_r. }
  split; [done|]. split; [done|].
  rewrite Hquiet, (Hollama s). subst s2. destruct s1, s. cbn in *. by rewrite Hlog.
Qed.

End BlockedDrawing.

Lemma sample_refused_first_backend (s0 : Stage.Scene) (v : jsval) (s' : Stage.Scene) :
  Stage.analyzeDrawingWithOllama (Stage.ollamaFetch SampleBlocked.blocked_run) s0 = (Ret v, s')
  -> truthy v = false.
Proof. intros H. vm_compute in H. by inversion H. Qed.

(** An instance of [refused_drawing_is_removed]: the model stops the
    request for safety, the first backend of the stage is down; the
    drawing is gone and the console holds the line of the first
    backend only. *)
Lemma refused_drawing_is_removed_witness :
  let after := snd (Sample.processCanvas SampleBlocked.blocked_run Sample.emptyScene) in
  fst (SampleBlocked.analyseImage SampleBlocked.request_body [])
  = Ret (Server.mkResponse 200 AIConfig.default_safetySettingsResponse)
  /\ fst (Sample.processCanvas SampleBlocked.blocked_run Sample.emptyScene) = Ret tt
  /\ Stage.children after = []
  /\ Stage.consoleErrors after = ["Ollama analysis error:"].
Proof.
  intros after.
  pose (run := Analysis.imageToConfig SampleBlocked.model SampleAI.JSON_parse get_field
                 SampleAI.prompts SampleAI.types SampleAI.attributes
                 AIConfig.default_inappropriateKeywords AIConfig.default_safetySettingsResponse
                 (JStr "iVBORw0KGgo=") []).
  destruct (refused_drawing_is_removed SampleBlocked.model SampleAI.JSON_parse get_field
              SampleAI.prompts SampleAI.types SampleAI.attributes
              AIConfig.default_inappropriateKeywords AIConfig.default_safetySettingsResponse
              Sample.zeroProp Sample.defaultProp Sample.userobject Sample.userobject
              Sample.updateObject Sample.md5 Sample.constructServerUrl
              SampleBlocked.request_body "data:image/png;base64,iVBORw0KGgo=" [] (snd run)
              (<["type" := JStr "__BLOCKED__"]> (<["attributes" := JArr []]>
                 (<["shouldRemove" := JBool true]> ∅)))
              "__BLOCKED__" (JBool true) SampleBlocked.blocked_run
              (Sample.ok_response Sample.blocked_text (Ret Sample.blocked_json))
              Sample.emptyScene)
    as (Hroute & Hret & _ & _ & Hch & _ & _ & Hlog).
  - reflexivity.
  - by_run.
  - by_run.
  - reflexivity.
  - by_run.
  - cbn. lia.
  - by_run.
  - exact sample_refused_first_backend.
  - reflexivity.
  - reflexivity.
  - split; [reflexivity|]. split; [reflexivity|]. intros _. reflexivity.
  - split; [unfold SampleBlocked.analyseImage; by rewrite Hroute|].
    split; [exact Hret|]. split; [exact Hch|]. subst after. unfold Sample.processCanvas.
    rewrite Hlog. by_run.
Defined.
